(** * nanoclaw: router and Discord channel, verified against their specification

    A shallow embedding of [src/router.ts] (context formatter, outbound
    sanitizer, dispatcher, attachment collector) and of the Discord channel
    adapter (inbound handlers, send-side operations), followed by the
    properties the specification states about them.

    JavaScript strings are sequences of UTF-16 code units; they are modelled
    as [list N], so that [length] is [String.prototype.length], [take]/[drop]
    are [slice], and regular expressions without the [u] flag work on single
    elements. *)

From stdpp Require Import gmap list strings.
From Equations Require Import Equations.
From Stdlib Require Import NArith Lia DecimalString.

Local Open Scope N_scope.
Local Open Scope nat_scope.
Local Open Scope list_scope.

(** ** JavaScript string primitives *)

Module JS.

Abbreviation jsstring := (list N).

(** An ASCII literal as a JavaScript string. *)
Definition lit (s : string) : jsstring :=
map Ascii.N_of_ascii (String.list_ascii_of_string s).

(** The double quote, U+0022. *)
Definition dquote : N := 34%N.

(** [s.startsWith(p)] *)
Fixpoint startsWith (p s : jsstring) : bool :=
match p, s with
| [], _ => true
| _ :: _, [] => false
| a :: p', b :: s' => if decide (a = b) then startsWith p' s' else false
end.

(** [s.includes(p)] *)
Fixpoint includes (p s : jsstring) : bool :=
startsWith p s ||
match s with
| [] => false
| _ :: s' => includes p s'
end.

(** Truthiness of a string: only the empty string is falsy. *)
Definition truthy (s : jsstring) : bool :=
match s with [] => false | _ :: _ => true end.

(** [a || b] on strings. *)
Definition or_str (a b : jsstring) : jsstring := if truthy a then a else b.

(** [a || b] where [a] may also be [null] or [undefined]. *)
Definition or_opt (a : option jsstring) (b : jsstring) : jsstring :=
match a with
| Some s => or_str s b
| None => b
end.

(** [parts.join(sep)] *)
Fixpoint join (sep : jsstring) (parts : list jsstring) : jsstring :=
match parts with
| [] => []
| [p] => p
| p :: rest => p ++ sep ++ join sep rest
end.

(** WhiteSpace and LineTerminator code units, the ones [trim] removes. *)
Definition isWhiteSpace (c : N) : bool :=
((9 <=? c) && (c <=? 13) || (c =? 32) || (c =? 160) || (c =? 5760)
|| (8192 <=? c) && (c <=? 8202) || (c =? 8232) || (c =? 8233)
|| (c =? 8239) || (c =? 8287) || (c =? 12288) || (c =? 65279))%N.

Fixpoint trimStart (s : jsstring) : jsstring :=
match s with
| c :: s' => if isWhiteSpace c then trimStart s' else s
| [] => []
end.

Definition trimEnd (s : jsstring) : jsstring :=
reverse (trimStart (reverse s)).

(** [s.trim()] *)
Definition trim (s : jsstring) : jsstring := trimEnd (trimStart s).

(** Template-literal rendering of a non-negative integer below 1e21. *)
Definition showN (n : N) : jsstring := lit (NilEmpty.string_of_uint (N.to_uint n)).

(** *** Regular expressions

The fragment of the regular-expression language the sources use,
matched by backtracking in the priority order of the language:
a literal, one code unit of a class, concatenation, the greedy option
[r?] and the lazy star of a class [[c]*?]. *)

Inductive regex : Type :=
| RLit (l : jsstring)
| RSet (p : N -> bool)
| RCat (r1 r2 : regex)
| ROpt (r : regex)
| RLazyStar (p : N -> bool).

(** [rmatch r s k]: match [r] at the start of [s], hand what is left of [s]
to the continuation [k], and backtrack into [r] when [k] fails. *)
Fixpoint rmatch (r : regex) (s : jsstring)
   (k : jsstring -> option jsstring) : option jsstring :=
match r with
| RLit l => if startsWith l s then k (drop (length l) s) else None
| RSet p =>
match s with
| c :: s' => if p c then k s' else None
| [] => None
end
| RCat r1 r2 => rmatch r1 s (fun s' => rmatch r2 s' k)
| ROpt r1 =>
match rmatch r1 s k with
| Some rest => Some rest
| None => k s
end
| RLazyStar p =>
(fix lazy (s : jsstring) : option jsstring :=
   match k s with
   | Some rest => Some rest
   | None =>
       match s with
       | c :: s' => if p c then lazy s' else None
       | [] => None
       end
   end) s
end.

(** The match of [r] starting exactly at the head of [s]: what follows it. *)
Definition matchAt (r : regex) (s : jsstring) : option jsstring :=
rmatch r s Some.

(** [s.replace(/r/g, rep)] for a replacement [rep] without [$] patterns:
leftmost matches are replaced one after the other, the search resuming
where the previous match ended (one unit further after an empty match). *)
Equations replaceAll (r : regex) (rep : jsstring) (s : jsstring) : jsstring
by wf (length s) lt :=
replaceAll r rep [] with matchAt r [] := {
| Some _ => rep;
| None => [] };
replaceAll r rep (c :: s') with matchAt r (c :: s') := {
| Some rest with decide (length rest < length (c :: s')) := {
  | left _ => rep ++ replaceAll r rep rest;
  | right _ => rep ++ c :: replaceAll r rep s' };
| None => c :: replaceAll r rep s' }.

(** [s.replace(/^p/, '')] for a literal [p]. *)
Definition stripPrefix (p s : jsstring) : jsstring :=
if startsWith p s then drop (length p) s else s.

Definition isChar (c : N) : N -> bool := fun x => (x =? c)%N.
Definition anyChar : N -> bool := fun _ => true.

End JS.

Import JS.

(** ** Shared records ([types.ts]) *)

Record MessageAttachment : Type := mkAttachment {
  filename : jsstring;
  path : jsstring;
  mimeType : jsstring;
  size : N;
  isImage : bool
}.

Record NewMessage : Type := mkMessage {
  id : jsstring;
  chat_jid : jsstring;
  sender : jsstring;
  sender_name : jsstring;
  content : jsstring;
  timestamp : jsstring;
  is_from_me : option bool;
  is_bot_message : option bool;
  attachments : option (list MessageAttachment)
}.

Record RegisteredGroup : Type := mkGroup {
  group_name : jsstring;
  folder : jsstring;
  trigger : jsstring;
  added_at : jsstring
}.

(** What a call produces: a value, or a thrown [Error] with its message. *)
Inductive Outcome (A : Type) : Type :=
| Returned (a : A)
| Thrown (msg : jsstring).
Arguments Returned {A} a.
Arguments Thrown {A} msg.

(** The [Channel] interface. [P] is what a send returns (the channel's
    promise); the optional [sendFile] is present or absent. *)
Record Channel (P : Type) : Type := mkChannel {
  name : jsstring;
  sendMessage : jsstring -> jsstring -> P;
  isConnected : bool;
  ownsJid : jsstring -> bool;
  sendFile : option (jsstring -> jsstring -> option jsstring -> P)
}.
Arguments name {P} c.
Arguments sendMessage {P} c jid text.
Arguments isConnected {P} c.
Arguments ownsJid {P} c jid.
Arguments sendFile {P} c.

(** ** [src/router.ts] *)

Module Router.

Definition amp : N := 38%N.
Definition lt_ : N := 60%N.
Definition gt_ : N := 62%N.

Definition escapeXml (s : jsstring) : jsstring :=
if negb (truthy s) then []
else
replaceAll (RSet (isChar dquote)) (lit "&quot;")
(replaceAll (RSet (isChar gt_)) (lit "&gt;")
   (replaceAll (RSet (isChar lt_)) (lit "&lt;")
      (replaceAll (RSet (isChar amp)) (lit "&amp;") s))).

(** One [<message>] element of the context envelope. *)
Definition messageLine (m : NewMessage) : jsstring :=
lit "<message sender=" ++ [dquote] ++ escapeXml (sender_name m)
++ [dquote] ++ lit " time=" ++ [dquote] ++ timestamp m ++ [dquote]
++ lit ">" ++ escapeXml (content m) ++ lit "</message>".

Definition newline : jsstring := [10%N].

Definition formatMessages (messages : list NewMessage) : jsstring :=
let lines := map messageLine messages in
lit "<messages>" ++ newline ++ join newline lines ++ newline
++ lit "</messages>".

Definition openTag : jsstring := lit "<internal>".
Definition closeTag : jsstring := lit "</internal>".

(** [/<internal>[\s\S]*?<\/internal>/] *)
Definition internalRe : regex :=
RCat (RLit openTag) (RCat (RLazyStar anyChar) (RLit closeTag)).

Definition stripInternalTags (text : jsstring) : jsstring :=
trim (replaceAll internalRe [] text).

Definition formatOutbound (rawText : jsstring) : jsstring :=
let text := stripInternalTags rawText in
if negb (truthy text) then [] else text.

Section Dispatch.
Context {P : Type}.

(** The predicate of both [channels.find] calls. *)
Definition live (jid : jsstring) (c : Channel P) : bool :=
ownsJid c jid && isConnected c.

Definition routeOutbound (channels : list (Channel P))
(jid text : jsstring) : Outcome P :=
match find (live jid) channels with
| None => Thrown (lit "No channel for JID: " ++ jid)
| Some channel => Returned (sendMessage channel jid text)
end.

Definition routeFile (channels : list (Channel P))
(jid filePath : jsstring) (caption : option jsstring) : Outcome P :=
match find (live jid) channels with
| None => Thrown (lit "No channel for JID: " ++ jid)
| Some channel =>
match sendFile channel with
| None =>
Thrown (lit "Channel " ++ name channel
        ++ lit " does not support file sending")
| Some send => Returned (send jid filePath caption)
end
end.

Definition findChannel (channels : list (Channel P))
(jid : jsstring) : option (Channel P) :=
find (fun c => ownsJid c jid) channels.

End Dispatch.

(** The state of the two loops of [collectAttachments]: the [seen] set and
the [result] array. *)
Definition collectAtt (st : gset jsstring * list MessageAttachment)
     (att : MessageAttachment) : gset jsstring * list MessageAttachment :=
let '(seen, result) := st in
if decide (path att ∈ seen) then st
else ({[path att]} ∪ seen, result ++ [att]).

Definition collectMsg (st : gset jsstring * list MessageAttachment)
     (msg : NewMessage) : gset jsstring * list MessageAttachment :=
match attachments msg with
| None => st
| Some atts => foldl collectAtt st atts
end.

Definition collectAttachments (messages : list NewMessage)
: list MessageAttachment :=
snd (foldl collectMsg (∅, []) messages).

End Router.

(** ** The Discord channel adapter *)

Module Discord.

(** [config.js], [group-folder.js] and Node's [path.join] are outside the
sources at hand; the adapter is parameterised by what it imports from
them. [TRIGGER_PATTERN] stands for [TRIGGER_PATTERN.test]. *)
Record Config : Type := mkConfig {
ASSISTANT_NAME : jsstring;
TRIGGER_PATTERN : jsstring -> bool;
MAX_ATTACHMENT_DOWNLOAD_SIZE : N;
resolveGroupFolderPath : jsstring -> jsstring;
path_join : jsstring -> jsstring -> jsstring
}.

(** *** Platform objects, as far as the adapter reads them *)

Record User : Type := mkUser {
user_id : jsstring;
username : jsstring;
displayName : jsstring
}.

Record RawAttachment : Type := mkRaw {
att_name : option jsstring;
att_contentType : option jsstring;
att_size : option N;
att_url : jsstring
}.

(** A [Message]: [member] holds [member.displayName] when there is a guild
member, [guild] holds [guild.name], [createdAt] is already rendered by
[toISOString], [reference] is [reference?.messageId]. *)
Record Message : Type := mkMsg {
author_bot : bool;
channelId : jsstring;
msg_content : jsstring;
createdAt : jsstring;
member : option jsstring;
author : User;
msg_id : jsstring;
guild : option jsstring;
channel_name : jsstring;
mentions_users : list jsstring;
msg_attachments : list RawAttachment;
reference : option jsstring
}.

(** The kinds of interaction: a button with [component.label], a string
select with [values], anything else. *)
Inductive InteractionKind : Type :=
| Button (label : option jsstring)
| StringSelectMenu (values : list jsstring)
| OtherInteraction.

(** [int_member]: [None] for no member, [Some None] for a member object
without a [displayName] property, [Some (Some d)] for one with it.
[deferUpdateResult] is how [interaction.deferUpdate()] settles: the
platform accepts the acknowledgement, or the promise rejects. *)
Record Interaction : Type := mkInteraction {
kind : InteractionKind;
int_channelId : jsstring;
customId : jsstring;
int_id : jsstring;
int_user : User;
int_member : option (option jsstring);
int_message_id : jsstring;
deferUpdateResult : Outcome unit
}.

(** *** Interactive components ([types.ts] and discord.js builders) *)

Inductive IpcStyle : Type := primary | secondary | success | danger.

Record IpcSelectOption : Type := mkOpt {
opt_label : jsstring;
opt_value : jsstring;
opt_description : option jsstring
}.

Inductive IpcComponent : Type :=
| IpcButton (custom_id label : jsstring) (style : option IpcStyle)
      (disabled : option bool)
| IpcStringSelect (custom_id : jsstring) (placeholder : option jsstring)
            (min_values max_values : option N)
            (options : list IpcSelectOption) (disabled : option bool).

Record IpcActionRow : Type := mkRow { components : list IpcComponent }.

Inductive ButtonStyle : Type := Primary | Secondary | Success | Danger.

Record OptionBuilder : Type := mkOptB {
ob_label : jsstring;
ob_value : jsstring;
ob_description : option jsstring
}.

(** A builder is the record of what its setters were called with, once
every setter has accepted its argument. *)
Inductive ComponentBuilder : Type :=
| ButtonBuilder (customId label : jsstring) (style : ButtonStyle)
          (disabled : option bool)
| StringSelectMenuBuilder (customId : jsstring) (placeholder : option jsstring)
                    (minValues maxValues : option N)
                    (disabled : option bool)
                    (options : list OptionBuilder).

Definition ActionRowBuilder : Type := list ComponentBuilder.

(** *** The world the adapter talks to *)

Inductive Level : Type := Debug | Info | Warn | Error.

Inductive Payload : Type :=
| PText (text : jsstring)
| PFile (content : option jsstring) (filePath : jsstring)
| PComponents (text : jsstring) (rows : list ActionRowBuilder).

Record EditPayload : Type := mkEdit {
edit_content : option jsstring;
edit_components : option (list ActionRowBuilder)
}.

(** What the adapter does to the outside, in the order it does it. *)
Inductive Effect : Type :=
| OnChatMetadata (chatJid timestamp chatName : jsstring)
| OnMessage (chatJid : jsstring) (m : NewMessage)
| MessagesFetch (messageId : jsstring)
| MkdirSync (dir : jsstring)
| HttpFetch (url : jsstring)
| WriteFileSync (dest : jsstring) (len : N)
| DeferUpdate
| Log (level : Level) (text : jsstring)
| ChannelsFetch (channelId : jsstring)
| Send (payload : Payload)
| SendTyping
| MessageEdit (payload : EditPayload).

(** A fetched platform channel: whether it has [send] and [sendTyping],
and how its calls answer. [sendResult k] is the answer to the [k]-th
[send] of one operation: the sent message's id, or a rejection. *)
Record PlatformChannel : Type := mkPlatform {
hasSend : bool;
hasSendTyping : bool;
sendResult : nat -> Outcome jsstring;
sendTypingResult : Outcome unit;
messagesFetchResult : jsstring -> Outcome unit;
editResult : Outcome unit
}.

Inductive Fetched : Type :=
| FetchRejects (reason : jsstring)
| FetchNull
| FetchChannel (ch : PlatformChannel).

(** The answers of the outside world: [fetchReply id] is
[channel.messages.fetch(id)] ([None] when it rejects, else the replied
message's member display name and author); [httpGet url] is the body
length of [fetch(url)] when it resolves with an ok status;
[writeOk p] tells whether the file system takes the write at path [p],
that is whether [fs.mkdirSync(p, { recursive: true })] of a directory
or [fs.writeFileSync(p, buffer)] of a file returns rather than throws;
[dateNow k] is the [k]-th [Date.now()] of a handler run; [nowISO] is
[new Date().toISOString()]. The discord.js builders are outside the
sources at hand and validate what their setters are given:
[builderCheck comp] is [Returned tt] when every setter called for
[comp] accepts its argument, and [Thrown reason] with the first
setter's error otherwise. *)
Record World : Type := mkWorld {
fetchReply : jsstring -> option (option jsstring * User);
httpGet : jsstring -> option N;
writeOk : jsstring -> bool;
dateNow : nat -> N;
nowISO : jsstring;
channelsFetch : jsstring -> Fetched;
builderCheck : IpcComponent -> Outcome unit
}.

Record Client : Type := mkClient {
client_user : option jsstring;
client_ready : bool
}.

(** The channel object: [client] is [null] until [connect] and after
[disconnect]. *)
Record DiscordChannel : Type := mkDiscord { client : option Client }.

(** *** The [MessageCreate] handler *)

Section Handlers.
Context (cfg : Config).

Definition jidOf (channelId : jsstring) : jsstring := lit "dc:" ++ channelId.

(** [member?.displayName || author.displayName || author.username] *)
Definition senderNameOf (member : option jsstring) (u : User) : jsstring :=
or_opt member (or_str (displayName u) (username u)).

Definition chatNameOf (message : Message) (senderName : jsstring) : jsstring :=
match guild message with
| Some guildName => guildName ++ lit " #" ++ channel_name message
| None => senderName
end.

(** [new RegExp(`<@!?${botId}>`, 'g')]; a bot id is a string of digits. *)
Definition mentionRe (botId : jsstring) : regex :=
RCat (RLit (lit "<@"))
(RCat (ROpt (RLit (lit "!"))) (RCat (RLit botId) (RLit (lit ">")))).

Definition triggerPhrase : jsstring := lit "@" ++ ASSISTANT_NAME cfg.

Definition translateMention (self : DiscordChannel) (message : Message)
: jsstring :=
let content := msg_content message in
match client self ≫= client_user with
| Some botId =>
let isBotMentioned :=
bool_decide (botId ∈ mentions_users message)
|| includes (lit "<@" ++ botId ++ lit ">") content
|| includes (lit "<@!" ++ botId ++ lit ">") content in
if isBotMentioned then
let content := trim (replaceAll (mentionRe botId) [] content) in
if negb (TRIGGER_PATTERN cfg content)
then triggerPhrase ++ lit " " ++ content
else content
else content
| None => content
end.

(** Reply context: the effects of the lookup and the new content. *)
Definition replyContext (w : World) (message : Message) (content : jsstring)
: list Effect * jsstring :=
match reference message with
| Some messageId =>
if truthy messageId then
match fetchReply w messageId with
| Some (repliedMember, repliedAuthor) =>
let replyAuthor := senderNameOf repliedMember repliedAuthor in
([MessagesFetch messageId],
 lit "[Reply to " ++ replyAuthor ++ lit "] " ++ content)
| None => ([MessagesFetch messageId], content)
end
else ([], content)
| None => ([], content)
end.

(** [Math.round(n / 1024 / 1024)] for a non-negative integer [n]: both
divisions are exact in binary floating point, and [Math.round] rounds
halves up. *)
Definition roundMB (n : N) : N := ((n + 524288) / 1048576)%N.

Definition tooLarge (name : jsstring) (size : N) : jsstring :=
lit "[File too large: " ++ name ++ lit " (" ++ showN (roundMB size)
++ lit "MB, max "
++ showN (roundMB (MAX_ATTACHMENT_DOWNLOAD_SIZE cfg)) ++ lit "MB)]".

(** [[^a-zA-Z0-9._-]] *)
Definition unsafeChar (c : N) : bool :=
negb ((97 <=? c) && (c <=? 122) || (65 <=? c) && (c <=? 90)
|| (48 <=? c) && (c <=? 57) || (c =? 46) || (c =? 95)
|| (c =? 45))%N.

(** U+2192, the arrow of the reference lines. *)
Definition arrow : jsstring := [8594%N].

(** The placeholder of the [catch] branch. *)
Definition fallback (isImage : bool) (contentType name : jsstring) : jsstring :=
if isImage then lit "[Image: " ++ name ++ lit "]"
else if startsWith (lit "video/") contentType
then lit "[Video: " ++ name ++ lit "]"
else if startsWith (lit "audio/") contentType
then lit "[Audio: " ++ name ++ lit "]"
else lit "[File: " ++ name ++ lit "]".

(** The variables of the attachment loop. *)
Record Loop : Type := mkLoop {
descriptions : list jsstring;
downloaded : list MessageAttachment;
trace : list Effect;
ticks : nat
}.

(** One iteration of [for (const att of message.attachments.values())]. *)
Definition attachmentStep (w : World) (inboxDir : jsstring)
(st : Loop) (att : RawAttachment) : Loop :=
let contentType := or_opt (att_contentType att) (lit "application/octet-stream") in
let name := or_opt (att_name att) (lit "file") in
let size := default 0%N (att_size att) in
let isImage := startsWith (lit "image/") contentType in
if (MAX_ATTACHMENT_DOWNLOAD_SIZE cfg <? size)%N then
mkLoop (descriptions st ++ [tooLarge name size])
(downloaded st) (trace st) (ticks st)
else
let sanitizedName := replaceAll (RSet unsafeChar) (lit "_") name in
let ts := dateNow w (ticks st) in
let destFilename := showN ts ++ lit "-" ++ sanitizedName in
let destPath := path_join cfg inboxDir destFilename in
let relativePath := lit "inbox/" ++ destFilename in
let failed (attempt : list Effect) :=
mkLoop (descriptions st ++ [fallback isImage contentType name])
 (downloaded st)
 (trace st ++ attempt
    ++ [Log Warn (lit "Failed to download Discord attachment")])
 (S (ticks st)) in
match httpGet w (att_url att) with
| Some len =>
if writeOk w destPath then
mkLoop
(descriptions st
   ++ [(if isImage then lit "[Image: " else lit "[File: ")
         ++ name ++ lit " " ++ arrow ++ lit " " ++ relativePath
         ++ lit "]"])
(downloaded st
   ++ [mkAttachment name relativePath contentType len isImage])
(trace st
   ++ [HttpFetch (att_url att); WriteFileSync destPath len;
       Log Debug (lit "Discord attachment downloaded")])
(S (ticks st))
else failed [HttpFetch (att_url att); WriteFileSync destPath len]
| None => failed [HttpFetch (att_url att)]
end.

(** The [if (message.attachments.size > 0)] block: its effects and, when
it runs to its end, the new content and the [attachments] field.
[fs.mkdirSync] stands outside every [try]: when it throws, the block
ends there with [None] and no attachment has been looked at. *)
Definition handleAttachments (w : World) (group : RegisteredGroup)
(message : Message) (content : jsstring)
: list Effect * option (jsstring * option (list MessageAttachment)) :=
match msg_attachments message with
| [] => ([], Some (content, None))
| _ :: _ =>
let groupDir := resolveGroupFolderPath cfg (folder group) in
let inboxDir := path_join cfg groupDir (lit "inbox") in
if negb (writeOk w inboxDir) then ([MkdirSync inboxDir], None)
else
let st := foldl (attachmentStep w inboxDir) (mkLoop [] [] [] 0)
          (msg_attachments message) in
let content :=
match descriptions st with
| [] => content
| _ :: _ =>
if truthy content
then content ++ Router.newline
       ++ join Router.newline (descriptions st)
else join Router.newline (descriptions st)
end in
let attachments :=
match downloaded st with
| [] => None
| _ :: _ => Some (downloaded st)
end in
(MkdirSync inboxDir :: trace st, Some (content, attachments))
end.

(** One run of the [MessageCreate] handler: what it does, and whether its
promise is fulfilled ([true]) or rejected by a throw ([false]). *)
Definition messageCreate (self : DiscordChannel)
(registeredGroups : gmap jsstring RegisteredGroup)
(w : World) (message : Message) : list Effect * bool :=
if author_bot message then ([], true)
else
let chatJid := jidOf (channelId message) in
let timestamp := createdAt message in
let senderName := senderNameOf (member message) (author message) in
let chatName := chatNameOf message senderName in
let content := translateMention self message in
let '(replyEffects, content) := replyContext w message content in
let metadata := OnChatMetadata chatJid timestamp chatName in
match registeredGroups !! chatJid with
| None =>
(replyEffects
++ [metadata;
   Log Debug (lit "Message from unregistered Discord channel")],
true)
| Some group =>
match handleAttachments w group message content with
| (attEffects, Some (content, attachments)) =>
(replyEffects ++ [metadata] ++ attEffects
   ++ [OnMessage chatJid
         (mkMessage (msg_id message) chatJid
            (user_id (author message)) senderName content timestamp
            (Some false) None attachments);
       Log Info (lit "Discord message stored")],
 true)
| (attEffects, None) =>
(replyEffects ++ [metadata] ++ attEffects, false)
end
end.

(** The effects of the [MessageCreate] handler, in order. *)
Definition onMessageCreate (self : DiscordChannel)
(registeredGroups : gmap jsstring RegisteredGroup)
(w : World) (message : Message) : list Effect :=
fst (messageCreate self registeredGroups w message).

(** *** The [InteractionCreate] handler *)

Definition hexDigit (d : N) : N := (if d <? 10 then 48 + d else 87 + d)%N.

(** The escape [\uXXXX] of a code unit, four lowercase hex digits. *)
Definition unicodeEscape (c : N) : jsstring :=
[92; 117; hexDigit (c / 4096 mod 16); hexDigit (c / 256 mod 16);
hexDigit (c / 16 mod 16); hexDigit (c mod 16)]%N.

Definition isHighSurrogate (c : N) : bool := ((55296 <=? c) && (c <=? 56319))%N.
Definition isLowSurrogate (c : N) : bool := ((56320 <=? c) && (c <=? 57343))%N.

(** The body of [JSON.stringify] of a string (QuoteJSONString): short
escapes, [\uXXXX] for other control characters and lone surrogates. *)
Fixpoint quoteJSONBody (s : jsstring) : jsstring :=
match s with
| [] => []
| c :: s' =>
if (c =? 8)%N then lit "\b" ++ quoteJSONBody s'
else if (c =? 9)%N then lit "\t" ++ quoteJSONBody s'
else if (c =? 10)%N then lit "\n" ++ quoteJSONBody s'
else if (c =? 12)%N then lit "\f" ++ quoteJSONBody s'
else if (c =? 13)%N then lit "\r" ++ quoteJSONBody s'
else if (c =? 34)%N then [92; 34]%N ++ quoteJSONBody s'
else if (c =? 92)%N then [92; 92]%N ++ quoteJSONBody s'
else if (c <? 32)%N then unicodeEscape c ++ quoteJSONBody s'
else if isHighSurrogate c then
match s' with
| d :: s'' =>
if isLowSurrogate d then c :: d :: quoteJSONBody s''
else unicodeEscape c ++ quoteJSONBody s'
| [] => unicodeEscape c
end
else if isLowSurrogate c then unicodeEscape c ++ quoteJSONBody s'
else c :: quoteJSONBody s'
end.

(** [JSON.stringify(values)] for an array of strings. *)
Definition stringifyStrings (values : list jsstring) : jsstring :=
lit "[" ++ join (lit ",")
   (map (fun v => [dquote] ++ quoteJSONBody v ++ [dquote]) values)
++ lit "]".

(** [member && 'displayName' in member ? member.displayName
: user.displayName || user.username] *)
Definition userNameOf (interaction : Interaction) : jsstring :=
match int_member interaction with
| Some (Some d) => d
| _ => or_str (displayName (int_user interaction))
    (username (int_user interaction))
end.

Definition buttonContent (customId label userName messageId : jsstring)
: jsstring :=
triggerPhrase ++ lit " [Button: " ++ customId ++ lit " " ++ [dquote]
++ label ++ [dquote] ++ lit " by " ++ userName ++ lit " on message "
++ messageId ++ lit "]".

Definition selectContent (customId : jsstring) (values : list jsstring)
(userName messageId : jsstring) : jsstring :=
triggerPhrase ++ lit " [Select: " ++ customId ++ lit " values="
++ stringifyStrings values ++ lit " by " ++ userName
++ lit " on message " ++ messageId ++ lit "]".

Definition syntheticContent (interaction : Interaction) : jsstring :=
let userName := userNameOf interaction in
let messageId := int_message_id interaction in
match kind interaction with
| Button label =>
buttonContent (customId interaction)
(default (customId interaction) label) userName messageId
| _ =>
let values :=
match kind interaction with
| StringSelectMenu values => values
| _ => []
end in
selectContent (customId interaction) values userName messageId
end.

(** One run of the [InteractionCreate] handler: what it does, and whether
its promise is fulfilled ([true]) or rejected ([false]). The handler
awaits [deferUpdate()] outside every [try], before anything else: when
the acknowledgement rejects, the handler ends there. *)
Definition interactionCreate
(registeredGroups : gmap jsstring RegisteredGroup)
(w : World) (interaction : Interaction) : list Effect * bool :=
match kind interaction with
| OtherInteraction => ([], true)
| _ =>
match deferUpdateResult interaction with
| Thrown _ => ([DeferUpdate], false)
| Returned _ =>
let chatJid := jidOf (int_channelId interaction) in
let userName := userNameOf interaction in
let content := syntheticContent interaction in
match registeredGroups !! chatJid with
| None =>
([DeferUpdate;
  Log Debug
    (lit "Interaction from unregistered Discord channel, ignoring")],
 true)
| Some _ =>
([DeferUpdate;
  OnMessage chatJid
    (mkMessage (int_id interaction) chatJid
       (user_id (int_user interaction)) userName content
       (nowISO w) (Some false) None None);
  Log Info (lit "Discord interaction delivered")],
 true)
end
end
end.

(** The effects of the [InteractionCreate] handler, in order. *)
Definition onInteractionCreate
(registeredGroups : gmap jsstring RegisteredGroup)
(w : World) (interaction : Interaction) : list Effect :=
fst (interactionCreate registeredGroups w interaction).

End Handlers.

(** *** Send-side operations *)

Definition notInitialized : jsstring := lit "Discord client not initialized".
Definition notTextBased : jsstring :=
lit "Discord channel not found or not text-based".

(** Discord's limit of characters per message. *)
Definition MAX_LENGTH : nat := 2000.

(** [text.slice(a, b)] for [0 <= a <= b]. *)
Definition slice (text : jsstring) (a b : nat) : jsstring :=
take (b - a) (drop a text).

Definition andThen (e : Effect) (r : list Effect * bool) : list Effect * bool :=
(e :: fst r, snd r).

(** [for (let i = 0; i < text.length; i += MAX_LENGTH) await send(slice)],
from index [i] on, [k] sends having been made: the sends made and
whether the loop ran to its end (a rejected send leaves it). *)
Equations sendChunks (ch : PlatformChannel) (text : jsstring) (i k : nat)
: list Effect * bool by wf (length text - i) lt :=
sendChunks ch text i k with decide (i < length text) := {
| left _ with sendResult ch k := {
  | Returned _ =>
      andThen (Send (PText (slice text i (i + MAX_LENGTH))))
              (sendChunks ch text (i + MAX_LENGTH) (S k));
  | Thrown _ => ([Send (PText (slice text i (i + MAX_LENGTH)))], false) };
| right _ => ([], true) }.
Next Obligation. unfold MAX_LENGTH. lia. Qed.

(** The body of [sendMessage] once the text channel is at hand. *)
Definition sendText (ch : PlatformChannel) (text : jsstring)
: list Effect * bool :=
if decide (length text ≤ MAX_LENGTH) then
match sendResult ch 0 with
| Returned _ => ([Send (PText text)], true)
| Thrown _ => ([Send (PText text)], false)
end
else sendChunks ch text 0 0.

Definition sendMessage (self : DiscordChannel) (w : World)
     (jid text : jsstring) : list Effect * Outcome unit :=
match client self with
| None => ([Log Warn notInitialized], Returned tt)
| Some _ =>
let channelId := stripPrefix (lit "dc:") jid in
match channelsFetch w channelId with
| FetchRejects _ =>
    ([ChannelsFetch channelId;
      Log Error (lit "Failed to send Discord message")], Returned tt)
| FetchNull =>
    ([ChannelsFetch channelId; Log Warn notTextBased], Returned tt)
| FetchChannel ch =>
    if negb (hasSend ch) then
      ([ChannelsFetch channelId; Log Warn notTextBased], Returned tt)
    else
      let '(sends, ok) := sendText ch text in
      (ChannelsFetch channelId :: sends
         ++ [if ok then Log Info (lit "Discord message sent")
             else Log Error (lit "Failed to send Discord message")],
       Returned tt)
end
end.

Definition isConnected (self : DiscordChannel) : bool :=
match client self with
| None => false
| Some c => client_ready c
end.

Definition ownsJid (jid : jsstring) : bool := startsWith (lit "dc:") jid.

(** [connect], once [ClientReady] has fired for the user [readyUser]: the
channel holds a ready client. The handlers above are the ones it
registers. *)
Definition connect (self : DiscordChannel) (readyUser : jsstring)
: DiscordChannel * list Effect :=
(mkDiscord (Some (mkClient (Some readyUser) true)),
[Log Info (lit "Discord bot connected")]).

Definition disconnect (self : DiscordChannel) : DiscordChannel * list Effect :=
match client self with
| Some _ => (mkDiscord None, [Log Info (lit "Discord bot stopped")])
| None => (self, [])
end.

Definition sendFile (self : DiscordChannel) (w : World)
     (jid filePath : jsstring) (caption : option jsstring)
: list Effect * Outcome unit :=
match client self with
| None => ([Log Warn notInitialized], Returned tt)
| Some _ =>
let channelId := stripPrefix (lit "dc:") jid in
match channelsFetch w channelId with
| FetchRejects _ =>
    ([ChannelsFetch channelId;
      Log Error (lit "Failed to send Discord file")], Returned tt)
| FetchNull =>
    ([ChannelsFetch channelId; Log Warn notTextBased], Returned tt)
| FetchChannel ch =>
    if negb (hasSend ch) then
      ([ChannelsFetch channelId; Log Warn notTextBased], Returned tt)
    else
      let payload :=
        PFile (match caption with
               | Some c => if truthy c then Some c else None
               | None => None
               end) filePath in
      ([ChannelsFetch channelId; Send payload;
        match sendResult ch 0 with
        | Returned _ => Log Info (lit "Discord file sent")
        | Thrown _ => Log Error (lit "Failed to send Discord file")
        end], Returned tt)
end
end.

Definition setTyping (self : DiscordChannel) (w : World)
     (jid : jsstring) (isTyping : bool) : list Effect * Outcome unit :=
match client self with
| None => ([], Returned tt)
| Some _ =>
if negb isTyping then ([], Returned tt)
else
  let channelId := stripPrefix (lit "dc:") jid in
  let failed := Log Debug (lit "Failed to send Discord typing indicator") in
  match channelsFetch w channelId with
  | FetchRejects _ => ([ChannelsFetch channelId; failed], Returned tt)
  | FetchNull => ([ChannelsFetch channelId], Returned tt)
  | FetchChannel ch =>
      if hasSendTyping ch then
        match sendTypingResult ch with
        | Returned _ => ([ChannelsFetch channelId; SendTyping], Returned tt)
        | Thrown _ =>
            ([ChannelsFetch channelId; SendTyping; failed], Returned tt)
        end
      else ([ChannelsFetch channelId], Returned tt)
  end
end.

(** [STYLE_MAP[btn.style || 'primary'] || ButtonStyle.Primary] *)
Definition styleOf (style : option IpcStyle) : ButtonStyle :=
match default primary style with
| primary => Primary
| secondary => Secondary
| success => Success
| danger => Danger
end.

(** [if (x) builder.setX(x)] for a string [x]. *)
Definition whenTruthy (x : option jsstring) : option jsstring :=
match x with
| Some v => if truthy v then Some v else None
| None => None
end.

(** [if (x.disabled) builder.setDisabled(true)] *)
Definition whenDisabled (disabled : option bool) : option bool :=
match disabled with
| Some true => Some true
| _ => None
end.

(** What the builder of one component holds once its setters have
accepted their arguments. *)
Definition buildComponent (comp : IpcComponent) : ComponentBuilder :=
match comp with
| IpcButton custom_id label style disabled =>
ButtonBuilder custom_id label (styleOf style) (whenDisabled disabled)
| IpcStringSelect custom_id placeholder min_values max_values options
              disabled =>
StringSelectMenuBuilder custom_id (whenTruthy placeholder)
  min_values max_values (whenDisabled disabled)
  (map (fun opt =>
          mkOptB (opt_label opt) (opt_value opt)
                 (whenTruthy (opt_description opt)))
       options)
end.

(** [xs.map(f)] for an [f] that may throw: the elements are taken in
order and the first throw ends the loop. *)
Fixpoint mapOutcome {A B : Type} (f : A -> Outcome B) (xs : list A)
: Outcome (list B) :=
match xs with
| [] => Returned []
| x :: rest =>
match f x with
| Thrown reason => Thrown reason
| Returned y =>
    match mapOutcome f rest with
    | Thrown reason => Thrown reason
    | Returned ys => Returned (y :: ys)
    end
end
end.

(** [buildActionRow(row)]: the components are built in order; a setter
that refuses its argument throws, out of [buildActionRow] and out of
its caller. *)
Definition buildActionRow (w : World) (row : IpcActionRow)
: Outcome ActionRowBuilder :=
mapOutcome (fun comp =>
          match builderCheck w comp with
          | Thrown reason => Thrown reason
          | Returned _ => Returned (buildComponent comp)
          end)
       (components row).

Definition sendComponents (self : DiscordChannel) (w : World)
     (jid text : jsstring) (components : list IpcActionRow)
: list Effect * Outcome jsstring :=
match client self with
| None => ([], Thrown notInitialized)
| Some _ =>
let channelId := stripPrefix (lit "dc:") jid in
match channelsFetch w channelId with
| FetchRejects reason => ([ChannelsFetch channelId], Thrown reason)
| FetchNull =>
    ([ChannelsFetch channelId], Thrown (notTextBased ++ lit ": " ++ jid))
| FetchChannel ch =>
    if negb (hasSend ch) then
      ([ChannelsFetch channelId],
       Thrown (notTextBased ++ lit ": " ++ jid))
    else
      match mapOutcome (buildActionRow w) components with
      | Thrown reason => ([ChannelsFetch channelId], Thrown reason)
      | Returned rows =>
          match sendResult ch 0 with
          | Returned sentId =>
              ([ChannelsFetch channelId; Send (PComponents text rows);
                Log Info (lit "Discord components sent")],
               Returned sentId)
          | Thrown reason =>
              ([ChannelsFetch channelId; Send (PComponents text rows)],
               Thrown reason)
          end
      end
end
end.

Definition updateComponents (self : DiscordChannel) (w : World)
     (jid messageId : jsstring) (text : option jsstring)
     (components : option (list IpcActionRow))
: list Effect * Outcome unit :=
match client self with
| None => ([], Thrown notInitialized)
| Some _ =>
let channelId := stripPrefix (lit "dc:") jid in
match channelsFetch w channelId with
| FetchRejects reason => ([ChannelsFetch channelId], Thrown reason)
| FetchNull =>
    ([ChannelsFetch channelId], Thrown (notTextBased ++ lit ": " ++ jid))
| FetchChannel ch =>
    if negb (hasSend ch) then
      ([ChannelsFetch channelId],
       Thrown (notTextBased ++ lit ": " ++ jid))
    else
      match messagesFetchResult ch messageId with
      | Thrown reason =>
          ([ChannelsFetch channelId; MessagesFetch messageId],
           Thrown reason)
      | Returned _ =>
          let built :=
            match components with
            | None => Returned None
            | Some rows =>
                match mapOutcome (buildActionRow w) rows with
                | Thrown reason => Thrown reason
                | Returned rows => Returned (Some rows)
                end
            end in
          match built with
          | Thrown reason =>
              ([ChannelsFetch channelId; MessagesFetch messageId],
               Thrown reason)
          | Returned rows =>
              let editPayload := mkEdit text rows in
              match editResult ch with
              | Returned _ =>
                  ([ChannelsFetch channelId; MessagesFetch messageId;
                    MessageEdit editPayload;
                    Log Info (lit "Discord components updated")],
                   Returned tt)
              | Thrown reason =>
                  ([ChannelsFetch channelId; MessagesFetch messageId;
                    MessageEdit editPayload], Thrown reason)
              end
          end
      end
end
end.

(** Whether an operation reached the platform: a channel lookup, a send, a
typing indicator, a message lookup or an edit. *)
Definition isPlatformCall (e : Effect) : bool :=
match e with
| ChannelsFetch _ | Send _ | SendTyping | MessagesFetch _ | MessageEdit _ =>
true
| _ => false
end.

Definition isLog (e : Effect) : bool :=
match e with
| Log _ _ => true
| _ => false
end.

(** The canonical messages a handler run delivered. *)
Definition delivered (tr : list Effect) : list (jsstring * NewMessage) :=
omap (fun e => match e with OnMessage j m => Some (j, m) | _ => None end) tr.

(** The conversation metadata a handler run reported. *)
Definition reported (tr : list Effect) : list (jsstring * jsstring * jsstring) :=
omap (fun e => match e with
           | OnChatMetadata j t n => Some (j, t, n)
           | _ => None
           end) tr.

(** The platform-level acknowledgements a handler run made: its calls
of [deferUpdate]. *)
Definition acknowledged (tr : list Effect) : list unit :=
omap (fun e => match e with DeferUpdate => Some tt | _ => None end) tr.

(** The URLs a handler run fetched. *)
Definition fetched (tr : list Effect) : list jsstring :=
omap (fun e => match e with HttpFetch u => Some u | _ => None end) tr.

(** The texts an operation sent as plain messages. *)
Definition sentTexts (tr : list Effect) : list jsstring :=
omap (fun e => match e with Send (PText t) => Some t | _ => None end) tr.

(** The calls an operation made to the platform. *)
Definition platformCalls (tr : list Effect) : list Effect :=
filter (fun e => isPlatformCall e = true) tr.

(** Every payload an operation handed to a platform [send]. *)
Definition sends (tr : list Effect) : list Payload :=
omap (fun e => match e with Send p => Some p | _ => None end) tr.

(** The log entries of an operation. *)
Definition logged (tr : list Effect) : list (Level * jsstring) :=
omap (fun e => match e with Log l t => Some (l, t) | _ => None end) tr.

(** The files a handler run wrote and the directories it created. *)
Definition written (tr : list Effect) : list jsstring :=
omap (fun e => match e with WriteFileSync p _ => Some p | _ => None end) tr.

Definition madeDirs (tr : list Effect) : list jsstring :=
omap (fun e => match e with MkdirSync d => Some d | _ => None end) tr.

(** The edits an operation made to platform messages. *)
Definition edits (tr : list Effect) : list EditPayload :=
omap (fun e => match e with MessageEdit p => Some p | _ => None end) tr.

(** The adapter seen through the [Channel] interface. *)
Definition asChannel (self : DiscordChannel) (w : World)
: Channel (list Effect * Outcome unit) :=
mkChannel _ (lit "discord") (sendMessage self w) (isConnected self)
      ownsJid (Some (sendFile self w)).

End Discord.

(** * Properties *)

Import Router.

(** ** Vocabulary of the statements *)

(** The lazy star of [internalRe] followed by the close marker: the first
    close marker at or after the head of [s], and what follows it. *)
Fixpoint findClose (s : jsstring) : option jsstring :=
  if startsWith closeTag s then Some (drop (length closeTag) s)
  else match s with
       | [] => None
       | _ :: s' => findClose s'
       end.

(** A text made of leading spans, each a prefix [pre] kept and a [body]
    enclosed by the markers, and a [tail]. *)
Definition withSpans (spans : list (jsstring * jsstring)) (tail : jsstring)
  : jsstring :=
  foldr (fun sp acc => fst sp ++ openTag ++ snd sp ++ closeTag ++ acc) tail spans.

(** A span as the leftmost, shortest match finds it: no open marker before
    its own, no close marker inside its body. *)
Definition okSpan (sp : jsstring * jsstring) : Prop :=
  includes openTag (fst sp) = false ∧ includes closeTag (snd sp) = false.

(** No open marker of [t] is followed by a close marker. *)
Definition noSpan (t : jsstring) : Prop :=
  ∀ a b, t = a ++ openTag ++ b → includes closeTag b = false.

(** White space only. *)
Definition allWhiteSpace (s : jsstring) : Prop :=
  Forall (fun c => isWhiteSpace c = true) s.

(** The entity of one code unit. *)
Definition escapeChar (c : N) : jsstring :=
  if (c =? amp)%N then lit "&amp;"
  else if (c =? lt_)%N then lit "&lt;"
  else if (c =? gt_)%N then lit "&gt;"
  else if (c =? dquote)%N then lit "&quot;"
  else [c].

(** No raw [<], [>] or double quote, and every [&] starts one of the four
    entities. *)
Fixpoint wellEscaped (s : jsstring) : bool :=
  match s with
  | [] => true
  | c :: s' =>
      (if (c =? amp)%N then
         startsWith (lit "amp;") s' || startsWith (lit "lt;") s'
         || startsWith (lit "gt;") s' || startsWith (lit "quot;") s'
       else negb ((c =? lt_) || (c =? gt_) || (c =? dquote))%N)
      && wellEscaped s'
  end.

(** The number of places where [needle] occurs in [s]. *)
Fixpoint occurrences (needle s : jsstring) : nat :=
  match s with
  | [] => 0
  | _ :: s' => (if startsWith needle s then 1 else 0) + occurrences needle s'
  end.

(** The opening of a [<message>] element, up to the space after its name. *)
Definition messageOpen : jsstring := lit "<message ".

(** The channel send a dispatch handed over to, if any. *)
Definition attempted {P : Type} (o : Outcome P) : option P :=
  match o with
  | Returned p => Some p
  | Thrown _ => None
  end.

(** [c] is the first channel of [chs] that owns [jid] and is connected. *)
Definition firstLive {P : Type} (jid : jsstring) (chs : list (Channel P))
           (c : Channel P) : Prop :=
  ∃ pre post, chs = pre ++ c :: post
              ∧ Forall (fun x => live jid x = false) pre
              ∧ ownsJid c jid = true ∧ isConnected c = true.

(** No channel of [chs] both owns [jid] and is connected. *)
Definition noneLive {P : Type} (jid : jsstring) (chs : list (Channel P)) : Prop :=
  Forall (fun x => ownsJid x jid = false ∨ isConnected x = false) chs.

Definition noChannelFor (jid : jsstring) : jsstring :=
  lit "No channel for JID: " ++ jid.

Definition unsupported (channelName : jsstring) : jsstring :=
  lit "Channel " ++ channelName ++ lit " does not support file sending".

(** ** Concrete instances

    The configuration of the adapter's test suite, a world whose calls all
    succeed, and a few channels. *)

(** A code unit that stands for itself between the quotes of a JSON
  string: no control character, quote, backslash or surrogate. *)
Definition plainUnit (c : N) : bool :=
((32 <=? c) && negb (c =? 34) && negb (c =? 92)
 && negb ((55296 <=? c) && (c <=? 57343)))%N.

(** The value of a hexadecimal digit. *)
Definition hexValue (c : N) : option N :=
if ((48 <=? c) && (c <=? 57))%N then Some (c - 48)%N
else if ((97 <=? c) && (c <=? 102))%N then Some (c - 87)%N
else if ((65 <=? c) && (c <=? 70))%N then Some (c - 55)%N
else None.

(** The code unit a two-character JSON escape stands for. *)
Definition unescape (e : N) : option N :=
if (e =? 98)%N then Some 8%N
else if (e =? 116)%N then Some 9%N
else if (e =? 110)%N then Some 10%N
else if (e =? 102)%N then Some 12%N
else if (e =? 114)%N then Some 13%N
else if (e =? 34)%N then Some 34%N
else if (e =? 92)%N then Some 92%N
else if (e =? 47)%N then Some 47%N
else None.

(** The string a JSON reader takes from between the quotes of a JSON
  string, when what stands there is well formed: no bare quote or control
  character, and every backslash opening a two-character escape or a
  [\uXXXX]. *)
Fixpoint readJSONBody (s : jsstring) : option jsstring :=
match s with
| [] => Some []
| c :: s1 =>
  if (c =? 92)%N then
    match s1 with
    | [] => None
    | e :: s2 =>
      if (e =? 117)%N then
        match s2 with
        | h1 :: h2 :: h3 :: h4 :: s3 =>
            match hexValue h1, hexValue h2, hexValue h3, hexValue h4 with
            | Some a, Some b, Some c', Some d =>
                cons (4096 * a + 256 * b + 16 * c' + d)%N <$> readJSONBody s3
            | _, _, _, _ => None
            end
        | _ => None
        end
      else
        match unescape e with
        | Some x => cons x <$> readJSONBody s2
        | None => None
        end
    end
  else if ((c <? 32) || (c =? 34))%N then None
  else cons c <$> readJSONBody s1
end.

(** [encs] are JSON string bodies for [values], one each and in order:
  each reads back as its value, and is the value itself when the value
  is made of plain code units. *)
Definition encodes (values encs : list jsstring) : Prop :=
Forall2 (fun v e => readJSONBody e = Some v
                    ∧ (forallb plainUnit v = true → e = v))
        values encs.

(** A JSON array of strings with the given string bodies. *)
Definition jsonArray (encs : list jsstring) : jsstring :=
lit "[" ++ join (lit ",") ((fun e => [dquote] ++ e ++ [dquote]) <$> encs)
  ++ lit "]".

Module Fixture.
Import Discord.

Definition isWordChar (c : N) : bool :=
((97 <=? c) && (c <=? 122) || (65 <=? c) && (c <=? 90)
|| (48 <=? c) && (c <=? 57) || (c =? 95))%N.

Definition toLower (c : N) : N :=
if ((65 <=? c) && (c <=? 90))%N then (c + 32)%N else c.

(** [/^@Andy\b/i.test(s)] *)
Definition triggerTest (s : jsstring) : bool :=
startsWith (lit "@andy") (map toLower (take 5 s))
&& match drop 5 s with
| [] => true
| c :: _ => negb (isWordChar c)
end.

Definition cfg : Config :=
mkConfig (lit "Andy") triggerTest (25 * 1024 * 1024)%N
     (fun folder => lit "/groups/" ++ folder)
     (fun a b => a ++ lit "/" ++ b).

Definition textChannel : PlatformChannel :=
mkPlatform true true (fun _ => Returned (lit "sent_msg_001")) (Returned tt)
       (fun _ => Returned tt) (Returned tt).

Definition bob : User := mkUser (lit "77") (lit "bob") (lit "Bob").
Definition alice : User := mkUser (lit "55512345") (lit "alice") (lit "Alice").

Definition world : World :=
mkWorld (fun _ => Some (Some (lit "Bob"), bob))
    (fun url => if startsWith (lit "https://cdn/") url
                then Some 2048%N else None)
    (fun _ => true)
    (fun k => (1700000000000 + N.of_nat k)%N)
    (lit "2024-01-01T00:00:05.000Z")
    (fun _ => FetchChannel textChannel)
    (fun _ => Returned tt).


Definition unconnected : DiscordChannel := mkDiscord None.
Definition connected : DiscordChannel :=
mkDiscord (Some (mkClient (Some (lit "999888777")) true)).
Definition connecting : DiscordChannel :=
mkDiscord (Some (mkClient None false)).

Definition registered : jsstring := lit "dc:1234567890123456".

Definition groups : gmap jsstring RegisteredGroup :=
{[ registered := mkGroup (lit "Test Server #general") (lit "test-server")
                     (lit "@Andy") (lit "2024-01-01T00:00:00.000Z") ]}.

Definition hello (channelId : jsstring) (atts : list RawAttachment) : Message :=
mkMsg false channelId (lit "Hello everyone") (lit "2024-01-01T00:00:00.000Z")
  None alice (lit "msg_001") (Some (lit "Test Server")) (lit "general")
  [] atts None.


Definition photo : RawAttachment :=
mkRaw (Some (lit "photo.png")) (Some (lit "image/png")) (Some 2048%N)
  (lit "https://cdn/photo.png").

Definition approve (channelId : jsstring) : Interaction :=
mkInteraction (Button (Some (lit "Approve"))) channelId (lit "approve")
          (lit "interaction_001") alice (Some (Some (lit "Alice")))
          (lit "comp_msg_001") (Returned tt).

(** The same click, arriving after the platform's deadline. *)
Definition expired (channelId : jsstring) : Interaction :=
mkInteraction (Button (Some (lit "Approve"))) channelId (lit "approve")
          (lit "interaction_001") alice (Some (Some (lit "Alice")))
          (lit "comp_msg_001") (Thrown (lit "Unknown interaction")).

(** A choice of two values in a select menu. *)
Definition choose (channelId : jsstring) : Interaction :=
mkInteraction (StringSelectMenu [lit "high"; lit "urgent"]) channelId
          (lit "priority") (lit "interaction_002") alice None
          (lit "comp_msg_002") (Returned tt).

(** A channel for addresses ending in [@g.us], without [sendFile]. *)
Definition plain (up : bool) : Channel (list Effect * Outcome unit) :=
mkChannel _ (lit "plain")
      (fun _ text => ([Send (PText text)], Returned tt)) up
      (fun jid => startsWith (lit "su.g@") (reverse jid)) None.

(** A second owner of [dc:] addresses, without [sendFile]. *)
Definition textOnly (up : bool) : Channel (list Effect * Outcome unit) :=
mkChannel _ (lit "text-only")
      (fun _ text => ([Send (PText text)], Returned tt)) up
      Discord.ownsJid None.

End Fixture.

(** The attachments of a batch, in the order the two loops meet them. *)
Definition allAttachments (messages : list NewMessage) : list MessageAttachment :=
  messages ≫= (fun m => default [] (attachments m)).

(** What the inner loop of [collectAttachments] appends to [result] when it
    starts with the set [seen]. *)
Fixpoint keepFirst (seen : gset jsstring) (l : list MessageAttachment)
  : list MessageAttachment :=
  match l with
  | [] => []
  | a :: l' =>
      if decide (path a ∈ seen) then keepFirst seen l'
      else a :: keepFirst ({[path a]} ∪ seen) l'
  end.

(** A message that carries the given attachments. *)
Definition carrying (atts : list MessageAttachment) : NewMessage :=
  mkMessage (lit "m") (lit "dc:1") (lit "u") (lit "User") [] (lit "t")
            None None (Some atts).

(** The attachment's advertised size, as the loop reads it. *)
Definition advertised (a : Discord.RawAttachment) : N :=
  default 0%N (Discord.att_size a).

(** The attachment's advertised size exceeds the configured maximum. *)
Definition oversized (cfg : Discord.Config) (a : Discord.RawAttachment) : Prop :=
  (Discord.MAX_ATTACHMENT_DOWNLOAD_SIZE cfg < advertised a)%N.

(** The content of a message before its attachments are looked at. *)
Definition contentBeforeAttachments (cfg : Discord.Config)
           (self : Discord.DiscordChannel) (w : Discord.World)
           (message : Discord.Message) : jsstring :=
  snd (Discord.replyContext w message (Discord.translateMention cfg self message)).

#[global] Instance oversized_dec (cfg : Discord.Config) (a : Discord.RawAttachment)
  : Decision (oversized cfg a).
Proof. unfold oversized. apply _. Defined.

(** ** Vocabulary of the further properties *)

(** The inverse of the entity escaping: each of the four entities back to
    its code unit, everything else unchanged. *)
Fixpoint unescapeXml (s : jsstring) : jsstring :=
  match s with
  | [] => []
  | c :: s1 =>
      if negb (c =? amp)%N then c :: unescapeXml s1
      else
        match s1 with
        | c1 :: c2 :: c3 :: s4 =>
            if ((c1 =? 108) && (c2 =? 116) && (c3 =? 59))%N
            then lt_ :: unescapeXml s4
            else if ((c1 =? 103) && (c2 =? 116) && (c3 =? 59))%N
            then gt_ :: unescapeXml s4
            else
              match s4 with
              | c4 :: s5 =>
                  if ((c1 =? 97) && (c2 =? 109) && (c3 =? 112) && (c4 =? 59))%N
                  then amp :: unescapeXml s5
                  else
                    match s5 with
                    | c5 :: s6 =>
                        if ((c1 =? 113) && (c2 =? 117) && (c3 =? 111)
                            && (c4 =? 116) && (c5 =? 59))%N
                        then dquote :: unescapeXml s6
                        else c :: unescapeXml s1
                    | [] => c :: unescapeXml s1
                    end
              | [] => c :: unescapeXml s1
              end
        | _ => c :: unescapeXml s1
        end
  end.

(** One of the four code units that [escapeXml] replaces. *)
Definition xmlSpecial (c : N) : bool :=
  ((c =? amp) || (c =? lt_) || (c =? gt_) || (c =? dquote))%N.

(** The [j]-th chunk of a text sent in pieces. *)
Definition chunk (text : jsstring) (j : nat) : jsstring :=
  take 2000 (drop (j * 2000) text).

(** A platform channel that accepts the first [n] sends of an operation and
    rejects the others. *)
Definition acceptsFirst (n : nat) : Discord.PlatformChannel :=
  Discord.mkPlatform true true
    (fun k => if decide (k < n) then Returned (lit "sent_msg_001")
              else Thrown (lit "Missing Permissions"))
    (Returned tt) (fun _ => Returned tt) (Returned tt).

(** The fixture world with another platform channel behind every
    identifier. *)
Definition worldWith (ch : Discord.PlatformChannel) : Discord.World :=
  Discord.mkWorld (Discord.fetchReply Fixture.world) (Discord.httpGet Fixture.world)
                  (Discord.writeOk Fixture.world) (Discord.dateNow Fixture.world)
                  (Discord.nowISO Fixture.world)
                  (fun _ => Discord.FetchChannel ch)
                  (Discord.builderCheck Fixture.world).

(** The fixture world with builders that refuse an empty button label,
    as those of the platform library do. *)
Definition strictBuilders : Discord.World :=
  Discord.mkWorld (Discord.fetchReply Fixture.world) (Discord.httpGet Fixture.world)
                  (Discord.writeOk Fixture.world) (Discord.dateNow Fixture.world)
                  (Discord.nowISO Fixture.world)
                  (Discord.channelsFetch Fixture.world)
                  (fun comp =>
                     match comp with
                     | Discord.IpcButton _ label _ _ =>
                         if truthy label then Returned tt
                         else Thrown (lit "Invalid string length")
                     | _ => Returned tt
                     end).

(** The errors with which the builders refuse components, in order. *)
Definition refusals (w : Discord.World) (comps : list Discord.IpcComponent)
  : list jsstring :=
  omap (fun comp => match Discord.builderCheck w comp with
                    | Thrown reason => Some reason
                    | Returned _ => None
                    end) comps.

(** The error of the first component of the rows, read row by row, that
    the builders refuse; [None] when they accept every component. *)
Definition firstRefusal (w : Discord.World) (rows : list Discord.IpcActionRow)
  : option jsstring :=
  head (refusals w (rows ≫= Discord.components)).

(** The rows of builders for action rows whose components are all
    accepted: one row per action row and one builder per component, in
    order. *)
Definition builtRows (rows : list Discord.IpcActionRow)
  : list Discord.ActionRowBuilder :=
  (fun row => Discord.buildComponent <$> Discord.components row) <$> rows.

(** What an abstract component says: its identifier, its label when it is a
    button, whether it is disabled, and the labels and values of its
    options. *)
Definition ipcFacts (c : Discord.IpcComponent)
  : jsstring * option jsstring * bool * list (jsstring * jsstring) :=
  match c with
  | Discord.IpcButton custom_id label _ disabled =>
      (custom_id, Some label, bool_decide (disabled = Some true), [])
  | Discord.IpcStringSelect custom_id _ _ _ options disabled =>
      (custom_id, None, bool_decide (disabled = Some true),
       (fun o => (Discord.opt_label o, Discord.opt_value o)) <$> options)
  end.

(** The same facts read off a platform builder. *)
Definition builderFacts (b : Discord.ComponentBuilder)
  : jsstring * option jsstring * bool * list (jsstring * jsstring) :=
  match b with
  | Discord.ButtonBuilder customId label _ disabled =>
      (customId, Some label, bool_decide (disabled = Some true), [])
  | Discord.StringSelectMenuBuilder customId _ _ _ disabled options =>
      (customId, None, bool_decide (disabled = Some true),
       (fun o => (Discord.ob_label o, Discord.ob_value o)) <$> options)
  end.

(** The style a button builder was given. *)
Definition builderStyle (b : Discord.ComponentBuilder) : option Discord.ButtonStyle :=
  match b with
  | Discord.ButtonBuilder _ _ style _ => Some style
  | _ => None
  end.

(** The rows of builders of a components payload. *)
Definition payloadRows (p : Discord.Payload) : list Discord.ActionRowBuilder :=
  match p with
  | Discord.PComponents _ rows => rows
  | _ => []
  end.

(** A decimal digit. *)
Definition isDigit (c : N) : bool := ((48 <=? c) && (c <=? 57))%N.

(** The mention token of a bot, in its plain and in its nickname form. *)
Definition mentionToken (nick : bool) (botId : jsstring) : jsstring :=
  lit "<@" ++ (if nick then lit "!" else []) ++ botId ++ lit ">".

(** The inbox directory of a group, as the handler computes it. *)
Definition inboxOf (cfg : Discord.Config) (g : RegisteredGroup) : jsstring :=
  Discord.path_join cfg (Discord.resolveGroupFolderPath cfg (folder g))
                    (lit "inbox").

(** The handler gets past [fs.mkdirSync]: the message has no attachment,
    so that the call is not made, or the file system creates the inbox
    directory of the group. *)
Definition inboxReady (cfg : Discord.Config) (w : Discord.World)
           (g : RegisteredGroup) (message : Discord.Message) : Prop :=
  Discord.msg_attachments message = []
  ∨ Discord.writeOk w (inboxOf cfg g) = true.

#[global] Instance inboxReady_dec cfg w g message :
  Decision (inboxReady cfg w g message).
Proof. unfold inboxReady. apply _. Defined.

(** The state in which the attachment loop of a handler run ends. *)
Definition loopOf (cfg : Discord.Config) (w : Discord.World)
           (g : RegisteredGroup) (message : Discord.Message) : Discord.Loop :=
  foldl (Discord.attachmentStep cfg w (inboxOf cfg g))
        (Discord.mkLoop [] [] [] 0) (Discord.msg_attachments message).

(** The content of a message with the description lines appended. *)
Definition contentWith (before : jsstring) (descs : list jsstring) : jsstring :=
  match descs with
  | [] => before
  | _ :: _ =>
      if truthy before then before ++ newline ++ join newline descs
      else join newline descs
  end.

(** The line that refers to a persisted attachment. *)
Definition referenceLine (a : MessageAttachment) : jsstring :=
  (if isImage a then lit "[Image: " else lit "[File: ")
    ++ filename a ++ lit " " ++ Discord.arrow ++ lit " " ++ path a ++ lit "]".


(** The name, media type and image flag the loop gives an attachment. *)
Definition nameOf (a : Discord.RawAttachment) : jsstring :=
  or_opt (Discord.att_name a) (lit "file").
Definition typeOf (a : Discord.RawAttachment) : jsstring :=
  or_opt (Discord.att_contentType a) (lit "application/octet-stream").


(** The coarse media kind of a placeholder. *)
Definition mediaKind (contentType : jsstring) : jsstring :=
  if startsWith (lit "image/") contentType then lit "Image"
  else if startsWith (lit "video/") contentType then lit "Video"
  else if startsWith (lit "audio/") contentType then lit "Audio"
  else lit "File".

(** The record of the [k]-th download of a run, for the raw attachment [a]
    whose fetch and write succeed. *)
Definition persisted (w : Discord.World) (k : nat) (a : Discord.RawAttachment)
  : MessageAttachment :=
  mkAttachment (nameOf a)
    (lit "inbox/" ++ showN (Discord.dateNow w k) ++ lit "-"
       ++ replaceAll (RSet Discord.unsafeChar) (lit "_") (nameOf a))
    (typeOf a) (default 0%N (Discord.httpGet w (Discord.att_url a)))
    (startsWith (lit "image/") (typeOf a)).

(** ** String and regular-expression lemmas *)

Lemma startsWith_prefix (p s : jsstring) :
  startsWith p s = true ↔ p `prefix_of` s.
Proof.
  revert s. induction p as [|a p IH]; intros s; simpl.
  - split; [intros _; apply prefix_nil | done].
  - destruct s as [|b s].
    + split; [done | intros [k Hk]; discriminate].
    + destruct (decide (a = b)) as [->|Hne].
      * rewrite IH. split; [apply prefix_cons | apply prefix_cons_inv_2].
      * split; [done | intros H; apply prefix_cons_inv_1 in H; done].
Qed.

Lemma startsWith_app (p rest : jsstring) : startsWith p (p ++ rest) = true.
Proof. apply startsWith_prefix. by exists rest. Qed.

Lemma startsWith_false_prefix (p s : jsstring) :
  startsWith p s = false ↔ ¬ p `prefix_of` s.
Proof.
  rewrite <- startsWith_prefix. destruct (startsWith p s); naive_solver.
Qed.

Lemma includes_cons (p : jsstring) (c : N) (s : jsstring) :
  includes p (c :: s) = startsWith p (c :: s) || includes p s.
Proof. reflexivity. Qed.

Lemma includes_app_mid (p x y : jsstring) : includes p (x ++ p ++ y) = true.
Proof.
  induction x as [|d x IH].
  - rewrite app_nil_l. destruct (p ++ y) as [|c l] eqn:E.
    + destruct p; [done | discriminate].
    + by rewrite includes_cons, <- E, startsWith_app.
  - change ((d :: x) ++ p ++ y) with (d :: (x ++ p ++ y)).
    rewrite includes_cons, IH. apply orb_true_r.
Qed.

(** A tag whose first unit does not occur again in it cannot start inside
    [b] and run over into a following copy of itself. *)
Lemma startsWith_no_overlap (h : N) (t b rest : jsstring) :
  h ∉ t → b ≠ [] →
  startsWith (h :: t) (b ++ (h :: t) ++ rest) = true →
  startsWith (h :: t) b = true.
Proof.
  intros Hh Hb H. apply startsWith_prefix in H. apply startsWith_prefix.
  destruct (decide (length b < length (h :: t))) as [Hlt|Hge].
  - exfalso. destruct H as [k Hk].
    assert (Hl : (b ++ (h :: t) ++ rest) !! length b = Some h).
    { rewrite lookup_app_r by lia. by rewrite Nat.sub_diag. }
    rewrite Hk in Hl. rewrite lookup_app_l in Hl by done.
    destruct b as [|c b]; [done|]. simpl in Hl.
    apply Hh. eapply list_elem_of_lookup_2. exact Hl.
  - destruct H as [k Hk].
    assert (Ht : take (length (h :: t)) (b ++ (h :: t) ++ rest) = h :: t).
    { rewrite Hk. by rewrite take_app_length. }
    rewrite take_app_le in Ht by lia.
    exists (drop (length (h :: t)) b). by rewrite <- Ht at 1; rewrite take_drop.
Qed.

Lemma replaceAll_unfold (r : regex) (rep s : jsstring) :
  replaceAll r rep s =
  match matchAt r s with
  | Some rest =>
      if decide (length rest < length s) then rep ++ replaceAll r rep rest
      else match s with
           | [] => rep
           | c :: s' => rep ++ c :: replaceAll r rep s'
           end
  | None =>
      match s with
      | [] => []
      | c :: s' => c :: replaceAll r rep s'
      end
  end.
Proof.
  destruct s as [|c s'].
  - simp replaceAll. by destruct (matchAt r []).
  - simp replaceAll. destruct (matchAt r (c :: s')) as [rest|]; simpl; [|done].
    by destruct (decide (length rest < S (length s'))).
Qed.

(** ** The outbound sanitizer *)


Lemma matchAt_internalRe (s : jsstring) :
  matchAt internalRe s =
  if startsWith openTag s then findClose (drop (length openTag) s) else None.
Proof.
  unfold matchAt, internalRe. cbn [rmatch].
  destruct (startsWith openTag s); [|done].
  generalize (drop (length openTag) s). intros t.
  induction t as [|c t IH]; [done|].
  cbn [findClose]. destruct (startsWith closeTag (c :: t)); [done|].
  unfold anyChar. exact IH.
Qed.

Lemma findClose_Some (s rest : jsstring) :
  findClose s = Some rest →
  ∃ body, s = body ++ closeTag ++ rest ∧ includes closeTag body = false.
Proof.
  induction s as [|c s IH]; [done|].
  cbn [findClose]. destruct (startsWith closeTag (c :: s)) eqn:Hs.
  - intros Heq. apply startsWith_prefix in Hs as [k Hk].
    exists []. split; [|done]. rewrite Hk in Heq |- *.
    rewrite drop_app_length in Heq. simpl. congruence.
  - intros H. destruct (IH H) as (body & -> & Hb).
    exists (c :: body). split; [done|].
    rewrite includes_cons, Hb, orb_false_r.
    apply startsWith_false_prefix. intros Hp.
    apply startsWith_false_prefix in Hs. apply Hs.
    etrans; [exact Hp|]. by exists (closeTag ++ rest).
Qed.

Lemma findClose_None (s : jsstring) :
  findClose s = None → includes closeTag s = false.
Proof.
  induction s as [|c s IH]; [done|].
  cbn [findClose]. rewrite includes_cons.
  destruct (startsWith closeTag (c :: s)); [done|]. simpl. exact IH.
Qed.

Lemma findClose_includes (s : jsstring) :
  includes closeTag s = false → findClose s = None.
Proof.
  induction s as [|c s IH]; [done|].
  rewrite includes_cons. cbn [findClose].
  destruct (startsWith closeTag (c :: s)); [done|]. simpl. exact IH.
Qed.

Lemma findClose_here (s : jsstring) :
  startsWith closeTag s = true →
  findClose s = Some (drop (length closeTag) s).
Proof. intros H. destruct s; cbn [findClose]; by rewrite H. Qed.

Lemma findClose_shortest (body rest : jsstring) :
  includes closeTag body = false →
  findClose (body ++ closeTag ++ rest) = Some rest.
Proof.
  induction body as [|c body IH]; intros Hb.
  - rewrite app_nil_l, findClose_here by apply startsWith_app.
    by rewrite drop_app_length.
  - rewrite includes_cons in Hb. apply orb_false_elim in Hb as [Hs Hi].
    change ((c :: body) ++ closeTag ++ rest)
      with (c :: (body ++ closeTag ++ rest)).
    cbn [findClose].
    destruct (startsWith closeTag (c :: body ++ closeTag ++ rest)) eqn:Hs2.
    + exfalso.
      change (c :: body ++ closeTag ++ rest)
        with ((c :: body) ++ closeTag ++ rest) in Hs2.
      apply (startsWith_no_overlap 60%N (lit "/internal>")) in Hs2;
        [|apply (bool_decide_unpack _); by vm_compute|done].
      change (60%N :: lit "/internal>") with closeTag in Hs2. congruence.
    + by apply IH.
Qed.




Lemma matchAt_internalRe_span (body rest : jsstring) :
  includes closeTag body = false →
  matchAt internalRe (openTag ++ body ++ closeTag ++ rest) = Some rest.
Proof.
  intros Hb. rewrite matchAt_internalRe, startsWith_app, drop_app_length.
  by apply findClose_shortest.
Qed.

Lemma matchAt_internalRe_before (c : N) (pre rest : jsstring) :
  includes openTag (c :: pre) = false →
  matchAt internalRe ((c :: pre) ++ openTag ++ rest) = None.
Proof.
  rewrite includes_cons. intros [Hs _]%orb_false_elim.
  rewrite matchAt_internalRe.
  destruct (startsWith openTag ((c :: pre) ++ openTag ++ rest)) eqn:Hs2; [|done].
  apply (startsWith_no_overlap 60%N (lit "internal>")) in Hs2;
    [|apply (bool_decide_unpack _); by vm_compute|done].
  change (60%N :: lit "internal>") with openTag in Hs2. congruence.
Qed.

Lemma remove_span (pre body rest : jsstring) :
  okSpan (pre, body) →
  replaceAll internalRe [] (pre ++ openTag ++ body ++ closeTag ++ rest)
  = pre ++ replaceAll internalRe [] rest.
Proof.
  intros [Hpre Hbody]. simpl in Hpre, Hbody.
  induction pre as [|c pre IH].
  - rewrite app_nil_l, replaceAll_unfold, matchAt_internalRe_span by done.
    rewrite decide_True; [done|].
    rewrite !length_app. vm_compute (length openTag). lia.
  - rewrite replaceAll_unfold, matchAt_internalRe_before by done.
    simpl. f_equal. apply IH.
    rewrite includes_cons in Hpre. by apply orb_false_elim in Hpre as [_ ?].
Qed.

Lemma noSpan_tail (c : N) (t : jsstring) : noSpan (c :: t) → noSpan t.
Proof. intros H a b ->. by apply (H (c :: a) b). Qed.

Lemma noSpan_matchAt (t : jsstring) : noSpan t → matchAt internalRe t = None.
Proof.
  intros H. rewrite matchAt_internalRe.
  destruct (startsWith openTag t) eqn:Hs; [|done].
  apply startsWith_prefix in Hs as [b ->]. rewrite drop_app_length.
  apply findClose_includes, (H [] b). done.
Qed.

Lemma remove_noSpan (t : jsstring) :
  noSpan t → replaceAll internalRe [] t = t.
Proof.
  induction t as [|c t IH]; intros H.
  - rewrite replaceAll_unfold, noSpan_matchAt; done.
  - rewrite replaceAll_unfold, noSpan_matchAt by done.
    f_equal. apply IH. by eapply noSpan_tail.
Qed.

Lemma remove_withSpans (spans : list (jsstring * jsstring)) (tail : jsstring) :
  Forall okSpan spans → noSpan tail →
  replaceAll internalRe [] (withSpans spans tail)
  = concat (fst <$> spans) ++ tail.
Proof.
  intros Hs Ht. induction Hs as [|[pre body] spans Hok _ IH].
  - by apply remove_noSpan.
  - change (withSpans ((pre, body) :: spans) tail)
      with (pre ++ openTag ++ body ++ closeTag ++ withSpans spans tail).
    rewrite remove_span by done. rewrite IH, fmap_cons. simpl concat.
    by rewrite app_assoc.
Qed.

Lemma noSpan_cons (c : N) (t : jsstring) :
  matchAt internalRe (c :: t) = None → noSpan t → noSpan (c :: t).
Proof.
  intros Hm Ht a b Hab. destruct a as [|c' a].
  - rewrite app_nil_l in Hab.
    rewrite matchAt_internalRe, Hab, startsWith_app in Hm.
    rewrite drop_app_length in Hm. by apply findClose_None.
  - injection Hab as -> ->. by apply (Ht a b).
Qed.

(** Every text is a sequence of leftmost, shortest spans and a span-free
    tail. *)
Lemma spans_exist (t : jsstring) :
  ∃ spans tail, t = withSpans spans tail ∧ Forall okSpan spans ∧ noSpan tail.
Proof.
  remember (length t) as n eqn:Hn. revert t Hn.
  induction n as [n IH] using lt_wf_ind. intros t ->.
  destruct t as [|c t].
  { exists [], []. repeat split; [constructor|].
    intros a b Hab. symmetry in Hab. apply app_eq_nil in Hab as [_ Hab].
    by apply app_eq_nil in Hab as [Hab _]. }
  destruct (matchAt internalRe (c :: t)) as [rest|] eqn:Hm.
  - rewrite matchAt_internalRe in Hm.
    destruct (startsWith openTag (c :: t)) eqn:Hs; [|done].
    apply startsWith_prefix in Hs as [k Hk]. rewrite Hk, drop_app_length in Hm.
    apply findClose_Some in Hm as (body & -> & Hb).
    destruct (IH (length rest)) with (t := rest) as (spans & tail & -> & Hok & Ht);
      [|done|].
    { rewrite Hk, !length_app. vm_compute (length openTag). lia. }
    exists (([], body) :: spans), tail.
    split; [by rewrite Hk|]. split; [|done].
    constructor; [|done]. by split.
  - destruct (IH (length t)) with (t := t) as (spans & tail & -> & Hok & Ht);
      [simpl; lia|done|].
    destruct spans as [|[pre body] spans].
    + exists [], (c :: tail). simpl in *. repeat split; [constructor|].
      by apply noSpan_cons.
    + exists ((c :: pre, body) :: spans), tail. split; [done|]. split; [|done].
      apply Forall_cons in Hok as [[Hp Hb] Hok]. simpl in Hp, Hb.
      constructor; [|done]. split; [|done]. simpl fst.
      rewrite includes_cons, Hp, orb_false_r.
      destruct (startsWith openTag (c :: pre)) eqn:Hs; [|done]. exfalso.
      apply startsWith_prefix in Hs as [k Hk].
      change (withSpans ((pre, body) :: spans) tail)
        with (pre ++ openTag ++ body ++ closeTag ++ withSpans spans tail) in Hm.
      rewrite matchAt_internalRe, app_comm_cons in Hm.
      rewrite Hk, <- app_assoc, startsWith_app, drop_app_length in Hm.
      apply findClose_None in Hm.
      rewrite (app_assoc k), (app_assoc (k ++ openTag)), includes_app_mid in Hm.
      done.
Qed.

Lemma noSpan_no_open (t : jsstring) : includes openTag t = false → noSpan t.
Proof.
  intros H a b ->. by rewrite includes_app_mid in H.
Qed.


Lemma trimStart_spec (s : jsstring) :
  ∃ l, s = l ++ trimStart s ∧ allWhiteSpace l
       ∧ ∀ c, head (trimStart s) = Some c → isWhiteSpace c = false.
Proof.
  induction s as [|c s (l & Hl & Hws & Hh)].
  - exists []. repeat split; [constructor | done].
  - simpl. destruct (isWhiteSpace c) eqn:Hc.
    + exists (c :: l). repeat split; [by rewrite Hl at 1 | by constructor | done].
    + exists []. repeat split; [constructor|]. by intros ? [= <-].
Qed.

(** [trim] takes white space, and only white space, off both ends. *)
Lemma trim_spec (s : jsstring) :
  ∃ l r, s = l ++ trim s ++ r ∧ allWhiteSpace l ∧ allWhiteSpace r
         ∧ (∀ c, head (trim s) = Some c → isWhiteSpace c = false)
         ∧ (∀ c, last (trim s) = Some c → isWhiteSpace c = false).
Proof.
  destruct (trimStart_spec s) as (l & Hl & Hwl & Hhl).
  destruct (trimStart_spec (reverse (trimStart s))) as (r & Hr & Hwr & Hhr).
  assert (Hu : trimStart s = trim s ++ reverse r).
  { unfold trim, trimEnd. rewrite <- reverse_app, <- Hr.
    by rewrite reverse_involutive. }
  exists l, (reverse r). repeat split.
  - by rewrite <- Hu.
  - done.
  - by apply Forall_reverse.
  - intros c Hc. apply Hhl. rewrite Hu.
    destruct (trim s); [done|]. exact Hc.
  - intros c Hc. apply Hhr. unfold trim, trimEnd in Hc.
    by rewrite last_reverse in Hc.
Qed.

(** C1. The outbound sanitizer removes every span delimited by the internal
    open and close markers, content included, taking at each occurrence the
    leftmost open marker and the first close marker after it, and then trims
    white space from both ends: (1) on a text written as a sequence of such
    spans followed by a span-free tail, the result is the trimmed
    concatenation of what lies between the spans; (2) every text can be
    written that way; (3) the result differs from the text with its spans
    removed by white space at the two ends only, and neither starts nor ends
    with white space; (4) the text made of the span around "secret" followed
    by "visible" yields "visible"; (5) a text that is one span yields the
    empty string. *)
Theorem C1_stripInternalTags_removes_spans :
  (∀ spans tail,
     Forall okSpan spans → noSpan tail →
     stripInternalTags (withSpans spans tail)
     = trim (concat (fst <$> spans) ++ tail))
  ∧ (∀ t, ∃ spans tail,
       t = withSpans spans tail ∧ Forall okSpan spans ∧ noSpan tail)
  ∧ (∀ t, ∃ l r,
       replaceAll internalRe [] t = l ++ stripInternalTags t ++ r
       ∧ allWhiteSpace l ∧ allWhiteSpace r
       ∧ (∀ c, head (stripInternalTags t) = Some c → isWhiteSpace c = false)
       ∧ (∀ c, last (stripInternalTags t) = Some c → isWhiteSpace c = false))
  ∧ stripInternalTags (lit "<internal>secret</internal>visible") = lit "visible"
  ∧ (∀ body,
       includes closeTag body = false →
       stripInternalTags (openTag ++ body ++ closeTag) = []).
Proof.
  split; [|split; [|split; [|split]]].
  - intros spans tail Hs Ht. unfold stripInternalTags.
    by rewrite remove_withSpans.
  - apply spans_exist.
  - intros t. apply trim_spec.
  - by vm_compute.
  - intros body Hb. unfold stripInternalTags.
    rewrite <- (app_nil_r closeTag), <- (app_nil_l (openTag ++ _)).
    rewrite (remove_span [] body []) by done.
    by rewrite replaceAll_unfold.
Qed.

Lemma C1_stripInternalTags_witness :
  stripInternalTags
    (withSpans [(lit "one ", lit "hidden"); (lit "two ", lit "")] (lit "three "))
  = lit "one two three"
  ∧ stripInternalTags (openTag ++ lit "only" ++ closeTag) = [].
Proof.
  destruct C1_stripInternalTags_removes_spans as (Hspans & _ & _ & _ & Hone).
  split.
  - rewrite Hspans.
    + by vm_compute.
    + repeat constructor.
    + apply noSpan_no_open. reflexivity.
  - apply Hone. reflexivity.
Defined.

(** ** The context formatter *)

Lemma replaceAll_char (c : N) (rep s : jsstring) :
  replaceAll (RSet (isChar c)) rep s
  = s ≫= (fun x => if (x =? c)%N then rep else [x]).
Proof.
  induction s as [|x s IH]; rewrite replaceAll_unfold.
  - reflexivity.
  - unfold matchAt. cbn [rmatch]. unfold isChar at 1. rewrite bind_cons.
    destruct (x =? c)%N.
    + rewrite decide_True by (simpl; lia). by rewrite IH.
    + by rewrite IH.
Qed.

Lemma escapeXml_charwise (s : jsstring) : escapeXml s = s ≫= escapeChar.
Proof.
  unfold escapeXml. destruct s as [|x0 s0]; [done|].
  simpl negb. cbv iota. generalize (x0 :: s0). clear. intros s.
  rewrite !replaceAll_char.
  induction s as [|x s IH]; [done|].
  rewrite !bind_cons, !bind_app, IH. f_equal. clear.
  unfold escapeChar, amp, lt_, gt_, dquote.
  destruct (x =? 38)%N eqn:E1; [done|].
  rewrite !bind_singleton.
  destruct (x =? 60)%N eqn:E2; [done|].
  rewrite !bind_singleton.
  destruct (x =? 62)%N eqn:E3; [done|].
  rewrite !bind_singleton.
  by destruct (x =? 34)%N eqn:E4.
Qed.

Lemma wellEscaped_escapeChar (x : N) (t : jsstring) :
  wellEscaped (escapeChar x ++ t) = wellEscaped t.
Proof.
  unfold escapeChar, amp, lt_, gt_, dquote.
  destruct (x =? 38)%N eqn:E1; [done|].
  destruct (x =? 60)%N eqn:E2; [done|].
  destruct (x =? 62)%N eqn:E3; [done|].
  destruct (x =? 34)%N eqn:E4; [done|].
  cbn [app wellEscaped]. unfold amp, lt_, gt_, dquote.
  by rewrite E1, E2, E3, E4.
Qed.

Lemma wellEscaped_escapeXml (s : jsstring) : wellEscaped (escapeXml s) = true.
Proof.
  rewrite escapeXml_charwise. induction s as [|x s IH]; [done|].
  by rewrite bind_cons, wellEscaped_escapeChar.
Qed.

Lemma wellEscaped_no_raw (s : jsstring) (c : N) :
  wellEscaped s = true → c ∈ s → c ≠ lt_ ∧ c ≠ gt_ ∧ c ≠ dquote.
Proof.
  induction s as [|x s IH]; intros Hw Hc; [by apply elem_of_nil in Hc|].
  cbn [wellEscaped] in Hw. apply andb_true_iff in Hw as [Hx Hs].
  apply elem_of_cons in Hc as [->|Hc]; [|by apply IH].
  unfold amp, lt_, gt_, dquote in *.
  destruct (x =? 38)%N eqn:E1; [apply N.eqb_eq in E1; subst; done|].
  apply negb_true_iff in Hx.
  apply orb_false_elim in Hx as [Hx E4]. apply orb_false_elim in Hx as [E2 E3].
  apply N.eqb_neq in E2, E3, E4. done.
Qed.

Lemma escapeXml_no_lt (s : jsstring) : lt_ ∉ escapeXml s.
Proof.
  intros H. by eapply wellEscaped_no_raw in H as [? _];
    [|apply wellEscaped_escapeXml].
Qed.

Lemma occurrences_skip (p s : jsstring) :
  lt_ ∉ p → occurrences messageOpen (p ++ s) = occurrences messageOpen s.
Proof.
  induction p as [|c p IH]; intros Hp; [done|].
  apply not_elem_of_cons in Hp as [Hc Hp].
  change ((c :: p) ++ s) with (c :: (p ++ s)). cbn [occurrences].
  rewrite IH by done.
  replace (startsWith messageOpen (c :: p ++ s)) with false; [done|].
  symmetry. apply startsWith_false_prefix. intros [k Hk].
  injection Hk as Hk _. by subst c.
Qed.

Lemma occurrences_messageLine (m : NewMessage) (s : jsstring) :
  lt_ ∉ timestamp m →
  occurrences messageOpen (messageLine m ++ s)
  = S (occurrences messageOpen s).
Proof.
  intros Hts. unfold messageLine. rewrite <- !app_assoc.
  change (lit "<message sender=") with (lt_ :: lit "message sender=").
  rewrite <- app_comm_cons. cbn [occurrences].
  replace (startsWith messageOpen _) with true by done.
  rewrite occurrences_skip by (apply (bool_decide_unpack _); by vm_compute).
  rewrite occurrences_skip by (apply (bool_decide_unpack _); by vm_compute).
  rewrite occurrences_skip by apply escapeXml_no_lt.
  rewrite occurrences_skip by (apply (bool_decide_unpack _); by vm_compute).
  rewrite occurrences_skip by (apply (bool_decide_unpack _); by vm_compute).
  rewrite occurrences_skip by (apply (bool_decide_unpack _); by vm_compute).
  rewrite occurrences_skip by done.
  rewrite occurrences_skip by (apply (bool_decide_unpack _); by vm_compute).
  rewrite occurrences_skip by (apply (bool_decide_unpack _); by vm_compute).
  rewrite occurrences_skip by apply escapeXml_no_lt.
  change (lit "</message>") with (lt_ :: lit "/message>").
  rewrite <- app_comm_cons. cbn [occurrences].
  replace (startsWith messageOpen _) with false by done.
  rewrite occurrences_skip by (apply (bool_decide_unpack _); by vm_compute).
  done.
Qed.

Lemma occurrences_lines (ms : list NewMessage) (s : jsstring) :
  Forall (fun m => lt_ ∉ timestamp m) ms →
  occurrences messageOpen (join newline (map messageLine ms) ++ s)
  = length ms + occurrences messageOpen s.
Proof.
  induction 1 as [|m ms Hm Hms IH]; [done|].
  destruct ms as [|m2 ms].
  - cbn [map join]. by rewrite occurrences_messageLine.
  - change (join newline (map messageLine (m :: m2 :: ms)))
      with (messageLine m ++ newline ++ join newline (map messageLine (m2 :: ms))).
    rewrite <- !app_assoc, occurrences_messageLine by done.
    rewrite occurrences_skip by (apply (bool_decide_unpack _); by vm_compute).
    rewrite IH. done.
Qed.

(** C2. The context formatter emits the [<messages>] envelope with exactly
    one [<message>] element per input message, in the order given: (1) the
    output is the envelope around one line per message, the line at each
    index built from the message at that index, its sender name and body
    replaced unit by unit by their entities; (2) an escaped sender name or
    body contains no raw [<], [>] or double quote, and each [&] in it starts
    one of the four entities; (3) when no timestamp contains [<], the output
    has as many element openings as there are messages. *)
Theorem C2_formatMessages_envelope :
  (∀ ms, ∃ lines,
     formatMessages ms
     = lit "<messages>" ++ newline ++ join newline lines ++ newline
         ++ lit "</messages>"
     ∧ length lines = length ms
     ∧ ∀ i m, ms !! i = Some m →
         lines !! i
         = Some (lit "<message sender=" ++ [dquote]
                   ++ (sender_name m ≫= escapeChar) ++ [dquote]
                   ++ lit " time=" ++ [dquote] ++ timestamp m ++ [dquote]
                   ++ lit ">" ++ (content m ≫= escapeChar)
                   ++ lit "</message>"))
  ∧ (∀ s, wellEscaped (escapeXml s) = true
          ∧ ∀ c, c ∈ escapeXml s → c ≠ lt_ ∧ c ≠ gt_ ∧ c ≠ dquote)
  ∧ (∀ ms, Forall (fun m => lt_ ∉ timestamp m) ms →
           occurrences messageOpen (formatMessages ms) = length ms).
Proof.
  split; [|split].
  - intros ms. exists (map messageLine ms). split; [done|].
    split; [apply length_map|].
    intros i m Hm. rewrite list_lookup_fmap, Hm. simpl. f_equal.
    unfold messageLine. by rewrite !escapeXml_charwise.
  - intros s. split; [apply wellEscaped_escapeXml|].
    intros c. apply wellEscaped_no_raw, wellEscaped_escapeXml.
  - intros ms Hms. unfold formatMessages. cbv zeta.
    change (lit "<messages>") with (lt_ :: lit "messages>").
    rewrite <- app_comm_cons. cbn [occurrences].
    replace (startsWith messageOpen _) with false by done.
    rewrite occurrences_skip by (apply (bool_decide_unpack _); by vm_compute).
    rewrite occurrences_skip by (apply (bool_decide_unpack _); by vm_compute).
    rewrite occurrences_lines by done.
    replace (occurrences messageOpen (newline ++ lit "</messages>")) with 0
      by by vm_compute.
    lia.
Qed.

Lemma C2_formatMessages_witness :
  occurrences messageOpen
    (formatMessages
       [mkMessage (lit "1") (lit "dc:7") (lit "u1") (lit "A<b>&Co")
          (lit "1 < 2 && 3 > 2") (lit "2024-01-01T00:00:00.000Z") None None None;
        mkMessage (lit "2") (lit "dc:7") (lit "u2") (lit "Bob")
          (lit "<message sender=x>") (lit "2024-01-01T00:00:01.000Z")
          None None None])
  = 2.
Proof.
  destruct C2_formatMessages_envelope as (_ & _ & Hcount).
  apply (Hcount [_; _]).
  repeat constructor; apply (bool_decide_unpack _); by vm_compute.
Defined.

(** ** The dispatcher *)

Section DispatchProps.
Context {P : Type}.
Implicit Types (chs : list (Channel P)) (c : Channel P) (jid : jsstring).

Lemma find_firstLive jid chs c :
firstLive jid chs c → find (live jid) chs = Some c.
Proof.
intros (pre & post & -> & Hpre & Ho & Hc).
induction Hpre as [|x pre Hx _ IH]; simpl.
- unfold live. by rewrite Ho, Hc.
- by rewrite Hx.
Qed.

Lemma find_noneLive jid chs : noneLive jid chs → find (live jid) chs = None.
Proof.
induction 1 as [|x chs Hx _ IH]; [done|]. simpl.
replace (live jid x) with false; [done|].
unfold live. destruct Hx as [-> | ->]; [done | by rewrite andb_false_r].
Qed.

Lemma find_live_cases jid chs :
(∃ c, firstLive jid chs c) ∨ noneLive jid chs.
Proof.
induction chs as [|x chs IH]; [right; constructor|].
destruct (live jid x) eqn:Hx.
- left. exists x, [], chs. unfold live in Hx.
apply andb_true_iff in Hx as [? ?]. by repeat split.
- destruct IH as [(c & pre & post & -> & Hpre & Ho & Hc) | Hn].
+ left. exists c, (x :: pre), post. repeat split; [|done..].
by constructor.
+ right. constructor; [|done]. unfold live in Hx.
by apply andb_false_iff in Hx.
Qed.

Lemma firstLive_not_noneLive jid chs c :
firstLive jid chs c → noneLive jid chs → False.
Proof.
intros (pre & post & -> & _ & Ho & Hc) Hn.
apply Forall_app in Hn as [_ Hn]. apply Forall_cons in Hn as [[?|?] _];
congruence.
Qed.

(** C4. [routeOutbound] selects the first channel of the collection that
both owns the address and is connected, and forwards the send to it;
when no channel satisfies both, one owning but disconnected channel
included, it fails with the no-channel-for-address error and hands
the send to no channel. *)
Theorem C4_routeOutbound_first_live chs jid (text : jsstring) :
(∀ c, firstLive jid chs c →
  routeOutbound chs jid text = Returned (sendMessage c jid text))
∧ (noneLive jid chs →
routeOutbound chs jid text = Thrown (noChannelFor jid)
∧ attempted (routeOutbound chs jid text) = None)
∧ (∀ pre c post,
 chs = pre ++ c :: post →
 ownsJid c jid = true → isConnected c = false →
 Forall (fun x => ownsJid x jid = false) (pre ++ post) →
 routeOutbound chs jid text = Thrown (noChannelFor jid))
∧ (∀ p, attempted (routeOutbound chs jid text) = Some p →
    ∃ c, firstLive jid chs c ∧ p = sendMessage c jid text).
Proof.
unfold routeOutbound. split; [|split; [|split]].
- intros c Hc. by rewrite (find_firstLive _ _ _ Hc).
- intros Hn. by rewrite (find_noneLive _ _ Hn).
- intros pre c post -> Ho Hc Hrest. rewrite find_noneLive; [done|].
apply Forall_app in Hrest as [Hpre Hpost].
apply Forall_app. split; [|constructor].
+ eapply Forall_impl; [exact Hpre|]. by left.
+ by right.
+ eapply Forall_impl; [exact Hpost|]. by left.
- intros p. destruct (find_live_cases jid chs) as [[c Hc] | Hn].
+ rewrite (find_firstLive _ _ _ Hc). intros [= <-]. by exists c.
+ by rewrite (find_noneLive _ _ Hn).
Qed.

(** C5. [routeFile] makes the same selection as [routeOutbound]; when the
selected channel has no [sendFile] it fails with the
capability-unsupported error and hands nothing to any channel, so it
never falls back to [sendMessage]. *)
Theorem C5_routeFile_capability chs jid (filePath : jsstring)
  (caption : option jsstring) :
(∀ c, firstLive jid chs c →
  (∀ text, routeOutbound chs jid text
           = Returned (sendMessage c jid text))
  ∧ (∀ send, sendFile c = Some send →
             routeFile chs jid filePath caption
             = Returned (send jid filePath caption))
  ∧ (sendFile c = None →
     routeFile chs jid filePath caption = Thrown (unsupported (name c))
     ∧ attempted (routeFile chs jid filePath caption) = None))
∧ (noneLive jid chs →
routeFile chs jid filePath caption = Thrown (noChannelFor jid)
∧ ∀ text, routeOutbound chs jid text = Thrown (noChannelFor jid)).
Proof.
unfold routeFile, routeOutbound. split.
- intros c Hc. rewrite (find_firstLive _ _ _ Hc). split; [done|]. split.
+ by intros send ->.
+ by intros ->.
- intros Hn. by rewrite (find_noneLive _ _ Hn).
Qed.

End DispatchProps.

Lemma C4_routeOutbound_witness :
  routeOutbound
    [Fixture.plain true; Discord.asChannel Fixture.unconnected Fixture.world;
     Discord.asChannel Fixture.connected Fixture.world]
    Fixture.registered (lit "hello")
  = Returned (Discord.sendMessage Fixture.connected Fixture.world
                Fixture.registered (lit "hello"))
  ∧ routeOutbound
      [Fixture.plain true; Discord.asChannel Fixture.unconnected Fixture.world]
      Fixture.registered (lit "hello")
    = Thrown (noChannelFor Fixture.registered).
Proof.
  split.
  - destruct (C4_routeOutbound_first_live
                [Fixture.plain true;
                 Discord.asChannel Fixture.unconnected Fixture.world;
                 Discord.asChannel Fixture.connected Fixture.world]
                Fixture.registered (lit "hello")) as (Hfirst & _).
    apply (Hfirst (Discord.asChannel Fixture.connected Fixture.world)).
    exists [Fixture.plain true;
            Discord.asChannel Fixture.unconnected Fixture.world], [].
    repeat split. repeat constructor.
  - destruct (C4_routeOutbound_first_live
                [Fixture.plain true;
                 Discord.asChannel Fixture.unconnected Fixture.world]
                Fixture.registered (lit "hello")) as (_ & _ & Hone & _).
    apply (Hone [Fixture.plain true]
                (Discord.asChannel Fixture.unconnected Fixture.world) []);
      [reflexivity..|].
    repeat constructor.
Defined.

Lemma C5_routeFile_witness :
  routeFile
    [Fixture.plain true; Fixture.textOnly true;
     Discord.asChannel Fixture.connected Fixture.world]
    Fixture.registered (lit "/tmp/diagram.png") None
  = Thrown (unsupported (lit "text-only"))
  ∧ routeFile
      [Fixture.plain true; Discord.asChannel Fixture.connected Fixture.world]
      Fixture.registered (lit "/tmp/diagram.png") None
    = Returned (Discord.sendFile Fixture.connected Fixture.world
                  Fixture.registered (lit "/tmp/diagram.png") None)
  ∧ routeFile [Fixture.plain true; Fixture.textOnly false]
      Fixture.registered (lit "/tmp/diagram.png") None
    = Thrown (noChannelFor Fixture.registered).
Proof.
  split; [|split].
  - destruct (C5_routeFile_capability
                [Fixture.plain true; Fixture.textOnly true;
                 Discord.asChannel Fixture.connected Fixture.world]
                Fixture.registered (lit "/tmp/diagram.png") None)
      as (Hfirst & _).
    destruct (Hfirst (Fixture.textOnly true)) as (_ & _ & Hnone).
    + exists [Fixture.plain true],
             [Discord.asChannel Fixture.connected Fixture.world].
      repeat split. repeat constructor.
    + apply Hnone. reflexivity.
  - destruct (C5_routeFile_capability
                [Fixture.plain true;
                 Discord.asChannel Fixture.connected Fixture.world]
                Fixture.registered (lit "/tmp/diagram.png") None)
      as (Hfirst & _).
    destruct (Hfirst (Discord.asChannel Fixture.connected Fixture.world))
      as (_ & Hsome & _).
    + exists [Fixture.plain true], []. repeat split. repeat constructor.
    + apply Hsome. reflexivity.
  - destruct (C5_routeFile_capability
                [Fixture.plain true; Fixture.textOnly false]
                Fixture.registered (lit "/tmp/diagram.png") None)
      as (_ & Hnone).
    destruct Hnone as [Hthrown _]; [|exact Hthrown].
    constructor; [left; reflexivity|].
    constructor; [right; reflexivity | constructor].
Defined.

(** ** The attachment collector *)

Lemma foldl_collectAtt (l : list MessageAttachment) (seen : gset jsstring)
      (res : list MessageAttachment) :
  foldl collectAtt (seen, res) l
  = (list_to_set (path <$> l) ∪ seen, res ++ keepFirst seen l).
Proof.
  revert seen res. induction l as [|a l IH]; intros seen res.
  - simpl. f_equal; [set_solver | by rewrite app_nil_r].
  - cbn [foldl keepFirst]. unfold collectAtt at 2.
    destruct (decide (path a ∈ seen)) as [Hin|Hout].
    + rewrite IH. f_equal. set_solver.
    + rewrite IH. f_equal; [set_solver | by rewrite <- app_assoc].
Qed.

Lemma keepFirst_app (l1 l2 : list MessageAttachment) (seen : gset jsstring) :
  keepFirst seen (l1 ++ l2)
  = keepFirst seen l1 ++ keepFirst (list_to_set (path <$> l1) ∪ seen) l2.
Proof.
  revert seen. induction l1 as [|a l1 IH]; intros seen.
  - simpl. f_equal. set_solver.
  - cbn [app keepFirst]. destruct (decide (path a ∈ seen)) as [Hin|Hout].
    + rewrite IH. do 2 f_equal. set_solver.
    + rewrite IH. simpl. do 3 f_equal. set_solver.
Qed.

Lemma foldl_collectMsg (msgs : list NewMessage) (seen : gset jsstring)
      (res : list MessageAttachment) :
  foldl collectMsg (seen, res) msgs
  = (list_to_set (path <$> allAttachments msgs) ∪ seen,
     res ++ keepFirst seen (allAttachments msgs)).
Proof.
  revert seen res. induction msgs as [|m msgs IH]; intros seen res.
  - simpl. f_equal; [set_solver | by rewrite app_nil_r].
  - cbn [foldl]. unfold collectMsg at 2, allAttachments.
    rewrite bind_cons. fold (allAttachments msgs).
    destruct (attachments m) as [atts|]; simpl default.
    + rewrite foldl_collectAtt, IH, keepFirst_app, fmap_app, list_to_set_app_L.
      f_equal; [set_solver | by rewrite app_assoc].
    + by rewrite IH.
Qed.

Lemma collectAttachments_keepFirst (msgs : list NewMessage) :
  collectAttachments msgs = keepFirst ∅ (allAttachments msgs).
Proof. unfold collectAttachments. by rewrite foldl_collectMsg. Qed.

Lemma keepFirst_fresh (l : list MessageAttachment) (seen : gset jsstring) a :
  a ∈ keepFirst seen l → path a ∉ seen.
Proof.
  revert seen. induction l as [|b l IH]; intros seen; [by intros ?%elem_of_nil|].
  cbn [keepFirst]. destruct (decide (path b ∈ seen)) as [Hin|Hout].
  - apply IH.
  - intros [->|Ha]%elem_of_cons; [done|]. apply IH in Ha. set_solver.
Qed.

Lemma keepFirst_NoDup (l : list MessageAttachment) (seen : gset jsstring) :
  NoDup (path <$> keepFirst seen l).
Proof.
  revert seen. induction l as [|b l IH]; intros seen; [constructor|].
  cbn [keepFirst]. destruct (decide (path b ∈ seen)); [apply IH|].
  rewrite fmap_cons. constructor; [|apply IH].
  intros (a & Hp & Ha)%list_elem_of_fmap. apply keepFirst_fresh in Ha.
  set_solver.
Qed.

Lemma keepFirst_sublist (l : list MessageAttachment) (seen : gset jsstring) :
  keepFirst seen l `sublist_of` l.
Proof.
  revert seen. induction l as [|b l IH]; intros seen; [done|].
  cbn [keepFirst]. destruct (decide (path b ∈ seen)).
  - by apply sublist_cons.
  - by apply sublist_skip.
Qed.

Lemma keepFirst_covers (l : list MessageAttachment) (seen : gset jsstring) a :
  a ∈ l → path a ∈ seen ∨ path a ∈ path <$> keepFirst seen l.
Proof.
  revert seen. induction l as [|b l IH]; intros seen; [by intros ?%elem_of_nil|].
  cbn [keepFirst]. intros [->|Ha]%elem_of_cons.
  - destruct (decide (path b ∈ seen)); [by left|].
    right. rewrite fmap_cons. apply elem_of_cons. by left.
  - destruct (decide (path b ∈ seen)); [by apply IH|].
    destruct (IH ({[path b]} ∪ seen) Ha) as [Hs|Hk].
    + apply elem_of_union in Hs as [Hs|Hs]; [|by left].
      right. rewrite fmap_cons. apply elem_of_cons. left. set_solver.
    + right. rewrite fmap_cons. apply elem_of_cons. by right.
Qed.

Lemma keepFirst_first (l : list MessageAttachment) (seen : gset jsstring) a :
  a ∈ keepFirst seen l →
  ∃ pre post, l = pre ++ a :: post ∧ path a ∉ path <$> pre.
Proof.
  revert seen. induction l as [|b l IH]; intros seen; [by intros ?%elem_of_nil|].
  cbn [keepFirst]. destruct (decide (path b ∈ seen)) as [Hin|Hout].
  - intros Ha. pose proof (keepFirst_fresh _ _ _ Ha) as Hf.
    destruct (IH _ Ha) as (pre & post & -> & Hp).
    exists (b :: pre), post. split; [done|].
    rewrite fmap_cons. apply not_elem_of_cons. split; [|done].
    intros E. by rewrite E in Hf.
  - intros [->|Ha]%elem_of_cons.
    + exists [], l. split; [done|]. apply not_elem_of_nil.
    + pose proof (keepFirst_fresh _ _ _ Ha) as Hf.
      destruct (IH _ Ha) as (pre & post & -> & Hp).
      exists (b :: pre), post. split; [done|].
      rewrite fmap_cons. apply not_elem_of_cons. split; [|done].
      set_solver.
Qed.

Lemma keepFirst_distinct (l : list MessageAttachment) (seen : gset jsstring) :
  NoDup (path <$> l) → (∀ a, a ∈ l → path a ∉ seen) → keepFirst seen l = l.
Proof.
  revert seen. induction l as [|b l IH]; intros seen Hnd Hs; [done|].
  rewrite fmap_cons in Hnd. apply NoDup_cons in Hnd as [Hb Hnd].
  cbn [keepFirst]. rewrite decide_False by (apply Hs; by left).
  f_equal. apply IH; [done|]. intros a Ha.
  apply not_elem_of_union. split; [|apply Hs; by right].
  apply not_elem_of_singleton. intros E. apply Hb. rewrite <- E.
  by apply list_elem_of_fmap_2.
Qed.

(** C6. The attachment collector returns the attachments of the batch with
    duplicate paths removed, keeping the first occurrence of each path in
    first-seen order: (1) the result's paths are pairwise distinct; (2) the
    result is the batch's attachment sequence with elements left out, order
    kept; (3) every path of the batch is in the result; (4) each element of
    the result stands in the batch before any other attachment of its path;
    (5) when the batch's paths are already pairwise distinct the result is
    the batch's attachments unchanged; (6) collecting the result again
    returns it unchanged; (7) attachments with paths A, B, A, C spread over
    two messages yield the ones with A, B, C. *)
Theorem C6_collectAttachments_first_occurrence (msgs : list NewMessage) :
  NoDup (path <$> collectAttachments msgs)
  ∧ collectAttachments msgs `sublist_of` allAttachments msgs
  ∧ (∀ a, a ∈ allAttachments msgs → path a ∈ path <$> collectAttachments msgs)
  ∧ (∀ a, a ∈ collectAttachments msgs →
          ∃ pre post, allAttachments msgs = pre ++ a :: post
                      ∧ path a ∉ path <$> pre)
  ∧ (NoDup (path <$> allAttachments msgs) →
     collectAttachments msgs = allAttachments msgs)
  ∧ collectAttachments [carrying (collectAttachments msgs)]
    = collectAttachments msgs
  ∧ (∀ a b a' c,
       path a' = path a → path a ≠ path b → path a ≠ path c →
       path b ≠ path c →
       collectAttachments [carrying [a; b]; carrying [a'; c]] = [a; b; c]).
Proof.
  rewrite !collectAttachments_keepFirst.
  split; [apply keepFirst_NoDup|]. split; [apply keepFirst_sublist|].
  split.
  { intros a Ha. destruct (keepFirst_covers _ ∅ _ Ha) as [H|H]; [|done].
    by apply not_elem_of_empty in H. }
  split; [apply keepFirst_first|]. split.
  { intros Hnd. apply keepFirst_distinct; [done|].
    intros a _. apply not_elem_of_empty. }
  split.
  { unfold allAttachments at 1. rewrite bind_singleton. simpl default.
    apply keepFirst_distinct; [apply keepFirst_NoDup|].
    intros a _. apply not_elem_of_empty. }
  intros a b a' c Haa Hab Hac Hbc. rewrite collectAttachments_keepFirst.
  unfold allAttachments. rewrite bind_cons, bind_singleton. simpl.
  rewrite decide_False by apply not_elem_of_empty.
  rewrite decide_False by set_solver.
  rewrite decide_True by set_solver.
  rewrite decide_False by set_solver.
  done.
Qed.

Lemma C6_collectAttachments_witness :
  collectAttachments
    [carrying [mkAttachment (lit "a.png") (lit "inbox/1-a.png")
                            (lit "image/png") 10 true];
     mkMessage (lit "m2") (lit "dc:1") (lit "u") (lit "User") [] (lit "t")
               None None None;
     carrying [mkAttachment (lit "b.txt") (lit "inbox/2-b.txt")
                            (lit "text/plain") 20 false]]
  = [mkAttachment (lit "a.png") (lit "inbox/1-a.png") (lit "image/png") 10 true;
     mkAttachment (lit "b.txt") (lit "inbox/2-b.txt") (lit "text/plain") 20
                  false]
  ∧ collectAttachments
      [carrying [mkAttachment (lit "a.png") (lit "A") (lit "image/png") 1 true;
                 mkAttachment (lit "b.png") (lit "B") (lit "image/png") 2 true];
       carrying [mkAttachment (lit "a2.png") (lit "A") (lit "image/png") 3 true;
                 mkAttachment (lit "c.png") (lit "C") (lit "image/png") 4 true]]
    = [mkAttachment (lit "a.png") (lit "A") (lit "image/png") 1 true;
       mkAttachment (lit "b.png") (lit "B") (lit "image/png") 2 true;
       mkAttachment (lit "c.png") (lit "C") (lit "image/png") 4 true].
Proof.
  split.
  - refine (let H := C6_collectAttachments_first_occurrence _ in _).
    destruct H as (_ & _ & _ & _ & Hsame & _). rewrite Hsame; [reflexivity|].
    apply (bool_decide_unpack _). by vm_compute.
  - refine (let H := C6_collectAttachments_first_occurrence [] in _).
    destruct H as (_ & _ & _ & _ & _ & _ & Hex).
    apply Hex; [reflexivity | by vm_compute..].
Defined.

(** ** The Discord channel: inbound messages *)

Section InboundProps.
Import Discord.
Context (cfg : Config).

Lemma delivered_app (t1 t2 : list Effect) :
delivered (t1 ++ t2) = delivered t1 ++ delivered t2.
Proof. apply omap_app. Qed.

Lemma reported_app (t1 t2 : list Effect) :
reported (t1 ++ t2) = reported t1 ++ reported t2.
Proof. apply omap_app. Qed.

Lemma fetched_app (t1 t2 : list Effect) :
fetched (t1 ++ t2) = fetched t1 ++ fetched t2.
Proof. apply omap_app. Qed.

Lemma attachmentStep_cases (w : World) (dir : jsstring) (st : Loop)
(a : RawAttachment) :
let st' := attachmentStep cfg w dir st a in
(oversized cfg a
∧ descriptions st'
= descriptions st
   ++ [tooLarge cfg (or_opt (att_name a) (lit "file")) (advertised a)]
∧ trace st' = trace st ∧ downloaded st' = downloaded st)
∨ (¬ oversized cfg a ∧
∃ d extra,
 descriptions st' = descriptions st ++ [d]
 ∧ trace st' = trace st ++ extra
 ∧ fetched extra = [att_url a] ∧ delivered extra = []
 ∧ reported extra = []
 ∧ (downloaded st' = downloaded st
    ∨ ∃ x, downloaded st' = downloaded st ++ [x])).
Proof.
unfold attachmentStep, oversized, advertised. cbv zeta.
destruct (N.ltb_spec (MAX_ATTACHMENT_DOWNLOAD_SIZE cfg)
                 (default 0%N (att_size a))) as [Hlt|Hge].
- left. by repeat split.
- right. split; [lia|].
destruct (httpGet w (att_url a)) as [len|].
+ destruct (writeOk w _).
* eexists _, _. repeat split; [by right; eexists].
* eexists _, _. repeat split. by left.
+ eexists _, _. repeat split. by left.
Qed.

(** The attachment loop: one description per attachment, the placeholder
for each oversized one at its own position; a fetch for exactly the
others, in order; nothing delivered or reported. *)
Lemma attachmentLoop_spec (w : World) (dir : jsstring)
(atts : list RawAttachment) (st : Loop) :
let st' := foldl (attachmentStep cfg w dir) st atts in
∃ descs extra,
descriptions st' = descriptions st ++ descs
∧ length descs = length atts
∧ (∀ i a, atts !! i = Some a → oversized cfg a →
        descs !! i = Some (tooLarge cfg (or_opt (att_name a) (lit "file"))
                                    (advertised a)))
∧ trace st' = trace st ++ extra
∧ fetched extra = att_url <$> filter (fun a => ¬ oversized cfg a) atts
∧ delivered extra = [] ∧ reported extra = []
∧ length (downloaded st')
≤ length (downloaded st)
  + length (filter (fun a => ¬ oversized cfg a) atts).
Proof.
revert st. induction atts as [|a atts IH]; intros st; cbn [foldl].
- exists [], []. rewrite !app_nil_r. repeat split; [|simpl; lia].
intros i a Hi. by rewrite lookup_nil in Hi.
- destruct (IH (attachmentStep cfg w dir st a))
as (descs & extra & Hd & Hl & Hbig & Ht & Hf & Hdel & Hrep & Hdown).
destruct (attachmentStep_cases w dir st a)
as [(Hbig1 & Hd1 & Ht1 & Hdown1) | [Hsmall Hst]].
+ rewrite Hd1 in Hd. rewrite Ht1 in Ht. rewrite Hdown1 in Hdown.
rewrite <- app_assoc in Hd.
eexists (_ :: descs), extra.
rewrite filter_cons_False by (intros H; by apply H).
repeat split; [exact Hd | simpl; lia | | done..].
intros [|i] a' Hi Ha'; [by injection Hi as <- | by apply Hbig].
+ destruct Hst as (d & extra1 & Hd1 & Ht1 & Hf1 & Hdel1 & Hrep1 & Hdown1).
rewrite Hd1 in Hd. rewrite Ht1 in Ht. rewrite <- app_assoc in Hd, Ht.
eexists (d :: descs), (extra1 ++ extra).
rewrite filter_cons_True by done.
repeat split; [exact Hd | simpl; lia | | exact Ht | | | |].
* intros [|i] a' Hi Ha'; [by injection Hi as <- | by apply Hbig].
* by rewrite fetched_app, Hf1, Hf.
* by rewrite delivered_app, Hdel1, Hdel.
* by rewrite reported_app, Hrep1, Hrep.
* destruct Hdown1 as [E | [x E]]; rewrite E in Hdown; simpl;
    [|rewrite length_app in Hdown; simpl in Hdown]; lia.
Qed.


Lemma handleAttachments_spec (w : World) (g : RegisteredGroup)
(message : Message) (content : jsstring) :
inboxReady cfg w g message →
∃ eff content' atts' descs,
handleAttachments cfg w g message content = (eff, Some (content', atts'))
∧ delivered eff = [] ∧ reported eff = []
∧ fetched eff
= att_url <$> filter (fun a => ¬ oversized cfg a) (msg_attachments message)
∧ length descs = length (msg_attachments message)
∧ (∀ i a, msg_attachments message !! i = Some a → oversized cfg a →
        descs !! i = Some (tooLarge cfg (or_opt (att_name a) (lit "file"))
                                    (advertised a)))
∧ content' = match descs with
           | [] => content
           | _ :: _ =>
               if truthy content
               then content ++ newline ++ join newline descs
               else join newline descs
           end
∧ length (default [] atts')
≤ length (filter (fun a => ¬ oversized cfg a) (msg_attachments message)).
Proof.
intros Hready. unfold handleAttachments.
destruct (msg_attachments message) as [|a0 atts0] eqn:E.
{ exists [], content, None, []. repeat split; [|simpl; lia].
intros i a Hi. by rewrite lookup_nil in Hi. }
destruct Hready as [Hnil | Hw]; [congruence|].
unfold inboxOf in Hw. rewrite Hw. cbn [negb].
rewrite <- E. cbv zeta.
destruct (attachmentLoop_spec w
        (path_join cfg (resolveGroupFolderPath cfg (folder g)) (lit "inbox"))
        (msg_attachments message) (mkLoop [] [] [] 0))
as (descs & extra & Hd & Hl & Hbig & Ht & Hf & Hdel & Hrep & Hdown).
cbn [descriptions trace downloaded app length] in Hd, Ht, Hdown.
rewrite Hd, Ht.
eexists _, _, _, descs. split; [reflexivity|].
repeat split; [done..|].
destruct (downloaded _); simpl in *; lia.
Qed.

(** When [fs.mkdirSync] throws, the block ends with that call. *)
Lemma handleAttachments_aborts (w : World) (g : RegisteredGroup)
(message : Message) (content : jsstring) :
¬ inboxReady cfg w g message →
handleAttachments cfg w g message content = ([MkdirSync (inboxOf cfg g)], None).
Proof.
intros Hnot. unfold handleAttachments.
destruct (msg_attachments message) as [|a0 atts0] eqn:E.
{ exfalso. apply Hnot. by left. }
fold (inboxOf cfg g).
destruct (writeOk w (inboxOf cfg g)) eqn:Hw; [|done].
exfalso. apply Hnot. by right.
Qed.

Lemma replyContext_quiet (w : World) (message : Message) (content : jsstring) :
delivered (fst (replyContext w message content)) = []
∧ reported (fst (replyContext w message content)) = []
∧ fetched (fst (replyContext w message content)) = [].
Proof.
unfold replyContext. destruct (reference message) as [mid|]; [|done].
destruct (truthy mid); [|done].
by destruct (fetchReply w mid) as [[? ?]|].
Qed.

(** What [onMessageCreate] reports, delivers and fetches. *)
Lemma onMessageCreate_spec (self : DiscordChannel)
(groups : gmap jsstring RegisteredGroup) (w : World) (message : Message) :
author_bot message = false →
let tr := onMessageCreate cfg self groups w message in
let jid := jidOf (channelId message) in
let senderName := senderNameOf (member message) (author message) in
reported tr = [(jid, createdAt message, chatNameOf message senderName)]
∧ match groups !! jid with
| None => delivered tr = [] ∧ fetched tr = []
| Some g =>
  (¬ inboxReady cfg w g message → delivered tr = [] ∧ fetched tr = [])
  ∧ (inboxReady cfg w g message →
  ∃ content' atts' descs,
    delivered tr
    = [(jid, mkMessage (msg_id message) jid (user_id (author message))
                       senderName content' (createdAt message)
                       (Some false) None atts')]
    ∧ fetched tr
      = att_url <$> filter (fun a => ¬ oversized cfg a)
                           (msg_attachments message)
    ∧ length descs = length (msg_attachments message)
    ∧ (∀ i a, msg_attachments message !! i = Some a → oversized cfg a →
              descs !! i
              = Some (tooLarge cfg (or_opt (att_name a) (lit "file"))
                               (advertised a)))
    ∧ content'
      = match descs with
        | [] => contentBeforeAttachments cfg self w message
        | _ :: _ =>
            if truthy (contentBeforeAttachments cfg self w message)
            then contentBeforeAttachments cfg self w message
                   ++ newline ++ join newline descs
            else join newline descs
        end
    ∧ length (default [] atts')
      ≤ length (filter (fun a => ¬ oversized cfg a)
                       (msg_attachments message)))
end.
Proof.
intros Hbot. unfold onMessageCreate, messageCreate, contentBeforeAttachments.
rewrite Hbot. cbv zeta.
pose proof (replyContext_quiet w message (translateMention cfg self message))
as (Hrd & Hrr & Hrf).
destruct (replyContext w message (translateMention cfg self message))
as [replyEffects content] eqn:Er.
cbn [fst snd] in *.
destruct (groups !! jidOf (channelId message)) as [g|].
- destruct (decide (inboxReady cfg w g message)) as [Hready | Hnot].
+ destruct (handleAttachments_spec w g message content Hready)
  as (eff & content' & atts' & descs & -> & Hdel & Hrep & Hf & Hrest).
cbn [fst]. split.
* rewrite !reported_app, Hrr, Hrep. reflexivity.
* split; [done|]. intros _. exists content', atts', descs.
  rewrite !delivered_app, !fetched_app, Hrd, Hdel, Hrf, Hf.
  split; [reflexivity|]. split; [by rewrite app_nil_r|]. exact Hrest.
+ rewrite (handleAttachments_aborts w g message content Hnot). cbn [fst].
rewrite !reported_app, !delivered_app, !fetched_app, Hrr, Hrd, Hrf.
split; [reflexivity|]. split; [done|]. intros Hready. by destruct Hnot.
- cbn [fst].
rewrite reported_app, delivered_app, fetched_app, Hrr, Hrd, Hrf. done.
Qed.

End InboundProps.







(** ** The Discord channel: interactions *)

Lemma hexValue_hexDigit (d : N) :
  (d < 16)%N → hexValue (Discord.hexDigit d) = Some d.
Proof.
  intros Hd. unfold Discord.hexDigit, hexValue.
  destruct (N.ltb_spec d 10) as [Hlt | Hge].
  - replace ((48 <=? 48 + d) && (48 + d <=? 57))%N with true.
    + f_equal. lia.
    + symmetry. apply andb_true_iff. split; apply N.leb_le; lia.
  - replace ((48 <=? 87 + d) && (87 + d <=? 57))%N with false.
    + replace ((97 <=? 87 + d) && (87 + d <=? 102))%N with true.
      * f_equal. lia.
      * symmetry. apply andb_true_iff. split; apply N.leb_le; lia.
    + symmetry. apply andb_false_iff. right. apply N.leb_gt. lia.
Qed.

Lemma hex_digits_value (c : N) :
  (c < 65536)%N →
  (4096 * (c / 4096 mod 16) + 256 * (c / 256 mod 16) + 16 * (c / 16 mod 16)
   + c mod 16 = c)%N.
Proof.
  intros Hc.
  pose proof (N.Div0.mod_mul_r c 16 4096) as H1.
  pose proof (N.Div0.mod_mul_r (c / 16) 16 256) as H2.
  pose proof (N.Div0.mod_mul_r (c / 256) 16 16) as H3.
  rewrite N.Div0.div_div in H2, H3.
  change (16 * 16)%N with 256%N in *. change (16 * 256)%N with 4096%N in *.
  change (256 * 16)%N with 4096%N in *. change (16 * 4096)%N with 65536%N in *.
  rewrite (N.mod_small c 65536 Hc) in H1.
  assert (c / 4096 < 16)%N as H4 by (apply N.Div0.div_lt_upper_bound; lia).
  rewrite (N.mod_small (c / 4096) 16 H4) in *.
  lia.
Qed.

Lemma readJSONBody_unicode (c : N) (r : jsstring) :
  (c < 65536)%N →
  readJSONBody (Discord.unicodeEscape c ++ r) = cons c <$> readJSONBody r.
Proof.
  intros Hc. unfold Discord.unicodeEscape. cbn [app readJSONBody].
  change (92 =? 92)%N with true. change (117 =? 117)%N with true. cbv iota.
  rewrite !hexValue_hexDigit by (apply N.mod_upper_bound; lia).
  by rewrite hex_digits_value.
Qed.

Lemma readJSONBody_plain (c : N) (r : jsstring) :
  (32 ≤ c)%N → c ≠ 34%N → c ≠ 92%N →
  readJSONBody (c :: r) = cons c <$> readJSONBody r.
Proof.
  intros H1 H2 H3. cbn [readJSONBody].
  destruct (N.eqb_spec c 92); [done|].
  destruct (N.ltb_spec c 32); [lia|].
  by destruct (N.eqb_spec c 34).
Qed.

(** Every string reads back from its [JSON.stringify] body. *)
Lemma readJSONBody_quoteJSONBody (s : jsstring) :
  readJSONBody (Discord.quoteJSONBody s) = Some s.
Proof.
  remember (length s) as n eqn:Hn. revert s Hn.
  induction (lt_wf n) as [n _ IH]. intros s ->.
  destruct s as [|c s']; [done|]. cbn [Discord.quoteJSONBody].
  assert (IH' : ∀ t, length t < length (c :: s') →
                     readJSONBody (Discord.quoteJSONBody t) = Some t).
  { intros t Ht. by apply (IH (length t)). }
  assert (Hs' : readJSONBody (Discord.quoteJSONBody s') = Some s').
  { apply IH'. simpl. lia. }
  destruct (N.eqb_spec c 8) as [-> | ?].
  { change (readJSONBody (92 :: 98 :: Discord.quoteJSONBody s')
            = Some (8 :: s'))%N.
    cbn [readJSONBody]. change (92 =? 92)%N with true.
    change (98 =? 117)%N with false. cbv iota.
    change (unescape 98) with (Some 8%N). cbv iota. by rewrite Hs'. }
  destruct (N.eqb_spec c 9) as [-> | ?].
  { change (readJSONBody (92 :: 116 :: Discord.quoteJSONBody s')
            = Some (9 :: s'))%N.
    cbn [readJSONBody]. change (92 =? 92)%N with true.
    change (116 =? 117)%N with false. cbv iota.
    change (unescape 116) with (Some 9%N). cbv iota. by rewrite Hs'. }
  destruct (N.eqb_spec c 10) as [-> | ?].
  { change (readJSONBody (92 :: 110 :: Discord.quoteJSONBody s')
            = Some (10 :: s'))%N.
    cbn [readJSONBody]. change (92 =? 92)%N with true.
    change (110 =? 117)%N with false. cbv iota.
    change (unescape 110) with (Some 10%N). cbv iota. by rewrite Hs'. }
  destruct (N.eqb_spec c 12) as [-> | ?].
  { change (readJSONBody (92 :: 102 :: Discord.quoteJSONBody s')
            = Some (12 :: s'))%N.
    cbn [readJSONBody]. change (92 =? 92)%N with true.
    change (102 =? 117)%N with false. cbv iota.
    change (unescape 102) with (Some 12%N). cbv iota. by rewrite Hs'. }
  destruct (N.eqb_spec c 13) as [-> | ?].
  { change (readJSONBody (92 :: 114 :: Discord.quoteJSONBody s')
            = Some (13 :: s'))%N.
    cbn [readJSONBody]. change (92 =? 92)%N with true.
    change (114 =? 117)%N with false. cbv iota.
    change (unescape 114) with (Some 13%N). cbv iota. by rewrite Hs'. }
  destruct (N.eqb_spec c 34) as [-> | ?].
  { cbn [app readJSONBody]. change (92 =? 92)%N with true.
    change (34 =? 117)%N with false. cbv iota.
    change (unescape 34) with (Some 34%N). cbv iota. by rewrite Hs'. }
  destruct (N.eqb_spec c 92) as [-> | ?].
  { cbn [app readJSONBody]. change (92 =? 92)%N with true.
    change (92 =? 117)%N with false. cbv iota.
    change (unescape 92) with (Some 92%N). cbv iota. by rewrite Hs'. }
  destruct (N.ltb_spec c 32) as [Hlt | Hge].
  { rewrite readJSONBody_unicode by lia. by rewrite Hs'. }
  destruct (Discord.isHighSurrogate c) eqn:Hhigh.
  { apply andb_true_iff in Hhigh as [_ Hhi%N.leb_le].
    destruct s' as [|d s''].
    - rewrite <- (app_nil_r (Discord.unicodeEscape c)).
      by rewrite readJSONBody_unicode by lia.
    - destruct (Discord.isLowSurrogate d) eqn:Hlow.
      + apply andb_true_iff in Hlow as [Hlo%N.leb_le _].
        rewrite !readJSONBody_plain by lia.
        rewrite IH' by (simpl; lia). done.
      + rewrite readJSONBody_unicode by lia. by rewrite Hs'. }
  destruct (Discord.isLowSurrogate c) eqn:Hlow.
  { apply andb_true_iff in Hlow as [_ Hhi%N.leb_le].
    rewrite readJSONBody_unicode by lia. by rewrite Hs'. }
  rewrite readJSONBody_plain by lia. by rewrite Hs'.
Qed.

(** A string of plain code units is its own [JSON.stringify] body. *)
Lemma quoteJSONBody_plain (s : jsstring) :
  forallb plainUnit s = true → Discord.quoteJSONBody s = s.
Proof.
  induction s as [|c s IH]; [done|]. cbn [forallb Discord.quoteJSONBody].
  intros [Hc Hs]%andb_true_iff. rewrite (IH Hs).
  unfold plainUnit in Hc.
  apply andb_true_iff in Hc as [Hc Hsur].
  apply andb_true_iff in Hc as [Hc H92].
  apply andb_true_iff in Hc as [H32%N.leb_le H34].
  apply negb_true_iff in H34, H92, Hsur. rewrite H34, H92.
  apply N.eqb_neq in H34, H92.
  destruct (N.eqb_spec c 8); [lia|]. destruct (N.eqb_spec c 9); [lia|].
  destruct (N.eqb_spec c 10); [lia|]. destruct (N.eqb_spec c 12); [lia|].
  destruct (N.eqb_spec c 13); [lia|].
  destruct (N.ltb_spec c 32); [lia|].
  unfold Discord.isHighSurrogate, Discord.isLowSurrogate. revert Hsur.
  destruct (N.leb_spec 55296 c), (N.leb_spec c 56319),
    (N.leb_spec 56320 c), (N.leb_spec c 57343); cbn [andb];
    intros Hsur; try done; lia.
Qed.

(** [JSON.stringify] of an array of strings is the JSON array of string
    bodies that encode them. *)
Lemma stringifyStrings_encodes (values : list jsstring) :
  ∃ encs, Discord.stringifyStrings values = jsonArray encs
          ∧ encodes values encs.
Proof.
  exists (Discord.quoteJSONBody <$> values). split.
  - unfold Discord.stringifyStrings, jsonArray.
    by rewrite <- list_fmap_compose.
  - unfold encodes. apply Forall2_fmap_r, Forall_Forall2_diag, Forall_forall.
    intros v _. split; [apply readJSONBody_quoteJSONBody|].
    apply quoteJSONBody_plain.
Qed.

Lemma userNameOf_member (i : Discord.Interaction) (d : jsstring) :
  Discord.int_member i = Some (Some d) → Discord.userNameOf i = d.
Proof. unfold Discord.userNameOf. by intros ->. Qed.

Lemma userNameOf_user (i : Discord.Interaction) :
  (∀ d, Discord.int_member i ≠ Some (Some d)) →
  Discord.userNameOf i
  = if truthy (Discord.displayName (Discord.int_user i))
    then Discord.displayName (Discord.int_user i)
    else Discord.username (Discord.int_user i).
Proof.
  intros Hno. unfold Discord.userNameOf, or_str.
  destruct (Discord.int_member i) as [[d|]|]; [|done..].
  by destruct (Hno d).
Qed.

(** C7, as stated, fails: for a click on a registered conversation whose
    acknowledgement the platform rejects. The handler awaits
    [deferUpdate()] before anything else and outside any [try]; the
    rejection ends it, and no canonical message is delivered. *)
Lemma C7_registered_interaction_lost_when_ack_rejected :
  let i := Fixture.expired (lit "1234567890123456") in
  Discord.kind i ≠ Discord.OtherInteraction
  ∧ is_Some (Fixture.groups !! Discord.jidOf (Discord.int_channelId i))
  ∧ Discord.interactionCreate Fixture.cfg Fixture.groups Fixture.world i
    = ([Discord.DeferUpdate], false)
  ∧ Discord.delivered
      (Discord.onInteractionCreate Fixture.cfg Fixture.groups Fixture.world i)
    = []
  ∧ ¬ (∃ m, Discord.delivered
              (Discord.onInteractionCreate Fixture.cfg Fixture.groups
                 Fixture.world i)
            = [(Discord.jidOf (Discord.int_channelId i), m)]).
Proof.
  cbv zeta. split; [done|]. split; [eexists; vm_compute; reflexivity|].
  split; [by vm_compute|]. split; [by vm_compute|].
  intros [m H]. vm_compute in H. discriminate H.
Qed.

(** C7, amended. For every button or select interaction the handler calls
    [deferUpdate] before anything else, and once. On an unregistered
    conversation it yields no canonical message. On a registered one, when
    the acknowledgement is accepted, it yields exactly one, from the acting
    user (the member's display name when the member has one, else the
    user's display name, else the user name), whose body is
    the trigger phrase followed, for a button, by the control's identifier,
    its label (the identifier when the component has none), the acting
    user's display name and the identifier of the message the control is
    attached to, and for a select by the identifier, the JSON array of the
    chosen values (each value can be read back from it, and stands there
    unchanged when it is made of plain characters), the user and the
    message. *)
Theorem C7_interaction_ack_and_delivery
        (cfg : Discord.Config) (groups : gmap jsstring RegisteredGroup)
        (w : Discord.World) (i : Discord.Interaction) :
  Discord.kind i ≠ Discord.OtherInteraction →
  let tr := Discord.onInteractionCreate cfg groups w i in
  let jid := Discord.jidOf (Discord.int_channelId i) in
  head tr = Some Discord.DeferUpdate
  ∧ Discord.acknowledged tr = [tt]
  ∧ (groups !! jid = None → Discord.delivered tr = [])
  ∧ (is_Some (groups !! jid) →
     Discord.deferUpdateResult i = Returned tt →
     ∃ m, Discord.delivered tr = [(jid, m)]
          ∧ id m = Discord.int_id i
          ∧ chat_jid m = jid
          ∧ sender m = Discord.user_id (Discord.int_user i)
          ∧ sender_name m = Discord.userNameOf i
          ∧ (∀ d, Discord.int_member i = Some (Some d) → sender_name m = d)
          ∧ ((∀ d, Discord.int_member i ≠ Some (Some d)) →
             sender_name m
             = if truthy (Discord.displayName (Discord.int_user i))
               then Discord.displayName (Discord.int_user i)
               else Discord.username (Discord.int_user i))
          ∧ timestamp m = Discord.nowISO w
          ∧ is_from_me m = Some false
          ∧ (∀ label, Discord.kind i = Discord.Button label →
               content m
               = lit "@" ++ Discord.ASSISTANT_NAME cfg ++ lit " [Button: "
                   ++ Discord.customId i ++ lit " " ++ [dquote]
                   ++ default (Discord.customId i) label ++ [dquote]
                   ++ lit " by " ++ Discord.userNameOf i ++ lit " on message "
                   ++ Discord.int_message_id i ++ lit "]")
          ∧ (∀ values, Discord.kind i = Discord.StringSelectMenu values →
               ∃ encs,
                 encodes values encs
                 ∧ content m
                   = lit "@" ++ Discord.ASSISTANT_NAME cfg ++ lit " [Select: "
                       ++ Discord.customId i ++ lit " values="
                       ++ jsonArray encs
                       ++ lit " by " ++ Discord.userNameOf i
                       ++ lit " on message "
                       ++ Discord.int_message_id i ++ lit "]")).
Proof.
  intros Hkind tr jid. subst tr.
  unfold Discord.onInteractionCreate, Discord.interactionCreate.
  fold jid. unfold Discord.syntheticContent.
  destruct (Discord.kind i) as [label|values|] eqn:Hk; [| |done].
  - destruct (Discord.deferUpdateResult i) as [[]|reason].
    2:{ cbn [fst]. split; [done|]. split; [done|]. split; [done|].
        by intros _ [=]. }
    destruct (groups !! jid) as [g|]; cbn [fst].
    + split; [done|]. split; [done|]. split; [done|].
      intros _ _. eexists. split; [reflexivity|].
      cbn [id chat_jid sender sender_name content timestamp is_from_me].
      split; [done|]. split; [done|]. split; [done|]. split; [done|].
      split; [apply userNameOf_member|]. split; [apply userNameOf_user|].
      split; [done|]. split; [done|]. split.
      * intros label' [= <-]. unfold Discord.buttonContent, Discord.triggerPhrase.
        by rewrite <- !app_assoc.
      * intros values [=].
    + split; [done|]. split; [done|]. split; [done|]. by intros [? ?].
  - destruct (Discord.deferUpdateResult i) as [[]|reason].
    2:{ cbn [fst]. split; [done|]. split; [done|]. split; [done|].
        by intros _ [=]. }
    destruct (groups !! jid) as [g|]; cbn [fst].
    + split; [done|]. split; [done|]. split; [done|].
      intros _ _. eexists. split; [reflexivity|].
      cbn [id chat_jid sender sender_name content timestamp is_from_me].
      split; [done|]. split; [done|]. split; [done|]. split; [done|].
      split; [apply userNameOf_member|]. split; [apply userNameOf_user|].
      split; [done|]. split; [done|]. split.
      * intros label' [=].
      * intros values' [= <-].
        destruct (stringifyStrings_encodes values) as (encs & Henc & Hok).
        exists encs. split; [exact Hok|].
        unfold Discord.selectContent, Discord.triggerPhrase. rewrite Henc.
        by rewrite <- !app_assoc.
    + split; [done|]. split; [done|]. split; [done|]. by intros [? ?].
Qed.

Lemma C7_interaction_witness :
  (Discord.acknowledged
     (Discord.onInteractionCreate Fixture.cfg Fixture.groups Fixture.world
        (Fixture.approve (lit "9999999999999999"))) = [tt]
   ∧ Discord.delivered
       (Discord.onInteractionCreate Fixture.cfg Fixture.groups Fixture.world
          (Fixture.approve (lit "9999999999999999"))) = [])
  ∧ (∃ m, Discord.delivered
            (Discord.onInteractionCreate Fixture.cfg Fixture.groups
               Fixture.world (Fixture.approve (lit "1234567890123456")))
          = [(Fixture.registered, m)]
          ∧ content m
            = lit "@Andy [Button: approve " ++ [dquote] ++ lit "Approve"
                ++ [dquote] ++ lit " by Alice on message comp_msg_001]")
  ∧ (∃ m, Discord.delivered
            (Discord.onInteractionCreate Fixture.cfg Fixture.groups
               Fixture.world (Fixture.choose (lit "1234567890123456")))
          = [(Fixture.registered, m)]
          ∧ content m
            = lit "@Andy [Select: priority values=[" ++ [dquote]
                ++ lit "high" ++ [dquote] ++ lit "," ++ [dquote]
                ++ lit "urgent" ++ [dquote]
                ++ lit "] by Alice on message comp_msg_002]").
Proof.
  split; [|split].
  - destruct (C7_interaction_ack_and_delivery Fixture.cfg Fixture.groups
                Fixture.world (Fixture.approve (lit "9999999999999999")))
      as (_ & Hack & Hnone & _); [discriminate|].
    split; [exact Hack|]. apply Hnone. by vm_compute.
  - destruct (C7_interaction_ack_and_delivery Fixture.cfg Fixture.groups
                Fixture.world (Fixture.approve (lit "1234567890123456")))
      as (_ & _ & _ & Hsome); [discriminate|].
    destruct Hsome as (m & Hd & _ & _ & _ & _ & _ & _ & _ & _ & Hbutton & _).
    { eexists. vm_compute. reflexivity. }
    { reflexivity. }
    exists m. split; [exact Hd|].
    rewrite (Hbutton (Some (lit "Approve")) eq_refl). by vm_compute.
  - destruct (C7_interaction_ack_and_delivery Fixture.cfg Fixture.groups
                Fixture.world (Fixture.choose (lit "1234567890123456")))
      as (_ & _ & _ & Hsome); [discriminate|].
    destruct Hsome as (m & Hd & _ & _ & _ & _ & _ & _ & _ & _ & _ & Hselect).
    { eexists. vm_compute. reflexivity. }
    { reflexivity. }
    exists m. split; [exact Hd|].
    destruct (Hselect [lit "high"; lit "urgent"] eq_refl)
      as (encs & Henc & ->).
    apply Forall2_cons_inv_l in Henc as (e1 & encs1 & [_ He1] & Henc & ->).
    apply Forall2_cons_inv_l in Henc as (e2 & encs2 & [_ He2] & Henc & ->).
    apply Forall2_nil_inv_l in Henc as ->.
    rewrite (He1 eq_refl), (He2 eq_refl). by vm_compute.
Defined.

(** ** The Discord channel: send-side operations *)

(** C9, as stated, fails: before the client is initialized [sendComponents]
    and [updateComponents] do not return, they throw. *)
Lemma C9_sendComponents_before_connect_throws :
  Discord.client Fixture.unconnected = None
  ∧ Discord.sendComponents Fixture.unconnected Fixture.world Fixture.registered
      (lit "Pick one") []
    = ([], Thrown (lit "Discord client not initialized"))
  ∧ Discord.updateComponents Fixture.unconnected Fixture.world Fixture.registered
      (lit "sent_msg_001") (Some (lit "Done")) None
    = ([], Thrown (lit "Discord client not initialized"))
  ∧ ¬ (∃ sentId,
         snd (Discord.sendComponents Fixture.unconnected Fixture.world
                Fixture.registered (lit "Pick one") [])
         = Returned sentId).
Proof.
  split; [reflexivity|]. split; [reflexivity|]. split; [reflexivity|].
  intros [sentId H]. discriminate H.
Qed.

(** C9, amended. While the client is not initialized, [sendMessage] and
    [sendFile] log a warning and return without error; [setTyping] returns
    without error and without logging; [sendComponents] and
    [updateComponents] fail with the error that the client is not
    initialized; none of the five makes a call to the platform. *)
Theorem C9_before_connect_outcomes
        (self : Discord.DiscordChannel) (w : Discord.World)
        (jid text filePath messageId : jsstring) (caption newText : option jsstring)
        (isTyping : bool) (rows : list Discord.IpcActionRow)
        (newRows : option (list Discord.IpcActionRow)) :
  Discord.client self = None →
  Discord.sendMessage self w jid text
  = ([Discord.Log Discord.Warn Discord.notInitialized], Returned tt)
  ∧ Discord.sendFile self w jid filePath caption
    = ([Discord.Log Discord.Warn Discord.notInitialized], Returned tt)
  ∧ Discord.setTyping self w jid isTyping = ([], Returned tt)
  ∧ Discord.sendComponents self w jid text rows
    = ([], Thrown Discord.notInitialized)
  ∧ Discord.updateComponents self w jid messageId newText newRows
    = ([], Thrown Discord.notInitialized)
  ∧ Discord.platformCalls (fst (Discord.sendMessage self w jid text)) = []
  ∧ Discord.platformCalls (fst (Discord.sendFile self w jid filePath caption)) = []
  ∧ Discord.platformCalls (fst (Discord.setTyping self w jid isTyping)) = []
  ∧ Discord.platformCalls (fst (Discord.sendComponents self w jid text rows)) = []
  ∧ Discord.platformCalls
      (fst (Discord.updateComponents self w jid messageId newText newRows)) = [].
Proof.
  intros Hc.
  unfold Discord.sendMessage, Discord.sendFile, Discord.setTyping,
    Discord.sendComponents, Discord.updateComponents.
  rewrite Hc. by repeat split.
Qed.

Lemma C9_before_connect_witness :
  Discord.sendMessage Fixture.unconnected Fixture.world Fixture.registered
    (lit "No client")
  = ([Discord.Log Discord.Warn (lit "Discord client not initialized")],
     Returned tt)
  ∧ Discord.setTyping Fixture.unconnected Fixture.world Fixture.registered true
    = ([], Returned tt).
Proof.
  destruct (C9_before_connect_outcomes Fixture.unconnected Fixture.world
              Fixture.registered (lit "No client") (lit "/tmp/diagram.png")
              (lit "sent_msg_001") None None true [] None eq_refl)
    as (Hmsg & _ & Htyping & _).
  split; [exact Hmsg | exact Htyping].
Defined.

Lemma sendChunks_unfold (ch : Discord.PlatformChannel) (text : jsstring)
      (i k : nat) :
  Discord.sendChunks ch text i k =
  if decide (i < length text) then
    match Discord.sendResult ch k with
    | Returned _ =>
        Discord.andThen
          (Discord.Send
             (Discord.PText (Discord.slice text i (i + Discord.MAX_LENGTH))))
          (Discord.sendChunks ch text (i + Discord.MAX_LENGTH) (S k))
    | Thrown _ =>
        ([Discord.Send
            (Discord.PText (Discord.slice text i (i + Discord.MAX_LENGTH)))],
         false)
    end
  else ([], true).
Proof.
  rewrite Discord.sendChunks_equation_1.
  destruct (decide (i < length text)); simpl; [|done].
  by destruct (Discord.sendResult ch k).
Qed.

(** The loop of [sendMessage] from index [i] on: the [j]-th text it sends is
    the slice of [MAX_LENGTH] units at [i + j * MAX_LENGTH], which starts
    inside the text; when no send is rejected the loop runs to its end and
    the texts sent make up the text from [i] on. *)
Lemma sendChunks_spec (ch : Discord.PlatformChannel) (text : jsstring)
      (i k : nat) :
  let r := Discord.sendChunks ch text i k in
  (∀ j t, Discord.sentTexts (fst r) !! j = Some t →
          t = Discord.slice text (i + j * Discord.MAX_LENGTH)
                            (i + j * Discord.MAX_LENGTH + Discord.MAX_LENGTH)
          ∧ i + j * Discord.MAX_LENGTH < length text)
  ∧ ((∀ k', ∃ sentId, Discord.sendResult ch k' = Returned sentId) →
     snd r = true ∧ concat (Discord.sentTexts (fst r)) = drop i text).
Proof.
  remember (length text - i) as n eqn:Hn. revert i k Hn.
  induction n as [n IH] using lt_wf_ind. intros i k Hn.
  cbv zeta. rewrite sendChunks_unfold.
  destruct (decide (i < length text)) as [Hlt|Hge].
  - assert (Hlen : length text - (i + Discord.MAX_LENGTH) < n)
      by (unfold Discord.MAX_LENGTH; lia).
    destruct (IH _ Hlen (i + Discord.MAX_LENGTH) (S k) eq_refl) as [Hj Hall].
    assert (Hcat : Discord.slice text i (i + Discord.MAX_LENGTH)
                     ++ drop (i + Discord.MAX_LENGTH) text = drop i text).
    { unfold Discord.slice.
      replace (i + Discord.MAX_LENGTH - i) with Discord.MAX_LENGTH by lia.
      rewrite <- drop_drop. apply take_drop. }
    destruct (Discord.sendResult ch k) as [sentId|reason] eqn:Hres.
    + split.
      * intros [|j] t Ht; simpl in Ht.
        -- injection Ht as <-. split; [|lia]. f_equal; lia.
        -- destruct (Hj j t Ht) as [-> Hin]. split; [f_equal|]; lia.
      * intros Hok. destruct (Hall Hok) as [Hsnd Hconcat].
        split; [done|]. simpl. by rewrite Hconcat.
    + split.
      * intros [|j] t Ht; simpl in Ht; [|done].
        injection Ht as <-. split; [|lia]. f_equal; lia.
      * intros Hok. destruct (Hok k) as [sentId Hk]. congruence.
  - split.
    + intros j t Ht. done.
    + intros _. split; [done|]. simpl. by rewrite drop_ge by lia.
Qed.

Lemma sentTexts_frame (c : jsstring) (sends : list Discord.Effect)
      (level : Discord.Level) (msg : jsstring) :
  Discord.sentTexts (Discord.ChannelsFetch c :: sends ++ [Discord.Log level msg])
  = Discord.sentTexts sends.
Proof.
  unfold Discord.sentTexts. cbn [omap list_omap]. rewrite omap_app. simpl.
  apply app_nil_r.
Qed.

Lemma sendMessage_with_channel (self : Discord.DiscordChannel)
      (w : Discord.World) (jid text : jsstring) (ch : Discord.PlatformChannel) :
  is_Some (Discord.client self) →
  Discord.channelsFetch w (stripPrefix (lit "dc:") jid) = Discord.FetchChannel ch →
  Discord.hasSend ch = true →
  Discord.sentTexts (fst (Discord.sendMessage self w jid text))
  = Discord.sentTexts (fst (Discord.sendText ch text))
  ∧ snd (Discord.sendMessage self w jid text) = Returned tt.
Proof.
  intros [c Hc] Hf Hs. unfold Discord.sendMessage. rewrite Hc, Hf, Hs.
  simpl negb. cbv iota.
  destruct (Discord.sendText ch text) as [sends ok]. cbn [fst snd].
  split; [|done]. destruct ok; apply sentTexts_frame.
Qed.

Lemma sentTexts_sendMessage (self : Discord.DiscordChannel) (w : Discord.World)
      (jid text : jsstring) :
  Discord.sentTexts (fst (Discord.sendMessage self w jid text)) = []
  ∨ ∃ ch, Discord.sentTexts (fst (Discord.sendMessage self w jid text))
          = Discord.sentTexts (fst (Discord.sendText ch text)).
Proof.
  destruct (Discord.client self) as [c|] eqn:Hc;
    [|left; unfold Discord.sendMessage; by rewrite Hc].
  destruct (Discord.channelsFetch w (stripPrefix (lit "dc:") jid))
    as [reason| |ch] eqn:Hf;
    [left; unfold Discord.sendMessage; by rewrite Hc, Hf..|].
  destruct (Discord.hasSend ch) eqn:Hs;
    [|left; unfold Discord.sendMessage; by rewrite Hc, Hf, Hs].
  right. exists ch. by apply sendMessage_with_channel.
Qed.

Lemma sentTexts_sendText (ch : Discord.PlatformChannel) (text : jsstring) :
  let sent := Discord.sentTexts (fst (Discord.sendText ch text)) in
  (∀ j t, sent !! j = Some t →
          t = take 2000 (drop (j * 2000) text)
          ∧ (2000 < length text → t ≠ []))
  ∧ ((∀ k, ∃ sentId, Discord.sendResult ch k = Returned sentId) →
     snd (Discord.sendText ch text) = true
     ∧ concat sent = text
     ∧ (length text ≤ 2000 → sent = [text])).
Proof.
  cbv zeta. unfold Discord.sendText.
  destruct (decide (length text ≤ Discord.MAX_LENGTH)) as [Hle|Hgt].
  - unfold Discord.MAX_LENGTH in Hle.
    assert (Hone : ∀ j t, [text] !! j = Some t →
                     t = take 2000 (drop (j * 2000) text)
                     ∧ (2000 < length text → t ≠ [])).
    { intros [|j] t Ht; simpl in Ht; [|done]. injection Ht as <-.
      split; [|lia]. change (0 * 2000) with 0. rewrite drop_0.
      symmetry. apply take_ge. lia. }
    destruct (Discord.sendResult ch 0) as [sentId|reason] eqn:Hres; simpl.
    + split; [exact Hone|]. intros _. by rewrite app_nil_r.
    + split; [exact Hone|]. intros Hok. destruct (Hok 0) as [? ?]. congruence.
  - destruct (sendChunks_spec ch text 0 0) as [Hj Hall]. split.
    + intros j t Ht. destruct (Hj j t Ht) as [-> Hin].
      unfold Discord.slice, Discord.MAX_LENGTH in *.
      rewrite !Nat.add_0_l in *.
      replace (j * 2000 + 2000 - j * 2000) with 2000 by lia.
      split; [done|]. intros _ E.
      apply (f_equal length) in E. rewrite length_take, length_drop in E.
      change (length (@nil N)) with 0 in E. lia.
    + intros Hok. destruct (Hall Hok) as [Hsnd Hconcat].
      split; [done|]. split; [by rewrite Hconcat|].
      unfold Discord.MAX_LENGTH in Hgt. lia.
Qed.



(** ** The embedding on the inputs of the adapter's test suite *)

Example connect_then_connected :
  Discord.isConnected (fst (Discord.connect Fixture.unconnected (lit "999888777")))
  = true
  ∧ Discord.isConnected Fixture.unconnected = false
  ∧ Discord.isConnected Fixture.connecting = false.
Proof. by vm_compute. Qed.

Example ownsJid_examples :
  Discord.ownsJid (lit "dc:1234567890123456") = true
  ∧ Discord.ownsJid (lit "12345678@g.us") = false
  ∧ Discord.ownsJid (lit "tg:123456") = false.
Proof. by vm_compute. Qed.

Example mention_is_translated :
  Discord.translateMention Fixture.cfg Fixture.connected
    (Discord.mkMsg false (lit "1234567890123456")
       (lit "<@999888777> what time is it?") (lit "2024-01-01T00:00:00.000Z")
       None Fixture.alice (lit "msg_001") (Some (lit "Server")) (lit "general")
       [lit "999888777"] [] None)
  = lit "@Andy what time is it?".
Proof. by vm_compute. Qed.

Example trigger_is_not_repeated :
  Discord.translateMention Fixture.cfg Fixture.connected
    (Discord.mkMsg false (lit "1234567890123456")
       (lit "@Andy hello <@999888777>") (lit "2024-01-01T00:00:00.000Z")
       None Fixture.alice (lit "msg_001") (Some (lit "Server")) (lit "general")
       [lit "999888777"] [] None)
  = lit "@Andy hello".
Proof. by vm_compute. Qed.

Example reply_context_is_prefixed :
  contentBeforeAttachments Fixture.cfg Fixture.connected Fixture.world
    (Discord.mkMsg false (lit "1234567890123456") (lit "I agree with that")
       (lit "2024-01-01T00:00:00.000Z") None Fixture.alice (lit "msg_001")
       (Some (lit "Server")) (lit "general") [] [] (Some (lit "original_msg_id")))
  = lit "[Reply to Bob] I agree with that".
Proof. by vm_compute. Qed.

Example failed_download_placeholder :
  content <$>
    (snd <$> Discord.delivered
       (Discord.onMessageCreate Fixture.cfg Fixture.connected Fixture.groups
          Fixture.world
          (Fixture.hello (lit "1234567890123456")
             [Discord.mkRaw (Some (lit "clip.mp4")) (Some (lit "video/mp4"))
                            None []])))
  = [lit "Hello everyone" ++ newline ++ lit "[Video: clip.mp4]"].
Proof. by vm_compute. Qed.

Example select_values_are_stringified :
  Discord.syntheticContent Fixture.cfg
    (Discord.mkInteraction (Discord.StringSelectMenu [lit "high"; lit "urgent"])
       (lit "1234567890123456") (lit "priority") (lit "interaction_002")
       Fixture.alice (Some (Some (lit "Alice"))) (lit "comp_msg_002")
       (Returned tt))
  = lit "@Andy [Select: priority values=[" ++ [dquote] ++ lit "high"
      ++ [dquote] ++ lit "," ++ [dquote] ++ lit "urgent" ++ [dquote]
      ++ lit "] by Alice on message comp_msg_002]".
Proof. by vm_compute. Qed.

Example long_text_is_split :
  Discord.sentTexts
    (fst (Discord.sendMessage Fixture.connected Fixture.world Fixture.registered
            (repeat 120%N 3000)))
  = [repeat 120%N 2000; repeat 120%N 1000].
Proof. by vm_compute. Qed.

Example escapeXml_example :
  escapeXml (lit "a<b>&c") = lit "a&lt;b&gt;&amp;c".
Proof. by vm_compute. Qed.

(** * Further properties of the modelled code *)

(** ** [escapeXml] and [formatOutbound] *)

Lemma unescapeXml_escapeChar (x : N) (t : jsstring) :
  unescapeXml (escapeChar x ++ t) = x :: unescapeXml t.
Proof.
  unfold escapeChar, amp, lt_, gt_, dquote.
  destruct (x =? 38)%N eqn:E1; [apply N.eqb_eq in E1; by subst|].
  destruct (x =? 60)%N eqn:E2; [apply N.eqb_eq in E2; by subst|].
  destruct (x =? 62)%N eqn:E3; [apply N.eqb_eq in E3; by subst|].
  destruct (x =? 34)%N eqn:E4; [apply N.eqb_eq in E4; by subst|].
  cbn [app unescapeXml]. unfold amp. by rewrite E1.
Qed.

Lemma escapeChar_plain (x : N) : xmlSpecial x = false → escapeChar x = [x].
Proof.
  unfold xmlSpecial, escapeChar. intros H.
  apply orb_false_elim in H as [H E4]. apply orb_false_elim in H as [H E3].
  apply orb_false_elim in H as [E1 E2]. by rewrite E1, E2, E3, E4.
Qed.

Lemma escapeChar_length (x : N) : 1 ≤ length (escapeChar x).
Proof.
  unfold escapeChar.
  destruct (x =? amp)%N; [vm_compute; lia|].
  destruct (x =? lt_)%N; [vm_compute; lia|].
  destruct (x =? gt_)%N; [vm_compute; lia|].
  destruct (x =? dquote)%N; [vm_compute; lia|]. done.
Qed.

(** X1. [escapeXml] loses nothing and works piecewise: undoing the four
    entities gives the text back, so two texts with the same escaping are
    equal; the escaping of a concatenation is the concatenation of the
    escapings; a text without [&], [<], [>] and double quote is unchanged;
    the result is never shorter than the text. *)
Theorem X1_escapeXml_lossless :
  (∀ s, unescapeXml (escapeXml s) = s)
  ∧ (∀ a b, escapeXml a = escapeXml b → a = b)
  ∧ (∀ a b, escapeXml (a ++ b) = escapeXml a ++ escapeXml b)
  ∧ (∀ s, Forall (fun c => xmlSpecial c = false) s → escapeXml s = s)
  ∧ (∀ s, length s ≤ length (escapeXml s)).
Proof.
  assert (Hround : ∀ s, unescapeXml (escapeXml s) = s).
  { intros s. rewrite escapeXml_charwise.
    induction s as [|x s IH]; [done|].
    by rewrite bind_cons, unescapeXml_escapeChar, IH. }
  split; [exact Hround|]. split.
  { intros a b H. by rewrite <- (Hround a), <- (Hround b), H. }
  split.
  { intros a b. rewrite !escapeXml_charwise. apply bind_app. }
  split.
  - intros s Hs. rewrite escapeXml_charwise.
    induction Hs as [|x s Hx _ IH]; [done|].
    by rewrite bind_cons, IH, escapeChar_plain.
  - intros s. rewrite escapeXml_charwise.
    induction s as [|x s IH]; [done|].
    rewrite bind_cons, length_app. pose proof (escapeChar_length x).
    simpl. lia.
Qed.

Lemma X1_escapeXml_witness :
  lit "a<b" = lit "a<b" ∧ escapeXml (lit "plain text") = lit "plain text".
Proof.
  destruct X1_escapeXml_lossless as (_ & Hinj & _ & Hplain & _).
  split.
  - apply Hinj. reflexivity.
  - apply Hplain. repeat constructor.
Defined.

Lemma trimStart_allWhiteSpace (s : jsstring) :
  allWhiteSpace s → trimStart s = [].
Proof.
  induction 1 as [|c s Hc _ IH]; [done|]. simpl. by rewrite Hc.
Qed.

Lemma trim_empty_iff (s : jsstring) : trim s = [] ↔ allWhiteSpace s.
Proof.
  split.
  - intros E. destruct (trim_spec s) as (l & r & Hs & Hl & Hr & _).
    rewrite E, app_nil_l in Hs. unfold allWhiteSpace in *. rewrite Hs.
    apply Forall_app. by split.
  - intros H. unfold trim, trimEnd.
    rewrite (trimStart_allWhiteSpace s) by done. reflexivity.
Qed.

(** X2. [formatOutbound] returns what [stripInternalTags] returns. It is
    empty exactly when what is left of the text after the internal spans are
    removed is white space only, and a text in which no close marker
    follows an open marker, an unclosed open marker included, is only
    trimmed: nothing of it is removed. *)
Theorem X2_formatOutbound_empty_and_unclosed :
  (∀ raw, formatOutbound raw = stripInternalTags raw)
  ∧ (∀ raw, formatOutbound raw = []
            ↔ allWhiteSpace (replaceAll internalRe [] raw))
  ∧ (∀ raw, noSpan raw → formatOutbound raw = trim raw)
  ∧ (∀ body, includes closeTag body = false →
             formatOutbound (openTag ++ body) = trim (openTag ++ body)).
Proof.
  assert (Hsame : ∀ raw, formatOutbound raw = stripInternalTags raw).
  { intros raw. unfold formatOutbound. cbv zeta.
    by destruct (stripInternalTags raw). }
  split; [exact Hsame|]. split.
  { intros raw. rewrite Hsame. apply trim_empty_iff. }
  assert (Hno : ∀ raw, noSpan raw → formatOutbound raw = trim raw).
  { intros raw H. rewrite Hsame. unfold stripInternalTags.
    by rewrite remove_noSpan. }
  split; [exact Hno|].
  intros body Hb. apply Hno. intros a b Hab.
  destruct (includes closeTag b) eqn:Hib; [|done]. exfalso.
  assert (Hall : includes closeTag (openTag ++ body) = true).
  { rewrite Hab.
    assert (Hmono : ∀ x y, includes closeTag y = true →
                           includes closeTag (x ++ y) = true).
    { clear. intros x y Hy. induction x as [|d x IH]; [done|].
      change ((d :: x) ++ y) with (d :: (x ++ y)).
      rewrite includes_cons, IH. apply orb_true_r. }
    rewrite app_assoc. by apply Hmono. }
  change (includes closeTag (openTag ++ body))
    with (includes closeTag body) in Hall.
  congruence.
Qed.

Lemma X2_formatOutbound_witness :
  formatOutbound (openTag ++ lit "draft, never closed ")
  = lit "<internal>draft, never closed".
Proof.
  destruct X2_formatOutbound_empty_and_unclosed as (_ & _ & _ & Hopen).
  rewrite Hopen; [by vm_compute | reflexivity].
Defined.

(** ** [findChannel] and the dispatcher *)

Section FindChannelProps.
Context {P : Type}.
Implicit Types (chs : list (Channel P)) (c : Channel P) (jid : jsstring).

Lemma findChannel_None jid chs :
findChannel chs jid = None ↔ Forall (fun x => ownsJid x jid = false) chs.
Proof.
unfold findChannel. induction chs as [|x chs IH]; simpl.
- split; [constructor | done].
- destruct (ownsJid x jid) eqn:Hx.
+ split; [done|]. intros H. apply Forall_cons in H as [H _]. congruence.
+ rewrite IH. split; [by constructor | by intros [_ ?]%Forall_cons].
Qed.

Lemma findChannel_Some jid chs c :
findChannel chs jid = Some c →
∃ pre post, chs = pre ++ c :: post
        ∧ Forall (fun x => ownsJid x jid = false) pre
        ∧ ownsJid c jid = true.
Proof.
unfold findChannel. induction chs as [|x chs IH]; simpl; [done|].
destruct (ownsJid x jid) eqn:Hx.
- intros [= <-]. by exists [], chs.
- intros H. destruct (IH H) as (pre & post & -> & Hpre & Hc).
exists (x :: pre), post. repeat split; [|done]. by constructor.
Qed.

(** X3. [findChannel] returns the first channel that owns the address,
connected or not, and none exactly when no channel owns it; in that case
[routeOutbound] and [routeFile] fail with the no-channel error. Whenever
[routeOutbound] hands a send to a channel, [findChannel] finds an owner,
which stands at or before that channel in the collection; the two are
the same channel as soon as no channel before it owns the address. *)
Theorem X3_findChannel_owner_lookup chs jid :
(∀ c, findChannel chs jid = Some c →
  ∃ pre post, chs = pre ++ c :: post
              ∧ Forall (fun x => ownsJid x jid = false) pre
              ∧ ownsJid c jid = true)
∧ (findChannel chs jid = None
↔ Forall (fun x => ownsJid x jid = false) chs)
∧ (findChannel chs jid = None →
(∀ text, routeOutbound chs jid text = Thrown (noChannelFor jid))
∧ ∀ filePath caption,
   routeFile chs jid filePath caption = Thrown (noChannelFor jid))
∧ (∀ c, firstLive jid chs c →
    ∃ owner pre mid post,
      findChannel chs jid = Some owner
      ∧ chs = pre ++ owner :: mid
      ∧ (owner = c ∨ ∃ mid', mid = mid' ++ c :: post)
      ∧ (Forall (fun x => ownsJid x jid = false) pre))
∧ (∀ pre c post,
 chs = pre ++ c :: post →
 Forall (fun x => ownsJid x jid = false) pre →
 ownsJid c jid = true → isConnected c = true →
 findChannel chs jid = Some c
 ∧ ∀ text, routeOutbound chs jid text
           = Returned (sendMessage c jid text)).
Proof.
split; [apply findChannel_Some|]. split; [apply findChannel_None|].
split.
{ intros Hn. apply findChannel_None in Hn.
assert (Hnl : noneLive jid chs).
{ eapply Forall_impl; [exact Hn|]. by left. }
unfold routeOutbound, routeFile. by rewrite (find_noneLive _ _ Hnl). }
split.
- intros c (pre & post & -> & Hpre & Ho & Hc).
induction pre as [|x pre IH].
+ exists c, [], post, post. unfold findChannel. simpl. rewrite Ho.
repeat split; [by left | constructor].
+ apply Forall_cons in Hpre as [Hx Hpre].
destruct (ownsJid x jid) eqn:Hox.
* exists x, [], (pre ++ c :: post), post.
  unfold findChannel. simpl. rewrite Hox.
  repeat split; [|constructor]. right. by exists pre.
* destruct (IH Hpre) as (owner & pre' & mid & post' & Hf & Hsplit & Hrel & Hno).
  exists owner, (x :: pre'), mid, post'.
  unfold findChannel in *. simpl. rewrite Hox.
  split; [exact Hf|]. split; [by rewrite <- Hsplit|].
  split; [exact Hrel | by constructor].
- intros pre c post -> Hpre Ho Hc. split.
+ unfold findChannel. induction Hpre as [|x pre Hx _ IH]; simpl.
* by rewrite Ho.
* by rewrite Hx.
+ intros text. unfold routeOutbound. rewrite (find_firstLive jid _ c); [done|].
exists pre, post. repeat split; [|done..].
eapply Forall_impl; [exact Hpre|]. intros x Hx. unfold live. by rewrite Hx.
Qed.

End FindChannelProps.

Lemma X3_findChannel_witness :
  findChannel
    [Fixture.plain true; Discord.asChannel Fixture.unconnected Fixture.world;
     Discord.asChannel Fixture.connected Fixture.world]
    Fixture.registered
  = Some (Discord.asChannel Fixture.unconnected Fixture.world)
  ∧ findChannel [Fixture.plain true; Discord.asChannel Fixture.connected Fixture.world]
      Fixture.registered
    = Some (Discord.asChannel Fixture.connected Fixture.world)
  ∧ routeOutbound [Fixture.plain true] Fixture.registered (lit "hello")
    = Thrown (noChannelFor Fixture.registered).
Proof.
  split; [|split].
  - destruct (X3_findChannel_owner_lookup
                [Fixture.plain true;
                 Discord.asChannel Fixture.unconnected Fixture.world;
                 Discord.asChannel Fixture.connected Fixture.world]
                Fixture.registered) as (_ & _ & _ & Hlive & _).
    destruct (Hlive (Discord.asChannel Fixture.connected Fixture.world))
      as (owner & pre & mid & post & Hf & _).
    + exists [Fixture.plain true;
              Discord.asChannel Fixture.unconnected Fixture.world], [].
      repeat split. repeat constructor.
    + reflexivity.
  - destruct (X3_findChannel_owner_lookup
                [Fixture.plain true;
                 Discord.asChannel Fixture.connected Fixture.world]
                Fixture.registered) as (_ & _ & _ & _ & Hsame).
    apply (Hsame [Fixture.plain true] _ []); [reflexivity | | reflexivity..].
    repeat constructor.
  - destruct (X3_findChannel_owner_lookup [Fixture.plain true]
                Fixture.registered) as (_ & _ & Hnone & _).
    apply Hnone. reflexivity.
Defined.

(** ** [collectAttachments] over a batch received in two parts *)

Lemma keepFirst_filter (l : list MessageAttachment) (S T : gset jsstring) :
  keepFirst (S ∪ T) l = filter (fun a => path a ∉ S) (keepFirst T l).
Proof.
  revert T. induction l as [|a l IH]; intros T; [done|].
  cbn [keepFirst].
  destruct (decide (path a ∈ T)) as [HT|HT].
  - rewrite decide_True by set_solver. apply IH.
  - destruct (decide (path a ∈ S)) as [HS|HS].
    + rewrite decide_True by set_solver.
      rewrite filter_cons_False by (intros H; by apply H).
      rewrite <- IH. f_equal. set_solver.
    + rewrite decide_False by set_solver.
      rewrite filter_cons_True by done.
      rewrite <- IH. do 2 f_equal. set_solver.
Qed.

Lemma keepFirst_paths (l : list MessageAttachment) (p : jsstring) :
  p ∈ path <$> keepFirst ∅ l ↔ p ∈ path <$> l.
Proof.
  split.
  - intros (a & -> & Ha)%list_elem_of_fmap. apply list_elem_of_fmap_2.
    eapply elem_of_sublist; [exact Ha | apply keepFirst_sublist].
  - intros (a & -> & Ha)%list_elem_of_fmap.
    destruct (keepFirst_covers l ∅ a Ha) as [H|H]; [|done].
    by apply not_elem_of_empty in H.
Qed.

(** X4. Collecting over a batch given in two parts: the result for the
    whole batch is the result for the first part followed by the result for
    the second part without the attachments whose path the first part
    already has. Messages without an [attachments] field, or with an empty
    one, change nothing, and the result is never longer than the number of
    attachments in the batch. *)
Theorem X4_collectAttachments_in_parts (ms1 ms2 : list NewMessage) :
  collectAttachments (ms1 ++ ms2)
  = collectAttachments ms1
      ++ filter (fun a => path a ∉ path <$> collectAttachments ms1)
                (collectAttachments ms2)
  ∧ (∀ m, attachments m = None ∨ attachments m = Some [] →
          collectAttachments (ms1 ++ m :: ms2) = collectAttachments (ms1 ++ ms2))
  ∧ length (collectAttachments ms1) ≤ length (allAttachments ms1).
Proof.
  rewrite !collectAttachments_keepFirst. split; [|split].
  - unfold allAttachments. rewrite bind_app. fold (allAttachments ms1).
    fold (allAttachments ms2). rewrite keepFirst_app.
    f_equal. rewrite keepFirst_filter. apply list_filter_iff.
    intros a. rewrite keepFirst_paths. split.
    + intros H Hin. apply H. by apply elem_of_list_to_set.
    + intros H Hin. apply H. by apply elem_of_list_to_set in Hin.
  - intros m Hm. rewrite !collectAttachments_keepFirst. f_equal.
    unfold allAttachments. rewrite !bind_app, bind_cons.
    by destruct Hm as [-> | ->].
  - apply sublist_length, keepFirst_sublist.
Qed.

Lemma X4_collectAttachments_witness :
  collectAttachments
    ([carrying [mkAttachment (lit "a.png") (lit "A") (lit "image/png") 1 true]]
       ++ mkMessage (lit "m2") (lit "dc:1") (lit "u") (lit "User") []
            (lit "t") None None None
       :: [carrying [mkAttachment (lit "b.png") (lit "B") (lit "image/png") 2
                                  true]])
  = collectAttachments
      ([carrying [mkAttachment (lit "a.png") (lit "A") (lit "image/png") 1 true]]
         ++ [carrying [mkAttachment (lit "b.png") (lit "B") (lit "image/png") 2
                                    true]]).
Proof.
  refine (let H := X4_collectAttachments_in_parts _ _ in _).
  destruct H as (_ & Hskip & _). apply Hskip. by left.
Defined.

(** ** The Discord channel: addresses, liveness and failures *)

Lemma jidOf_owned (channelId : jsstring) :
  Discord.ownsJid (Discord.jidOf channelId) = true.
Proof. apply startsWith_app. Qed.

Lemma stripPrefix_jidOf (channelId : jsstring) :
  stripPrefix (lit "dc:") (Discord.jidOf channelId) = channelId.
Proof.
  unfold stripPrefix, Discord.jidOf. by rewrite startsWith_app, drop_app_length.
Qed.

(** X5. Addresses and channel identifiers: the address derived from a
    channel identifier is owned by the Discord channel, and stripping its
    prefix gives the identifier back; an owned address is the address of the
    identifier obtained from it; an address that is not owned is used
    unchanged as the identifier. *)
Theorem X5_jid_round_trip :
  (∀ channelId,
     Discord.ownsJid (Discord.jidOf channelId) = true
     ∧ stripPrefix (lit "dc:") (Discord.jidOf channelId) = channelId)
  ∧ (∀ jid, Discord.ownsJid jid = true →
            Discord.jidOf (stripPrefix (lit "dc:") jid) = jid)
  ∧ (∀ jid, Discord.ownsJid jid = false →
            stripPrefix (lit "dc:") jid = jid).
Proof.
  split; [|split].
  - intros channelId. split; [apply jidOf_owned | apply stripPrefix_jidOf].
  - intros jid H. unfold Discord.ownsJid in H. unfold stripPrefix. rewrite H.
    apply startsWith_prefix in H as [k ->].
    by rewrite drop_app_length.
  - intros jid H. unfold Discord.ownsJid in H. unfold stripPrefix. by rewrite H.
Qed.

Lemma X5_jid_witness :
  Discord.jidOf (stripPrefix (lit "dc:") (lit "dc:1234567890123456"))
  = lit "dc:1234567890123456"
  ∧ stripPrefix (lit "dc:") (lit "12345678@g.us") = lit "12345678@g.us".
Proof.
  destruct X5_jid_round_trip as (_ & Howned & Hother).
  split; [apply Howned | apply Hother]; reflexivity.
Defined.

(** X6. A reply to the address of an inbound message reaches the channel
    the message came from: for every canonical message the handler delivers,
    dispatching to its address over a collection in which the connected
    Discord channel is the first owner hands the send to that channel, and
    the send starts by looking up the platform channel of the inbound
    event. *)
Theorem X6_reply_reaches_origin
        (cfg : Discord.Config) (self : Discord.DiscordChannel)
        (groups : gmap jsstring RegisteredGroup) (w w' : Discord.World)
        (message : Discord.Message)
        (pre post : list (Channel (list Discord.Effect * Outcome unit)))
        (text : jsstring) :
  Discord.author_bot message = false →
  Discord.isConnected self = true →
  Forall (fun x => ownsJid x (Discord.jidOf (Discord.channelId message)) = false)
         pre →
  ∀ jid m,
    (jid, m) ∈ Discord.delivered (Discord.onMessageCreate cfg self groups w message) →
    jid = chat_jid m
    ∧ routeOutbound (pre ++ Discord.asChannel self w' :: post) (chat_jid m) text
      = Returned (Discord.sendMessage self w' (chat_jid m) text)
    ∧ head (fst (Discord.sendMessage self w' (chat_jid m) text))
      = Some (Discord.ChannelsFetch (Discord.channelId message)).
Proof.
  intros Hbot Hconn Hpre jid m Hin.
  destruct (onMessageCreate_spec cfg self groups w message Hbot) as [_ Hdel].
  destruct (groups !! _) as [g|].
  - destruct Hdel as [Hnot Hready].
    destruct (decide (inboxReady cfg w g message)) as [Hr | Hn];
      [|destruct (Hnot Hn) as [Hd _]; rewrite Hd in Hin;
        by apply elem_of_nil in Hin].
    destruct (Hready Hr) as (content' & atts' & descs & Hd & _).
    rewrite Hd in Hin. apply list_elem_of_singleton in Hin.
    injection Hin as -> ->. cbn [chat_jid].
    split; [done|]. split.
    + unfold routeOutbound.
      rewrite (find_firstLive _ _ (Discord.asChannel self w')); [done|].
      exists pre, post. split; [done|]. split; [|split].
      * eapply Forall_impl; [exact Hpre|]. intros x Hx. unfold live.
        by rewrite Hx.
      * apply jidOf_owned.
      * exact Hconn.
    + unfold Discord.sendMessage, Discord.isConnected in *.
      destruct (Discord.client self); [|done].
      rewrite stripPrefix_jidOf.
      destruct (Discord.channelsFetch w' _) as [?| |ch]; [done..|].
      destruct (negb (Discord.hasSend ch)); [done|].
      by destruct (Discord.sendText ch text).
  - destruct Hdel as [Hd _]. rewrite Hd in Hin. by apply elem_of_nil in Hin.
Qed.

Lemma X6_reply_witness :
  routeOutbound
    ([Fixture.plain true]
       ++ Discord.asChannel Fixture.connected Fixture.world :: [])
    Fixture.registered (lit "hi")
  = Returned (Discord.sendMessage Fixture.connected Fixture.world
                Fixture.registered (lit "hi")).
Proof.
  refine (let H := X6_reply_reaches_origin Fixture.cfg Fixture.connected
                     Fixture.groups Fixture.world Fixture.world
                     (Fixture.hello (lit "1234567890123456") [])
                     [Fixture.plain true] [] (lit "hi") eq_refl eq_refl _
                     Fixture.registered
                     (mkMessage (lit "msg_001") Fixture.registered
                        (lit "55512345") (lit "Alice") (lit "Hello everyone")
                        (lit "2024-01-01T00:00:00.000Z") (Some false) None None)
                     _ in _).
  exact (proj1 (proj2 H)).
  Unshelve.
  - repeat constructor.
  - vm_compute. apply list_elem_of_here.
Defined.

(** X7. [sendMessage], [sendFile] and [setTyping] never throw: in every
    state of the channel and whatever the platform answers they return
    normally. [sendFile] hands at most one payload to the platform, and
    [setTyping] with [false] does nothing at all. Every run of
    [sendMessage] and of [sendFile] logs exactly one entry, and the last
    effect of [sendMessage] is that entry. *)
Theorem X7_send_failures_are_swallowed
        (self : Discord.DiscordChannel) (w : Discord.World)
        (jid text filePath : jsstring) (caption : option jsstring)
        (isTyping : bool) :
  snd (Discord.sendMessage self w jid text) = Returned tt
  ∧ snd (Discord.sendFile self w jid filePath caption) = Returned tt
  ∧ snd (Discord.setTyping self w jid isTyping) = Returned tt
  ∧ length (Discord.sends (fst (Discord.sendFile self w jid filePath caption))) ≤ 1
  ∧ Discord.setTyping self w jid false = ([], Returned tt)
  ∧ length (Discord.logged (fst (Discord.sendMessage self w jid text))) = 1
  ∧ length (Discord.logged (fst (Discord.sendFile self w jid filePath caption)))
    = 1
  ∧ (∃ level msg,
       last (fst (Discord.sendMessage self w jid text))
       = Some (Discord.Log level msg)).
Proof.
  assert (Hchunks : ∀ ch i k,
             Discord.logged (fst (Discord.sendChunks ch text i k)) = []).
  { intros ch i k. remember (length text - i) as n eqn:Hn. revert i k Hn.
    induction n as [n IH] using lt_wf_ind. intros i k Hn.
    rewrite sendChunks_unfold.
    destruct (decide (i < length text)); [|done].
    destruct (Discord.sendResult ch k); [|done].
    unfold Discord.andThen. cbn [fst].
    unfold Discord.logged. cbn [omap list_omap].
    apply (IH (length text - (i + Discord.MAX_LENGTH)));
      [unfold Discord.MAX_LENGTH; lia | done]. }
  assert (Htext : ∀ ch, Discord.logged (fst (Discord.sendText ch text)) = []).
  { intros ch. unfold Discord.sendText.
    destruct (decide _); [by destruct (Discord.sendResult ch 0)|].
    apply Hchunks. }
  unfold Discord.sendMessage, Discord.sendFile, Discord.setTyping.
  destruct (Discord.client self) as [c|]; [|by repeat split; eauto].
  destruct (Discord.channelsFetch w _) as [reason| |ch] eqn:Hf;
    [destruct isTyping; repeat split; simpl; eauto..|].
  destruct (Discord.hasSend ch) eqn:Hs; simpl negb; cbv iota.
  2: { destruct isTyping, (Discord.hasSendTyping ch),
         (Discord.sendTypingResult ch); repeat split; simpl; eauto. }
  pose proof (Htext ch) as Hl.
  destruct (Discord.sendText ch text) as [sent ok]. cbn [fst snd] in *.
  assert (Hlog : length (Discord.logged
                           (Discord.ChannelsFetch (stripPrefix (lit "dc:") jid)
                              :: sent
                              ++ [if ok
                                  then Discord.Log Discord.Info
                                         (lit "Discord message sent")
                                  else Discord.Log Discord.Error
                                         (lit "Failed to send Discord message")]))
                 = 1).
  { unfold Discord.logged in *. cbn [omap list_omap]. rewrite omap_app, Hl.
    by destruct ok. }
  assert (Hlast : ∃ level msg,
             last (Discord.ChannelsFetch (stripPrefix (lit "dc:") jid)
                     :: sent
                     ++ [if ok
                         then Discord.Log Discord.Info (lit "Discord message sent")
                         else Discord.Log Discord.Error
                                (lit "Failed to send Discord message")])
             = Some (Discord.Log level msg)).
  { rewrite app_comm_cons, last_snoc. destruct ok; eauto. }
  destruct isTyping, (Discord.hasSendTyping ch), (Discord.sendTypingResult ch),
    (Discord.sendResult ch 0); repeat split; simpl; eauto.
Qed.

Lemma slice_chunk (text : jsstring) (i j : nat) :
  Discord.slice text (i + j * Discord.MAX_LENGTH)
                (i + j * Discord.MAX_LENGTH + Discord.MAX_LENGTH)
  = take 2000 (drop (i + j * 2000) text).
Proof.
  unfold Discord.slice, Discord.MAX_LENGTH. f_equal. lia.
Qed.

Lemma sendChunks_rejected (ch : Discord.PlatformChannel) (text : jsstring)
      (k i k0 : nat) :
  (∀ j, j < k → ∃ sentId, Discord.sendResult ch (k0 + j) = Returned sentId) →
  (∃ reason, Discord.sendResult ch (k0 + k) = Thrown reason) →
  i + k * Discord.MAX_LENGTH < length text →
  Discord.sendChunks ch text i k0
  = ((fun j => Discord.Send (Discord.PText (take 2000 (drop (i + j * 2000) text))))
       <$> seq 0 (S k), false).
Proof.
  revert i k0. induction k as [|k IH]; intros i k0 Hok [reason Hrej] Hin.
  - rewrite sendChunks_unfold, decide_True by lia.
    rewrite Nat.add_0_r in Hrej. rewrite Hrej.
    pose proof (slice_chunk text i 0) as Hs.
    rewrite !Nat.mul_0_l, !Nat.add_0_r in Hs. rewrite Hs.
    cbn [seq fmap list_fmap]. by rewrite Nat.mul_0_l, Nat.add_0_r.
  - rewrite sendChunks_unfold, decide_True by lia.
    destruct (Hok 0 ltac:(lia)) as [sentId H0]. rewrite Nat.add_0_r in H0.
    rewrite H0.
    rewrite (IH (i + Discord.MAX_LENGTH) (S k0)).
    + unfold Discord.andThen. cbn [fst snd]. f_equal.
      pose proof (slice_chunk text i 0) as Hs.
      rewrite !Nat.mul_0_l, !Nat.add_0_r in Hs. rewrite Hs.
      change (seq 0 (S (S k))) with (0 :: seq 1 (S k)).
      rewrite fmap_cons, Nat.mul_0_l, Nat.add_0_r. f_equal.
      rewrite <- (fmap_S_seq 0), <- list_fmap_compose.
      apply list_fmap_ext. intros _ j _. cbn [compose].
      do 4 f_equal. unfold Discord.MAX_LENGTH. lia.
    + intros j Hj. destruct (Hok (S j) ltac:(lia)) as [x Hx]. exists x.
      by replace (S k0 + j) with (k0 + S j) by lia.
    + exists reason. by replace (S k0 + k) with (k0 + S k) by lia.
    + unfold Discord.MAX_LENGTH in *. lia.
Qed.

Lemma sentTexts_fmap_send (l : list jsstring) :
  Discord.sentTexts ((fun t => Discord.Send (Discord.PText t)) <$> l) = l.
Proof.
  induction l as [|t l IH]; [done|]. unfold Discord.sentTexts in *.
  rewrite fmap_cons. cbn [omap list_omap]. by rewrite IH.
Qed.

(** X8. A rejected send ends [sendMessage]: when the platform accepts the
    first [k] sends of a long text and rejects the next one, the texts
    handed to the platform are the first [k + 1] chunks and no more, the
    error is logged, and the operation returns normally; nothing is sent
    again. *)
Theorem X8_sendMessage_stops_at_rejected_send
        (self : Discord.DiscordChannel) (w : Discord.World)
        (jid text : jsstring) (ch : Discord.PlatformChannel) (k : nat) :
  is_Some (Discord.client self) →
  Discord.channelsFetch w (stripPrefix (lit "dc:") jid) = Discord.FetchChannel ch →
  Discord.hasSend ch = true →
  2000 < length text →
  k * 2000 < length text →
  (∀ j, j < k → ∃ sentId, Discord.sendResult ch j = Returned sentId) →
  (∃ reason, Discord.sendResult ch k = Thrown reason) →
  Discord.sentTexts (fst (Discord.sendMessage self w jid text))
  = chunk text <$> seq 0 (S k)
  ∧ Discord.logged (fst (Discord.sendMessage self w jid text))
    = [(Discord.Error, lit "Failed to send Discord message")]
  ∧ snd (Discord.sendMessage self w jid text) = Returned tt.
Proof.
  intros [c Hc] Hf Hs Hlong Hin Hok Hrej.
  unfold Discord.sendMessage. rewrite Hc, Hf, Hs. simpl negb. cbv iota.
  unfold Discord.sendText.
  rewrite decide_False by (unfold Discord.MAX_LENGTH; lia).
  rewrite (sendChunks_rejected ch text k 0 0); [|done..].
  cbn [fst snd]. split; [|split; [|done]].
  - rewrite sentTexts_frame.
    rewrite (list_fmap_compose (fun j => take 2000 (drop (0 + j * 2000) text))
               (fun t => Discord.Send (Discord.PText t))).
    by rewrite sentTexts_fmap_send.
  - unfold Discord.logged. cbn [omap list_omap]. rewrite omap_app.
    replace (omap _ (_ <$> seq 0 (S k))) with (@nil (Discord.Level * jsstring));
      [done|].
    symmetry. generalize (seq 0 (S k)). intros l.
    induction l as [|x l IH]; [done|]. rewrite fmap_cons. cbn [omap list_omap].
    exact IH.
Qed.


Lemma X8_sendMessage_witness :
  Discord.sentTexts
    (fst (Discord.sendMessage Fixture.connected (worldWith (acceptsFirst 1))
            Fixture.registered (repeat 120%N 4500)))
  = [chunk (repeat 120%N 4500) 0; chunk (repeat 120%N 4500) 1].
Proof.
  refine (proj1 (X8_sendMessage_stops_at_rejected_send Fixture.connected
                   (worldWith (acceptsFirst 1)) Fixture.registered
                   (repeat 120%N 4500) (acceptsFirst 1) 1 _ eq_refl eq_refl
                   _ _ _ _)).
  - by eexists.
  - rewrite repeat_length. lia.
  - rewrite repeat_length. lia.
  - intros j Hj. exists (lit "sent_msg_001"). simpl.
    by rewrite decide_True by lia.
  - by exists (lit "Missing Permissions").
Defined.

Lemma length_concat_bound (l : list jsstring) (n : nat) :
  Forall (fun t => length t ≤ n) l → length (concat l) ≤ length l * n.
Proof.
  induction 1 as [|t l Ht _ IH]; [done|].
  simpl. rewrite length_app. lia.
Qed.

(** X9. The number of platform messages [sendMessage] makes for one text:
    never more than one for a text of at most 2000 units, and for a longer
    text never more than the text has chunks of 2000 units (a send is made
    at index [j] only if the text is longer than [j * 2000]). When the
    channel is at hand and every send is accepted the bound is reached:
    2000 times the number of messages covers the text. *)
Theorem X9_sendMessage_number_of_messages
        (self : Discord.DiscordChannel) (w : Discord.World)
        (jid text : jsstring) :
  let sent := Discord.sentTexts (fst (Discord.sendMessage self w jid text)) in
  (length text ≤ 2000 → length sent ≤ 1)
  ∧ (∀ j, j < length sent → j = 0 ∨ j * 2000 < length text)
  ∧ (∀ ch,
       is_Some (Discord.client self) →
       Discord.channelsFetch w (stripPrefix (lit "dc:") jid)
       = Discord.FetchChannel ch →
       Discord.hasSend ch = true →
       (∀ k, ∃ sentId, Discord.sendResult ch k = Returned sentId) →
       1 ≤ length sent ∧ length text ≤ length sent * 2000).
Proof.
  cbv zeta. split; [|split].
  - intros Hshort.
    destruct (sentTexts_sendMessage self w jid text) as [E | [ch E]];
      rewrite E; [simpl; lia|].
    unfold Discord.sendText.
    rewrite decide_True by (unfold Discord.MAX_LENGTH; lia).
    destruct (Discord.sendResult ch 0); simpl; lia.
  - intros j Hj.
    destruct (lookup_lt_is_Some_2 _ _ Hj) as [t Ht].
    destruct (sentTexts_sendMessage self w jid text) as [E | [ch E]];
      rewrite E in Ht; [done|].
    destruct (sentTexts_sendText ch text) as [Hchunk _].
    destruct (Hchunk j t Ht) as [-> Hne].
    destruct (decide (2000 < length text)) as [Hlong|Hshort].
    + right. specialize (Hne Hlong).
      destruct (decide (j * 2000 < length text)) as [|Hout]; [done|].
      exfalso. apply Hne. rewrite drop_ge by lia. done.
    + left. revert Ht. unfold Discord.sendText.
      rewrite decide_True by (unfold Discord.MAX_LENGTH; lia).
      destruct (Discord.sendResult ch 0); destruct j; simpl; done.
  - intros ch Hc Hf Hs Hok.
    destruct (sendMessage_with_channel self w jid text ch Hc Hf Hs) as [-> _].
    destruct (sentTexts_sendText ch text) as [Hchunk Hall].
    destruct (Hall Hok) as (_ & Hconcat & Hshort).
    assert (Hbound : Forall (fun t => length t ≤ 2000)
                            (Discord.sentTexts (fst (Discord.sendText ch text)))).
    { apply Forall_lookup. intros j t Ht.
      destruct (Hchunk j t Ht) as [-> _]. rewrite length_take. lia. }
    apply length_concat_bound in Hbound. rewrite Hconcat in Hbound.
    split; [|exact Hbound].
    destruct (decide (length text ≤ 2000)) as [Hle|Hgt].
    + rewrite (Hshort Hle). simpl. lia.
    + destruct (Discord.sentTexts (fst (Discord.sendText ch text)));
        simpl in *; lia.
Qed.

Lemma X9_sendMessage_witness :
  length (repeat 120%N 4500)
  ≤ length (Discord.sentTexts
              (fst (Discord.sendMessage Fixture.connected Fixture.world
                      Fixture.registered (repeat 120%N 4500)))) * 2000.
Proof.
  destruct (X9_sendMessage_number_of_messages Fixture.connected Fixture.world
              Fixture.registered (repeat 120%N 4500)) as (_ & _ & Hall).
  apply (Hall Fixture.textChannel); [by eexists | reflexivity..|].
  intros k. by eexists.
Defined.

(** X10. [disconnect] leaves the channel without a client and therefore
    not connected; it is idempotent, the second call doing and logging
    nothing, as does a call on a channel that never connected; after it
    [sendMessage] takes its not-initialized path, without any call to the
    platform, and a dispatch over the channel alone fails with the
    no-channel error even for an address the channel owns. *)
Theorem X10_disconnect_idempotent
        (self : Discord.DiscordChannel) (w : Discord.World)
        (jid text : jsstring) :
  let self' := fst (Discord.disconnect self) in
  Discord.client self' = None
  ∧ Discord.isConnected self' = false
  ∧ Discord.disconnect self' = (self', [])
  ∧ (Discord.client self = None → Discord.disconnect self = (self, []))
  ∧ (is_Some (Discord.client self) →
     Discord.logged (snd (Discord.disconnect self))
     = [(Discord.Info, lit "Discord bot stopped")])
  ∧ Discord.platformCalls (fst (Discord.sendMessage self' w jid text)) = []
  ∧ routeOutbound [Discord.asChannel self' w] jid text
    = Thrown (noChannelFor jid).
Proof.
  cbv zeta. unfold Discord.disconnect, Discord.isConnected, Discord.sendMessage.
  destruct self as [[c|]]; cbn [Discord.client fst snd].
  - repeat split; [done|].
    unfold routeOutbound, live. simpl. by rewrite andb_false_r.
  - repeat split; [by intros [? ?]|].
    unfold routeOutbound, live. simpl. by rewrite andb_false_r.
Qed.

Lemma X10_disconnect_witness :
  Discord.disconnect Fixture.unconnected = (Fixture.unconnected, [])
  ∧ Discord.logged (snd (Discord.disconnect Fixture.connected))
    = [(Discord.Info, lit "Discord bot stopped")].
Proof.
  destruct (X10_disconnect_idempotent Fixture.unconnected Fixture.world
              Fixture.registered (lit "x")) as (_ & _ & _ & Hnever & _).
  destruct (X10_disconnect_idempotent Fixture.connected Fixture.world
              Fixture.registered (lit "x")) as (_ & _ & _ & _ & Hlog & _).
  split; [apply Hnever; reflexivity | apply Hlog; by eexists].
Defined.
(** ** The Discord channel: interactive components *)

Lemma buildComponent_facts (c : Discord.IpcComponent) :
  builderFacts (Discord.buildComponent c) = ipcFacts c.
Proof.
  destruct c as [custom_id label style disabled
                |custom_id placeholder mn mx options disabled]; simpl.
  - by destruct disabled as [[|]|].
  - f_equal; [by destruct disabled as [[|]|]|].
    rewrite <- list_fmap_compose. by apply list_fmap_ext.
Qed.

Lemma builtRows_facts (rows : list Discord.IpcActionRow) :
  (fmap builderFacts <$> builtRows rows)
  = (fun row => ipcFacts <$> Discord.components row) <$> rows.
Proof.
  unfold builtRows. rewrite <- list_fmap_compose. apply list_fmap_ext.
  intros _ row _. unfold compose. rewrite <- list_fmap_compose.
  apply list_fmap_ext. intros _ c _. apply buildComponent_facts.
Qed.

Lemma refusals_app (w : Discord.World) (xs ys : list Discord.IpcComponent) :
  refusals w (xs ++ ys) = refusals w xs ++ refusals w ys.
Proof. apply omap_app. Qed.

(** One row: the first refusal is thrown, else every component is built. *)
Lemma buildActionRow_spec (w : Discord.World) (row : Discord.IpcActionRow) :
  Discord.buildActionRow w row
  = match head (refusals w (Discord.components row)) with
    | Some reason => Thrown reason
    | None => Returned (Discord.buildComponent <$> Discord.components row)
    end.
Proof.
  unfold Discord.buildActionRow.
  induction (Discord.components row) as [|c cs IH]; [done|].
  cbn [Discord.mapOutcome]. unfold refusals. cbn [omap list_omap].
  destruct (Discord.builderCheck w c) as [[]|reason]; [|done].
  rewrite IH. fold (refusals w cs).
  by destruct (head (refusals w cs)).
Qed.

(** All rows: the first refusal, read row by row, is thrown. *)
Lemma buildRows_spec (w : Discord.World) (rows : list Discord.IpcActionRow) :
  Discord.mapOutcome (Discord.buildActionRow w) rows
  = match firstRefusal w rows with
    | Some reason => Thrown reason
    | None => Returned (builtRows rows)
    end.
Proof.
  unfold firstRefusal.
  induction rows as [|row rows IH]; [done|].
  cbn [Discord.mapOutcome]. rewrite buildActionRow_spec, IH.
  rewrite bind_cons, refusals_app.
  destruct (refusals w (Discord.components row)) as [|reason rest]; [|done].
  cbn [head app].
  by destruct (head (refusals w (rows ≫= Discord.components))).
Qed.

(** X11. [sendComponents] returns a message identifier exactly when the
    client is at hand, the channel lookup yields a channel with [send], the
    builders accept every component and the platform accepts the send; the
    identifier is the platform's. When the builders refuse a component, it
    throws their error after the channel lookup and sends nothing. It hands
    at most one payload to the platform, and that payload carries the text
    and one row of builders per action row, in order, each with one builder
    per component, in order, with the component's identifier, label,
    disabled state and options; a button without a style is built with the
    primary style. *)
Theorem X11_sendComponents_rows_in_order
        (self : Discord.DiscordChannel) (w : Discord.World)
        (jid text : jsstring) (rows : list Discord.IpcActionRow) :
  let r := Discord.sendComponents self w jid text rows in
  (∀ sentId,
     snd r = Returned sentId
     ↔ ∃ ch, is_Some (Discord.client self)
             ∧ Discord.channelsFetch w (stripPrefix (lit "dc:") jid)
               = Discord.FetchChannel ch
             ∧ Discord.hasSend ch = true
             ∧ firstRefusal w rows = None
             ∧ Discord.sendResult ch 0 = Returned sentId)
  ∧ (∀ ch reason,
       is_Some (Discord.client self) →
       Discord.channelsFetch w (stripPrefix (lit "dc:") jid)
       = Discord.FetchChannel ch →
       Discord.hasSend ch = true →
       firstRefusal w rows = Some reason →
       r = ([Discord.ChannelsFetch (stripPrefix (lit "dc:") jid)],
            Thrown reason))
  ∧ length (Discord.sends (fst r)) ≤ 1
  ∧ (∀ p, p ∈ Discord.sends (fst r) →
          ∃ built, p = Discord.PComponents text built
                   ∧ (fmap builderFacts <$> built)
                     = (fun row => ipcFacts <$> Discord.components row) <$> rows)
  ∧ (∀ custom_id label disabled,
       builderStyle (Discord.buildComponent
                       (Discord.IpcButton custom_id label None disabled))
       = Some Discord.Primary).
Proof.
  pose proof (builtRows_facts rows) as Hrows.
  cbv zeta. unfold Discord.sendComponents.
  destruct (Discord.client self) as [c|] eqn:Hc.
  2: { split; [|split; [|split; [|split]]];
         [|by intros ? ? [? ?]|simpl; lia|by intros ? ?%elem_of_nil|done].
       intros sentId. split; [done|]. by intros (ch & [? ?] & _). }
  destruct (Discord.channelsFetch w _) as [reason| |ch] eqn:Hf.
  1,2: split; [|split; [|split; [|split]]];
         [|by intros|simpl; lia|by intros ? ?%elem_of_nil|done];
       intros sentId; (split; [done|]); by intros (ch & _ & ? & _).
  destruct (Discord.hasSend ch) eqn:Hs; simpl negb; cbv iota.
  2: { split; [|split; [|split; [|split]]];
         [|intros ? ? _ [= <-]; congruence|simpl; lia
          |by intros ? ?%elem_of_nil|done].
       intros sentId. split; [done|].
       intros (ch' & _ & [= <-] & ? & _). congruence. }
  rewrite buildRows_spec.
  destruct (firstRefusal w rows) as [refused|] eqn:Hb.
  { split; [|split; [|split; [|split]]];
      [|by intros ? ? _ _ _ [= <-]|simpl; lia|by intros ? ?%elem_of_nil|done].
    intros sentId. split; [done|]. by intros (ch' & _ & _ & _ & ? & _). }
  destruct (Discord.sendResult ch 0) as [sentId0|reason] eqn:Hr;
    cbn [fst snd].
  - split; [|split; [|split; [|split]]];
      [|by intros|simpl; lia| |done].
    + intros sentId. split.
      * intros [= <-]. exists ch. by repeat split; eauto.
      * intros (ch' & _ & [= <-] & _ & _ & Hr'). congruence.
    + intros p Hp. apply list_elem_of_singleton in Hp as ->. by eexists.
  - split; [|split; [|split; [|split]]];
      [|by intros|simpl; lia| |done].
    + intros sentId. split; [done|].
      intros (ch' & _ & [= <-] & _ & _ & Hr'). congruence.
    + intros p Hp. apply list_elem_of_singleton in Hp as ->. by eexists.
Qed.

Ltac no_edit :=
  split;
  [split; [done|]
  |split; [simpl; lia
          |split; [by intros ? ?%elem_of_nil | split; by intros]]].

(** X12. [updateComponents] returns normally exactly when the client is at
    hand, the channel lookup yields a channel with [send], the message
    lookup succeeds, the builders accept every component of the rows given
    and the platform accepts the edit. It edits at most once, only after
    the message lookup succeeded, and not at all when the builders refuse a
    component. The edit carries exactly the fields given: the text as
    given, absent when none is given, and the rebuilt rows, absent when no
    components are given. *)
Theorem X12_updateComponents_only_given_fields
        (self : Discord.DiscordChannel) (w : Discord.World)
        (jid messageId : jsstring) (newText : option jsstring)
        (newRows : option (list Discord.IpcActionRow)) :
  let r := Discord.updateComponents self w jid messageId newText newRows in
  (snd r = Returned tt
   ↔ ∃ ch, is_Some (Discord.client self)
           ∧ Discord.channelsFetch w (stripPrefix (lit "dc:") jid)
             = Discord.FetchChannel ch
           ∧ Discord.hasSend ch = true
           ∧ Discord.messagesFetchResult ch messageId = Returned tt
           ∧ (∀ rows, newRows = Some rows → firstRefusal w rows = None)
           ∧ Discord.editResult ch = Returned tt)
  ∧ length (Discord.edits (fst r)) ≤ 1
  ∧ (∀ p, p ∈ Discord.edits (fst r) →
          Discord.edit_content p = newText
          ∧ Discord.edit_components p = (builtRows <$> newRows)
          ∧ (Discord.edit_components p = None ↔ newRows = None)
          ∧ Discord.MessagesFetch messageId ∈ fst r)
  ∧ (∀ ch reason,
       Discord.channelsFetch w (stripPrefix (lit "dc:") jid)
       = Discord.FetchChannel ch →
       Discord.messagesFetchResult ch messageId = Thrown reason →
       Discord.edits (fst r) = [])
  ∧ (∀ rows reason,
       newRows = Some rows → firstRefusal w rows = Some reason →
       Discord.edits (fst r) = []).
Proof.
  cbv zeta. unfold Discord.updateComponents.
  destruct (Discord.client self) as [c|] eqn:Hc.
  2: { no_edit. by intros (ch & [? ?] & _). }
  destruct (Discord.channelsFetch w _) as [reason| |ch] eqn:Hf.
  1,2: no_edit; by intros (ch & _ & ? & _).
  destruct (Discord.hasSend ch) eqn:Hs; simpl negb; cbv iota.
  2: { no_edit. intros (ch' & _ & [= <-] & ? & _). congruence. }
  destruct (Discord.messagesFetchResult ch messageId) as [[]|reason] eqn:Hm.
  2: { no_edit. intros (ch' & _ & [= <-] & _ & ? & _). congruence. }
  assert (Hbuilt :
    match newRows with
    | None => Returned None
    | Some rows =>
        match Discord.mapOutcome (Discord.buildActionRow w) rows with
        | Thrown reason => Thrown reason
        | Returned rows => Returned (Some rows)
        end
    end
    = match newRows ≫= firstRefusal w with
      | Some reason => Thrown reason
      | None => Returned (builtRows <$> newRows)
      end).
  { destruct newRows as [rows|]; [|done]. rewrite buildRows_spec.
    cbn [mbind option_bind]. by destruct (firstRefusal w rows). }
  cbv zeta. rewrite Hbuilt.
  destruct (newRows ≫= firstRefusal w) as [refused|] eqn:Hb.
  { no_edit. intros (ch' & _ & _ & _ & _ & Hall & _).
    destruct newRows as [rows|]; [|done]. cbn in Hb.
    rewrite (Hall rows eq_refl) in Hb. done. }
  assert (Hall : ∀ rows, newRows = Some rows → firstRefusal w rows = None).
  { intros rows ->. exact Hb. }
  assert (Hfields : ∀ p,
             p = Discord.mkEdit newText (builtRows <$> newRows) →
             Discord.edit_content p = newText
             ∧ Discord.edit_components p = (builtRows <$> newRows)
             ∧ (Discord.edit_components p = None ↔ newRows = None)).
  { intros p ->. simpl. repeat split; by destruct newRows. }
  destruct (Discord.editResult ch) as [[]|reason] eqn:He; cbn [fst snd].
  - split; [|split; [|split; [|split]]].
    + split; [intros _; exists ch; by repeat split; eauto | done].
    + simpl. lia.
    + intros p Hp. apply list_elem_of_singleton in Hp.
      destruct (Hfields p Hp) as (H1 & H2 & H3).
      split; [exact H1|]. split; [exact H2|]. split; [exact H3|].
      apply elem_of_cons. right. apply list_elem_of_here.
    + intros ch' reason [= <-] Hm'. congruence.
    + intros rows reason Hrows Href. rewrite (Hall rows Hrows) in Href. done.
  - split; [|split; [|split; [|split]]].
    + split; [done|]. intros (ch' & _ & [= <-] & _ & _ & _ & ?). congruence.
    + simpl. lia.
    + intros p Hp. apply list_elem_of_singleton in Hp.
      destruct (Hfields p Hp) as (H1 & H2 & H3).
      split; [exact H1|]. split; [exact H2|]. split; [exact H3|].
      apply elem_of_cons. right. apply list_elem_of_here.
    + intros ch' reason' [= <-] Hm'. congruence.
    + intros rows reason' Hrows Href. rewrite (Hall rows Hrows) in Href. done.
Qed.

Lemma X11_sendComponents_witness :
  snd (Discord.sendComponents Fixture.connected Fixture.world Fixture.registered
         (lit "Deploy?")
         [Discord.mkRow
            [Discord.IpcButton (lit "approve") (lit "Approve")
                               (Some Discord.success) None;
             Discord.IpcButton (lit "reject") (lit "Reject")
                               (Some Discord.danger) None]])
  = Returned (lit "sent_msg_001")
  ∧ Discord.sendComponents Fixture.connected strictBuilders Fixture.registered
      (lit "Deploy?")
      [Discord.mkRow
         [Discord.IpcButton (lit "approve") (lit "Approve") None None;
          Discord.IpcButton (lit "reject") [] None None]]
    = ([Discord.ChannelsFetch (lit "1234567890123456")],
       Thrown (lit "Invalid string length")).
Proof.
  split.
  - refine (let H := X11_sendComponents_rows_in_order Fixture.connected
                       Fixture.world Fixture.registered (lit "Deploy?") _ in _).
    destruct H as (Hret & _). apply Hret.
    exists Fixture.textChannel. repeat split. by eexists.
  - refine (let H := X11_sendComponents_rows_in_order Fixture.connected
                       strictBuilders Fixture.registered (lit "Deploy?") _ in _).
    destruct H as (_ & Hthrow & _).
    apply (Hthrow Fixture.textChannel); [by eexists|reflexivity..].
Defined.

Lemma X12_updateComponents_witness :
  snd (Discord.updateComponents Fixture.connected Fixture.world
         Fixture.registered (lit "sent_msg_001") None (Some []))
  = Returned tt
  ∧ Discord.edits
      (fst (Discord.updateComponents Fixture.connected
              (worldWith
                 (Discord.mkPlatform true true (fun _ => Returned (lit "id"))
                    (Returned tt) (fun _ => Thrown (lit "Unknown Message"))
                    (Returned tt)))
              Fixture.registered (lit "gone") (Some (lit "Done")) None))
    = []
  ∧ Discord.edits
      (fst (Discord.updateComponents Fixture.connected strictBuilders
              Fixture.registered (lit "sent_msg_001") (Some (lit "Done"))
              (Some [Discord.mkRow
                       [Discord.IpcButton (lit "ok") [] None None]])))
    = [].
Proof.
  split; [|split].
  - destruct (X12_updateComponents_only_given_fields Fixture.connected
                Fixture.world Fixture.registered (lit "sent_msg_001") None
                (Some [])) as (Hret & _).
    apply Hret. exists Fixture.textChannel.
    split; [by eexists|]. repeat split. by intros rows [= <-].
  - destruct (X12_updateComponents_only_given_fields Fixture.connected
                (worldWith
                   (Discord.mkPlatform true true (fun _ => Returned (lit "id"))
                      (Returned tt) (fun _ => Thrown (lit "Unknown Message"))
                      (Returned tt)))
                Fixture.registered (lit "gone") (Some (lit "Done")) None)
      as (_ & _ & _ & Hgone & _).
    eapply Hgone; reflexivity.
  - destruct (X12_updateComponents_only_given_fields Fixture.connected
                strictBuilders Fixture.registered (lit "sent_msg_001")
                (Some (lit "Done"))
                (Some [Discord.mkRow
                         [Discord.IpcButton (lit "ok") [] None None]]))
      as (_ & _ & _ & _ & Hrefused).
    eapply Hrefused; reflexivity.
Defined.

(** ** The Discord channel: mention translation *)

Lemma replaceAll_set (p : N → bool) (rep s : jsstring) :
  replaceAll (RSet p) rep s = s ≫= (fun x => if p x then rep else [x]).
Proof.
  induction s as [|x s IH]; rewrite replaceAll_unfold.
  - reflexivity.
  - unfold matchAt. cbn [rmatch]. rewrite bind_cons.
    destruct (p x).
    + rewrite decide_True by (simpl; lia). by rewrite IH.
    + by rewrite IH.
Qed.

Lemma matchAt_mention_other (botId : jsstring) (c : N) (s : jsstring) :
  c ≠ 60%N → matchAt (Discord.mentionRe botId) (c :: s) = None.
Proof.
  intros Hc. unfold matchAt, Discord.mentionRe. cbn [rmatch].
  replace (startsWith (lit "<@") (c :: s)) with false; [done|].
  symmetry. apply startsWith_false_prefix. intros [k Hk].
  injection Hk as Hk _. by subst c.
Qed.

Lemma matchAt_mention_token (nick : bool) (botId rest : jsstring) :
  Forall (fun c => isDigit c = true) botId →
  matchAt (Discord.mentionRe botId) (mentionToken nick botId ++ rest)
  = Some rest.
Proof.
  intros Hd. unfold matchAt, Discord.mentionRe, mentionToken.
  cbn [rmatch]. rewrite <- !app_assoc, startsWith_app, drop_app_length.
  assert (Hplain : ∀ t,
             (if startsWith botId (botId ++ lit ">" ++ t)
              then if startsWith (lit ">")
                        (drop (length botId) (botId ++ lit ">" ++ t))
                   then Some (drop (length (lit ">"))
                                (drop (length botId) (botId ++ lit ">" ++ t)))
                   else None
              else None) = Some t).
  { intros t. rewrite startsWith_app, drop_app_length, startsWith_app.
    by rewrite drop_app_length. }
  destruct nick.
  - rewrite startsWith_app, drop_app_length. by rewrite Hplain.
  - rewrite app_nil_l.
    replace (startsWith (lit "!") (botId ++ lit ">" ++ rest)) with false.
    + apply Hplain.
    + symmetry. destruct Hd as [|d botId Hd _]; [done|].
      apply startsWith_false_prefix. intros [k Hk]. injection Hk as Hk _.
      subst d. done.
Qed.

Lemma replaceAll_mention_plain (botId s : jsstring) :
  60%N ∉ s → replaceAll (Discord.mentionRe botId) [] s = s.
Proof.
  induction s as [|c s IH]; intros Hs; rewrite replaceAll_unfold.
  - unfold matchAt, Discord.mentionRe. by cbn [rmatch].
  - apply not_elem_of_cons in Hs as [Hc Hs].
    rewrite matchAt_mention_other by done. f_equal. by apply IH.
Qed.

Lemma replaceAll_mention_token (nick : bool) (botId a b : jsstring) :
  Forall (fun c => isDigit c = true) botId → 60%N ∉ a → 60%N ∉ b →
  replaceAll (Discord.mentionRe botId) [] (a ++ mentionToken nick botId ++ b)
  = a ++ b.
Proof.
  intros Hd Ha Hb. induction a as [|c a IH].
  - rewrite app_nil_l, replaceAll_unfold, matchAt_mention_token by done.
    rewrite decide_True.
    + by rewrite replaceAll_mention_plain.
    + unfold mentionToken. rewrite !length_app. simpl. lia.
  - apply not_elem_of_cons in Ha as [Hc Ha].
    change ((c :: a) ++ mentionToken nick botId ++ b)
      with (c :: (a ++ mentionToken nick botId ++ b)).
    rewrite replaceAll_unfold, matchAt_mention_other by done.
    simpl. f_equal. by apply IH.
Qed.

(** X13. Mention translation. A message that neither lists the bot among
    its mentions nor contains one of its two mention tokens keeps its
    content unchanged, as does every message while the client has no user.
    A message whose content is some text around one mention token, plain or
    nickname form, becomes that text without the token, trimmed, and is
    given the trigger phrase and a space in front unless it already matches
    the trigger pattern. A message that lists the bot among its mentions
    without any token in its content is trimmed and prefixed in the same
    way. *)
Theorem X13_mention_translation
        (cfg : Discord.Config) (self : Discord.DiscordChannel)
        (message : Discord.Message) :
  let content := Discord.msg_content message in
  let addressed (body : jsstring) :=
    if Discord.TRIGGER_PATTERN cfg body then body
    else lit "@" ++ Discord.ASSISTANT_NAME cfg ++ lit " " ++ body in
  (Discord.client self ≫= Discord.client_user = None →
   Discord.translateMention cfg self message = content)
  ∧ (∀ botId,
       Discord.client self ≫= Discord.client_user = Some botId →
       botId ∉ Discord.mentions_users message →
       includes (mentionToken false botId) content = false →
       includes (mentionToken true botId) content = false →
       Discord.translateMention cfg self message = content)
  ∧ (∀ botId nick a b,
       Discord.client self ≫= Discord.client_user = Some botId →
       Forall (fun c => isDigit c = true) botId →
       60%N ∉ a → 60%N ∉ b →
       content = a ++ mentionToken nick botId ++ b →
       Discord.translateMention cfg self message = addressed (trim (a ++ b)))
  ∧ (∀ botId,
       Discord.client self ≫= Discord.client_user = Some botId →
       botId ∈ Discord.mentions_users message →
       60%N ∉ content →
       Discord.translateMention cfg self message = addressed (trim content)).
Proof.
  cbv zeta. unfold Discord.translateMention. cbv zeta.
  split; [by intros ->|]. split; [|split].
  - intros botId -> Hm H1 H2.
    rewrite bool_decide_eq_false_2 by done.
    unfold mentionToken in H1, H2. rewrite app_nil_l in H1.
    change (lit "<@" ++ lit "!" ++ botId ++ lit ">")
      with (lit "<@!" ++ botId ++ lit ">") in H2.
    by rewrite H1, H2.
  - intros botId nick a b -> Hd Ha Hb Hc.
    assert (Hmentioned :
              bool_decide (botId ∈ Discord.mentions_users message)
              || includes (lit "<@" ++ botId ++ lit ">")
                          (Discord.msg_content message)
              || includes (lit "<@!" ++ botId ++ lit ">")
                          (Discord.msg_content message) = true).
    { rewrite Hc. destruct nick.
      - replace (includes (lit "<@!" ++ botId ++ lit ">") _) with true;
          [apply orb_true_r|].
        symmetry. unfold mentionToken.
        change (lit "<@" ++ lit "!" ++ botId ++ lit ">")
          with (lit "<@!" ++ botId ++ lit ">").
        apply includes_app_mid.
      - replace (includes (lit "<@" ++ botId ++ lit ">") _) with true;
          [by rewrite orb_true_r|].
        symmetry. unfold mentionToken. rewrite app_nil_l.
        apply includes_app_mid. }
    rewrite Hmentioned, Hc, replaceAll_mention_token by done.
    unfold Discord.triggerPhrase.
    destruct (Discord.TRIGGER_PATTERN cfg _); [done|].
    simpl negb. cbv iota. by rewrite <- !app_assoc.
  - intros botId -> Hm Hc.
    rewrite bool_decide_eq_true_2 by done. simpl orb. cbv iota.
    rewrite replaceAll_mention_plain by done.
    unfold Discord.triggerPhrase.
    destruct (Discord.TRIGGER_PATTERN cfg _); [done|].
    simpl negb. cbv iota. by rewrite <- !app_assoc.
Qed.

Lemma X13_mention_witness :
  Discord.translateMention Fixture.cfg Fixture.connected
    (Discord.mkMsg false (lit "1234567890123456")
       (lit "hey <@!999888777> what time is it? ")
       (lit "2024-01-01T00:00:00.000Z") None Fixture.alice (lit "msg_001")
       (Some (lit "Server")) (lit "general") [] [] None)
  = lit "@Andy hey  what time is it?".
Proof.
  destruct (X13_mention_translation Fixture.cfg Fixture.connected
              (Discord.mkMsg false (lit "1234567890123456")
                 (lit "hey <@!999888777> what time is it? ")
                 (lit "2024-01-01T00:00:00.000Z") None Fixture.alice
                 (lit "msg_001") (Some (lit "Server")) (lit "general") [] []
                 None)) as (_ & _ & Htoken & _).
  rewrite (Htoken (lit "999888777") true (lit "hey ")
                  (lit " what time is it? ")).
  - by vm_compute.
  - reflexivity.
  - repeat constructor.
  - apply (bool_decide_unpack _). by vm_compute.
  - apply (bool_decide_unpack _). by vm_compute.
  - reflexivity.
Defined.

(** ** The Discord channel: downloaded attachments *)





Lemma sanitized_length (name : jsstring) :
  length (replaceAll (RSet Discord.unsafeChar) (lit "_") name) = length name.
Proof.
  rewrite replaceAll_set. induction name as [|x name IH]; [done|].
  rewrite bind_cons, length_app, IH. by destruct (Discord.unsafeChar x).
Qed.

Lemma sanitized_id (name : jsstring) :
  Forall (fun c => Discord.unsafeChar c = false) name →
  replaceAll (RSet Discord.unsafeChar) (lit "_") name = name.
Proof.
  rewrite replaceAll_set. induction 1 as [|x name Hx _ IH]; [done|].
  by rewrite bind_cons, Hx, IH.
Qed.




(** The run of [onMessageCreate] on a registered conversation, spelled out
    with the final state of the attachment loop. *)
Lemma onMessageCreate_registered
      (cfg : Discord.Config) (self : Discord.DiscordChannel)
      (groups : gmap jsstring RegisteredGroup) (w : Discord.World)
      (message : Discord.Message) (g : RegisteredGroup) :
  Discord.author_bot message = false →
  groups !! Discord.jidOf (Discord.channelId message) = Some g →
  inboxReady cfg w g message →
  let st := loopOf cfg w g message in
  let jid := Discord.jidOf (Discord.channelId message) in
  let senderName :=
    Discord.senderNameOf (Discord.member message) (Discord.author message) in
  Discord.onMessageCreate cfg self groups w message
  = fst (Discord.replyContext w message (Discord.translateMention cfg self message))
      ++ [Discord.OnChatMetadata jid (Discord.createdAt message)
            (Discord.chatNameOf message senderName)]
      ++ match Discord.msg_attachments message with
         | [] => []
         | _ :: _ => Discord.MkdirSync (inboxOf cfg g) :: Discord.trace st
         end
      ++ [Discord.OnMessage jid
            (mkMessage (Discord.msg_id message) jid
               (Discord.user_id (Discord.author message)) senderName
               (contentWith (contentBeforeAttachments cfg self w message)
                            (Discord.descriptions st))
               (Discord.createdAt message) (Some false) None
               match Discord.downloaded st with
               | [] => None
               | _ :: _ => Some (Discord.downloaded st)
               end);
          Discord.Log Discord.Info (lit "Discord message stored")].
Proof.
  intros Hbot Hg Hready. cbv zeta.
  unfold Discord.onMessageCreate, Discord.messageCreate,
    contentBeforeAttachments.
  rewrite Hbot. cbv zeta.
  destruct (Discord.replyContext w message _) as [replyEffects content].
  rewrite Hg. cbn [fst snd].
  unfold Discord.handleAttachments, loopOf, contentWith.
  fold (inboxOf cfg g).
  destruct Hready as [Hnil | Hw].
  - by rewrite Hnil.
  - rewrite Hw. cbn [negb]. by destruct (Discord.msg_attachments message).
Qed.

(** When the inbox directory cannot be created the run ends with the
    call that failed. *)
Lemma onMessageCreate_unready
      (cfg : Discord.Config) (self : Discord.DiscordChannel)
      (groups : gmap jsstring RegisteredGroup) (w : Discord.World)
      (message : Discord.Message) (g : RegisteredGroup) :
  Discord.author_bot message = false →
  groups !! Discord.jidOf (Discord.channelId message) = Some g →
  ¬ inboxReady cfg w g message →
  let jid := Discord.jidOf (Discord.channelId message) in
  let senderName :=
    Discord.senderNameOf (Discord.member message) (Discord.author message) in
  Discord.onMessageCreate cfg self groups w message
  = fst (Discord.replyContext w message (Discord.translateMention cfg self message))
      ++ [Discord.OnChatMetadata jid (Discord.createdAt message)
            (Discord.chatNameOf message senderName);
          Discord.MkdirSync (inboxOf cfg g)]
    ∧ Discord.msg_attachments message ≠ [].
Proof.
  intros Hbot Hg Hnot. cbv zeta.
  unfold Discord.onMessageCreate, Discord.messageCreate. rewrite Hbot.
  cbv zeta.
  destruct (Discord.replyContext w message _) as [replyEffects content].
  rewrite Hg. cbn [fst snd].
  rewrite (handleAttachments_aborts cfg w g message content Hnot).
  split; [done|]. intros Hnil. apply Hnot. by left.
Qed.



Lemma fallback_mediaKind (contentType name : jsstring) :
  Discord.fallback (startsWith (lit "image/") contentType) contentType name
  = lit "[" ++ mediaKind contentType ++ lit ": " ++ name ++ lit "]".
Proof.
  unfold Discord.fallback, mediaKind.
  destruct (startsWith (lit "image/") contentType); [done|].
  destruct (startsWith (lit "video/") contentType); [done|].
  by destruct (startsWith (lit "audio/") contentType).
Qed.

Lemma attachmentStep_failed (cfg : Discord.Config) (w : Discord.World)
      (dir : jsstring) (st : Discord.Loop) (a : Discord.RawAttachment) :
  oversized cfg a ∨ Discord.httpGet w (Discord.att_url a) = None →
  Discord.downloaded (Discord.attachmentStep cfg w dir st a)
  = Discord.downloaded st
  ∧ (¬ oversized cfg a →
     Discord.descriptions (Discord.attachmentStep cfg w dir st a)
     = Discord.descriptions st
         ++ [lit "[" ++ mediaKind (typeOf a) ++ lit ": " ++ nameOf a ++ lit "]"]).
Proof.
  unfold Discord.attachmentStep, oversized, advertised. cbv zeta.
  intros H.
  destruct (N.ltb_spec (Discord.MAX_ATTACHMENT_DOWNLOAD_SIZE cfg)
                       (default 0%N (Discord.att_size a))) as [Hlt|Hge].
  - split; [done|]. intros Hn. by destruct Hn.
  - destruct H as [H|H]; [lia|]. rewrite H.
    cbn [Discord.downloaded Discord.descriptions]. split; [done|].
    intros _. by rewrite fallback_mediaKind.
Qed.

Lemma attachmentStep_one_description (cfg : Discord.Config) (w : Discord.World)
      (dir : jsstring) (st : Discord.Loop) (a : Discord.RawAttachment) :
  ∃ d, Discord.descriptions (Discord.attachmentStep cfg w dir st a)
       = Discord.descriptions st ++ [d].
Proof.
  destruct (attachmentStep_cases cfg w dir st a)
    as [(_ & Hd & _) | (_ & d & extra & Hd & _)]; eauto.
Qed.

Lemma attachmentLoop_prefix (cfg : Discord.Config) (w : Discord.World)
      (dir : jsstring) (atts : list Discord.RawAttachment) (st : Discord.Loop) :
  ∃ descs,
    Discord.descriptions (foldl (Discord.attachmentStep cfg w dir) st atts)
    = Discord.descriptions st ++ descs
    ∧ length descs = length atts.
Proof.
  destruct (attachmentLoop_spec cfg w dir atts st) as (descs & ? & Hd & Hl & _).
  by exists descs.
Qed.

Lemma attachmentLoop_failed (cfg : Discord.Config) (w : Discord.World)
      (dir : jsstring) (atts : list Discord.RawAttachment) (st : Discord.Loop)
      (i : nat) (a : Discord.RawAttachment) :
  atts !! i = Some a → ¬ oversized cfg a →
  Discord.httpGet w (Discord.att_url a) = None →
  Discord.descriptions (foldl (Discord.attachmentStep cfg w dir) st atts)
  !! (length (Discord.descriptions st) + i)
  = Some (lit "[" ++ mediaKind (typeOf a) ++ lit ": " ++ nameOf a ++ lit "]").
Proof.
  revert st i. induction atts as [|b atts IH]; intros st i Hi Hn Hf; [done|].
  cbn [foldl]. destruct i as [|i].
  - injection Hi as ->.
    destruct (attachmentStep_failed cfg w dir st a (or_intror Hf)) as [_ Hd].
    specialize (Hd Hn).
    destruct (attachmentLoop_prefix cfg w dir atts
                (Discord.attachmentStep cfg w dir st a)) as (descs & -> & _).
    rewrite Hd, Nat.add_0_r, <- app_assoc.
    rewrite lookup_app_r by lia. by rewrite Nat.sub_diag.
  - destruct (attachmentStep_one_description cfg w dir st b) as [d Hd].
    specialize (IH (Discord.attachmentStep cfg w dir st b) i Hi Hn Hf).
    rewrite Hd, length_app in IH. simpl in IH.
    by replace (length (Discord.descriptions st) + S i)
      with (length (Discord.descriptions st) + 1 + i) by lia.
Qed.

Lemma attachmentLoop_none_persisted (cfg : Discord.Config) (w : Discord.World)
      (dir : jsstring) (atts : list Discord.RawAttachment) (st : Discord.Loop) :
  Forall (fun a => oversized cfg a
                   ∨ Discord.httpGet w (Discord.att_url a) = None) atts →
  Discord.downloaded (foldl (Discord.attachmentStep cfg w dir) st atts)
  = Discord.downloaded st.
Proof.
  intros H. revert st. induction H as [|a atts Ha _ IH]; intros st; [done|].
  cbn [foldl]. rewrite IH.
  by destruct (attachmentStep_failed cfg w dir st a Ha).
Qed.

(** What a run on a registered conversation delivers. *)
Lemma delivered_registered
      (cfg : Discord.Config) (self : Discord.DiscordChannel)
      (groups : gmap jsstring RegisteredGroup) (w : Discord.World)
      (message : Discord.Message) (g : RegisteredGroup) :
  Discord.author_bot message = false →
  groups !! Discord.jidOf (Discord.channelId message) = Some g →
  inboxReady cfg w g message →
  Discord.delivered (Discord.onMessageCreate cfg self groups w message)
  = [(Discord.jidOf (Discord.channelId message),
      mkMessage (Discord.msg_id message)
        (Discord.jidOf (Discord.channelId message))
        (Discord.user_id (Discord.author message))
        (Discord.senderNameOf (Discord.member message) (Discord.author message))
        (contentWith (contentBeforeAttachments cfg self w message)
                     (Discord.descriptions (loopOf cfg w g message)))
        (Discord.createdAt message) (Some false) None
        match Discord.downloaded (loopOf cfg w g message) with
        | [] => None
        | _ :: _ => Some (Discord.downloaded (loopOf cfg w g message))
        end)].
Proof.
  intros Hbot Hg Hready.
  rewrite (onMessageCreate_registered cfg self groups w message g Hbot Hg
             Hready).
  rewrite !delivered_app.
  destruct (replyContext_quiet w message
              (Discord.translateMention cfg self message)) as (-> & _ & _).
  assert (Hloop : Discord.delivered (Discord.trace (loopOf cfg w g message)) = []).
  { destruct (attachmentLoop_spec cfg w (inboxOf cfg g)
                (Discord.msg_attachments message) (Discord.mkLoop [] [] [] 0))
      as (? & extra & _ & _ & _ & Ht & _ & Hd & _).
    fold (loopOf cfg w g message) in Ht. rewrite Ht. exact Hd. }
  replace (Discord.delivered
             match Discord.msg_attachments message with
             | [] => []
             | _ :: _ => Discord.MkdirSync (inboxOf cfg g)
                           :: Discord.trace (loopOf cfg w g message)
             end) with (@nil (jsstring * NewMessage))
    by (destruct (Discord.msg_attachments message); [done | by rewrite <- Hloop]).
  reflexivity.
Qed.

(** X15. A download that fails does not stop the message. On a registered
    conversation, once the inbox directory of the group is created (or the
    message has no attachment), the message is delivered with one
    description per attachment, in order; an attachment within the size
    limit whose fetch fails is described at its own position by a
    placeholder with its media kind (image, video, audio or file, by the
    prefix of its content type) and its display name only; when every
    attachment is oversized or fails to be fetched the message carries no
    [attachments] field. *)
Theorem X15_failed_download_placeholder
        (cfg : Discord.Config) (self : Discord.DiscordChannel)
        (groups : gmap jsstring RegisteredGroup) (w : Discord.World)
        (message : Discord.Message) (g : RegisteredGroup) :
  Discord.author_bot message = false →
  groups !! Discord.jidOf (Discord.channelId message) = Some g →
  inboxReady cfg w g message →
  let tr := Discord.onMessageCreate cfg self groups w message in
  let atts := Discord.msg_attachments message in
  ∃ m descs,
    Discord.delivered tr = [(Discord.jidOf (Discord.channelId message), m)]
    ∧ content m = contentWith (contentBeforeAttachments cfg self w message) descs
    ∧ length descs = length atts
    ∧ (∀ i a, atts !! i = Some a → ¬ oversized cfg a →
              Discord.httpGet w (Discord.att_url a) = None →
              descs !! i
              = Some (lit "[" ++ mediaKind (typeOf a) ++ lit ": " ++ nameOf a
                        ++ lit "]"))
    ∧ (Forall (fun a => oversized cfg a
                        ∨ Discord.httpGet w (Discord.att_url a) = None) atts →
       attachments m = None).
Proof.
  intros Hbot Hg Hready. cbv zeta.
  eexists _, (Discord.descriptions (loopOf cfg w g message)).
  split; [apply (delivered_registered cfg self groups w message g Hbot Hg
                   Hready)|].
  cbn [content attachments]. split; [reflexivity|]. split; [|split].
  - destruct (attachmentLoop_prefix cfg w (inboxOf cfg g)
                (Discord.msg_attachments message) (Discord.mkLoop [] [] [] 0))
      as (descs & Hd & Hl).
    fold (loopOf cfg w g message) in Hd. by rewrite Hd.
  - intros i a Hi Hn Hf.
    apply (attachmentLoop_failed cfg w (inboxOf cfg g)
             (Discord.msg_attachments message) (Discord.mkLoop [] [] [] 0)
             i a Hi Hn Hf).
  - intros Hall. unfold loopOf.
    by rewrite attachmentLoop_none_persisted.
Qed.

Lemma X15_failed_download_witness :
  content <$>
    (snd <$> Discord.delivered
       (Discord.onMessageCreate Fixture.cfg Fixture.connected Fixture.groups
          Fixture.world
          (Fixture.hello (lit "1234567890123456")
             [Discord.mkRaw (Some (lit "clip.mp4")) (Some (lit "video/mp4"))
                            None (lit "https://gone/clip.mp4")])))
  = [lit "Hello everyone" ++ newline ++ lit "[Video: clip.mp4]"].
Proof.
  destruct (X15_failed_download_placeholder Fixture.cfg Fixture.connected
              Fixture.groups Fixture.world
              (Fixture.hello (lit "1234567890123456")
                 [Discord.mkRaw (Some (lit "clip.mp4")) (Some (lit "video/mp4"))
                                None (lit "https://gone/clip.mp4")])
              (mkGroup (lit "Test Server #general") (lit "test-server")
                       (lit "@Andy") (lit "2024-01-01T00:00:00.000Z")))
    as (m & descs & Hd & Hc & Hl & Hfail & _).
  - reflexivity.
  - by vm_compute.
  - right. by vm_compute.
  - rewrite Hd. cbn [fmap list_fmap snd]. f_equal. rewrite Hc.
    destruct descs as [|d [|d' descs]]; [done| |done].
    assert (H0 : d = lit "[Video: clip.mp4]").
    { assert (Hs : Some d = Some (lit "[Video: clip.mp4]")); [|by injection Hs].
      apply (Hfail 0 _ eq_refl); [|reflexivity].
      unfold oversized. by vm_compute. }
    rewrite H0. by vm_compute.
Defined.

Lemma attachmentStep_persists (cfg : Discord.Config) (w : Discord.World)
      (dir : jsstring) (st : Discord.Loop) (a : Discord.RawAttachment) :
  (∀ p, Discord.writeOk w p = true) →
  ¬ oversized cfg a → is_Some (Discord.httpGet w (Discord.att_url a)) →
  Discord.downloaded (Discord.attachmentStep cfg w dir st a)
  = Discord.downloaded st ++ [persisted w (Discord.ticks st) a]
  ∧ Discord.descriptions (Discord.attachmentStep cfg w dir st a)
    = Discord.descriptions st
        ++ [referenceLine (persisted w (Discord.ticks st) a)]
  ∧ Discord.ticks (Discord.attachmentStep cfg w dir st a)
    = S (Discord.ticks st).
Proof.
  intros Hw Hn [len Hlen].
  unfold Discord.attachmentStep, oversized, advertised in *. cbv zeta.
  destruct (N.ltb_spec (Discord.MAX_ATTACHMENT_DOWNLOAD_SIZE cfg)
                       (default 0%N (Discord.att_size a))) as [Hlt|Hge];
    [done|].
  rewrite Hlen, Hw.
  cbn [Discord.downloaded Discord.descriptions Discord.ticks].
  unfold persisted, referenceLine, nameOf, typeOf. rewrite Hlen.
  cbn [isImage filename path default]. done.
Qed.

Lemma attachmentLoop_all_persisted (cfg : Discord.Config) (w : Discord.World)
      (dir : jsstring) (atts : list Discord.RawAttachment) (st : Discord.Loop) :
  (∀ p, Discord.writeOk w p = true) →
  Forall (fun a => ¬ oversized cfg a
                   ∧ is_Some (Discord.httpGet w (Discord.att_url a))) atts →
  Discord.downloaded (foldl (Discord.attachmentStep cfg w dir) st atts)
  = Discord.downloaded st
      ++ imap (fun i => persisted w (Discord.ticks st + i)) atts
  ∧ Discord.descriptions (foldl (Discord.attachmentStep cfg w dir) st atts)
    = Discord.descriptions st
        ++ (referenceLine
              <$> imap (fun i => persisted w (Discord.ticks st + i)) atts).
Proof.
  intros Hw Hall. revert st.
  induction Hall as [|a atts [Hn Hf] _ IH]; intros st.
  - simpl. by rewrite !app_nil_r.
  - cbn [foldl].
    destruct (attachmentStep_persists cfg w dir st a Hw Hn Hf)
      as (Hd & Hl & Ht).
    destruct (IH (Discord.attachmentStep cfg w dir st a)) as [IHd IHl].
    rewrite IHd, IHl, Hd, Hl, Ht, imap_cons, fmap_cons, Nat.add_0_r.
    rewrite <- !app_assoc. cbn [app].
    assert (Himap : imap (fun i => persisted w (S (Discord.ticks st) + i)) atts
                    = imap ((fun i => persisted w (Discord.ticks st + i)) ∘ S)
                           atts).
    { apply imap_ext. intros i x _. simpl. by rewrite Nat.add_succ_r. }
    by rewrite Himap.
Qed.

(** X16. When every attachment of a message on a registered conversation
    is within the size limit and every fetch and write succeeds, the
    delivered message carries one attachment per platform attachment, in
    order: the [k]-th has the display name ([file] when the platform gives
    none), the content type ([application/octet-stream] when none), the
    size of the fetched body, the image flag of the content type, and the
    path [inbox/] + the time of the [k]-th clock reading + [-] + the name
    with every unit outside letters, digits, [.], [_], [-] replaced by
    [_]. The content gains exactly the reference lines of these
    attachments. *)
Theorem X16_all_downloads_succeed
        (cfg : Discord.Config) (self : Discord.DiscordChannel)
        (groups : gmap jsstring RegisteredGroup) (w : Discord.World)
        (message : Discord.Message) :
  Discord.author_bot message = false →
  is_Some (groups !! Discord.jidOf (Discord.channelId message)) →
  (∀ p, Discord.writeOk w p = true) →
  Forall (fun a => ¬ oversized cfg a
                   ∧ is_Some (Discord.httpGet w (Discord.att_url a)))
         (Discord.msg_attachments message) →
  let tr := Discord.onMessageCreate cfg self groups w message in
  let atts := Discord.msg_attachments message in
  ∃ m,
    Discord.delivered tr = [(Discord.jidOf (Discord.channelId message), m)]
    ∧ default [] (attachments m) = imap (persisted w) atts
    ∧ (attachments m = None ↔ atts = [])
    ∧ content m
      = contentWith (contentBeforeAttachments cfg self w message)
                    (referenceLine <$> imap (persisted w) atts)
    ∧ Discord.fetched tr = Discord.att_url <$> atts.
Proof.
  intros Hbot [g Hg] Hw Hall. cbv zeta.
  assert (Hready : inboxReady cfg w g message) by (right; apply Hw).
  eexists. split; [apply (delivered_registered cfg self groups w message g Hbot Hg
                            Hready)|].
  destruct (attachmentLoop_all_persisted cfg w (inboxOf cfg g)
              (Discord.msg_attachments message) (Discord.mkLoop [] [] [] 0)
              Hw Hall) as [Hd Hl].
  fold (loopOf cfg w g message) in Hd, Hl.
  cbn [Discord.downloaded Discord.descriptions Discord.ticks app] in Hd, Hl.
  cbn [attachments content]. rewrite Hd, Hl.
  split; [by destruct (imap _ _)|]. split; [|split; [done|]].
  - destruct (Discord.msg_attachments message); [done|].
    rewrite imap_cons. split; done.
  - destruct (onMessageCreate_spec cfg self groups w message Hbot) as [_ H].
    rewrite Hg in H. destruct H as [_ H].
    destruct (H Hready) as (? & ? & ? & _ & Hf & _). rewrite Hf.
    f_equal. clear -Hall.
    induction Hall as [|a atts [Hn _] _ IH]; [done|].
    by rewrite filter_cons_True, IH.
Qed.

Lemma X16_all_downloads_witness :
  ∃ m,
    Discord.delivered
      (Discord.onMessageCreate Fixture.cfg Fixture.connected Fixture.groups
         Fixture.world
         (Fixture.hello (lit "1234567890123456")
            [Fixture.photo;
             Discord.mkRaw None None (Some 10%N) (lit "https://cdn/b c")]))
    = [(Fixture.registered, m)]
    ∧ default [] (attachments m)
      = [mkAttachment (lit "photo.png") (lit "inbox/1700000000000-photo.png")
                      (lit "image/png") 2048 true;
         mkAttachment (lit "file") (lit "inbox/1700000000001-file")
                      (lit "application/octet-stream") 2048 false].
Proof.
  destruct (X16_all_downloads_succeed Fixture.cfg Fixture.connected
              Fixture.groups Fixture.world
              (Fixture.hello (lit "1234567890123456")
                 [Fixture.photo;
                  Discord.mkRaw None None (Some 10%N) (lit "https://cdn/b c")]))
    as (m & Hd & Ha & _).
  - reflexivity.
  - eexists. vm_compute. reflexivity.
  - reflexivity.
  - repeat constructor; (by vm_compute) || (by eexists).
  - exists m. split; [exact Hd|]. rewrite Ha. by vm_compute.
Defined.

Lemma omap_app_nil {A B} (f : A → option B) (l1 l2 : list A) :
  omap f l1 = [] → omap f l2 = [] → omap f (l1 ++ l2) = [].
Proof. intros H1 H2. by rewrite omap_app, H1, H2. Qed.

Lemma attachmentStep_effects (cfg : Discord.Config) (w : Discord.World)
      (dir : jsstring) (st : Discord.Loop) (a : Discord.RawAttachment) :
  ∃ extra,
    Discord.trace (Discord.attachmentStep cfg w dir st a)
    = Discord.trace st ++ extra
    ∧ length (Discord.written extra) ≤ length (Discord.fetched extra)
    ∧ Discord.sends extra = [] ∧ Discord.madeDirs extra = []
    ∧ Discord.acknowledged extra = [].
Proof.
  unfold Discord.attachmentStep. cbv zeta.
  destruct (_ <? _)%N.
  { exists []. rewrite app_nil_r. by repeat split. }
  destruct (Discord.httpGet w _) as [len|]; [destruct (Discord.writeOk w _)|];
    eexists; (split; [reflexivity|]); repeat split; simpl; lia.
Qed.

Lemma attachmentLoop_effects (cfg : Discord.Config) (w : Discord.World)
      (dir : jsstring) (atts : list Discord.RawAttachment) (st : Discord.Loop) :
  ∃ extra,
    Discord.trace (foldl (Discord.attachmentStep cfg w dir) st atts)
    = Discord.trace st ++ extra
    ∧ length (Discord.written extra) ≤ length (Discord.fetched extra)
    ∧ Discord.sends extra = [] ∧ Discord.madeDirs extra = []
    ∧ Discord.acknowledged extra = [].
Proof.
  revert st. induction atts as [|a atts IH]; intros st.
  - exists []. rewrite app_nil_r. by repeat split.
  - cbn [foldl].
    destruct (attachmentStep_effects cfg w dir st a)
      as (e1 & Ht1 & Hw1 & Hs1 & Hm1 & Ha1).
    destruct (IH (Discord.attachmentStep cfg w dir st a))
      as (e2 & Ht2 & Hw2 & Hs2 & Hm2 & Ha2).
    exists (e1 ++ e2). rewrite Ht2, Ht1, <- app_assoc.
    split; [done|].
    unfold Discord.written, Discord.fetched, Discord.sends, Discord.madeDirs,
      Discord.acknowledged in *.
    rewrite !omap_app, !length_app, Hs1, Hs2, Hm1, Hm2, Ha1, Ha2.
    repeat split. lia.
Qed.

(** X17. What inbound handling never does. A message from a bot has no
    effect at all. A message on an unregistered conversation fetches no
    attachment, writes no file and creates no directory. On a registered
    conversation the only directory created is the group's inbox, and only
    when the message has attachments; files are written only after a fetch,
    never more writes than fetches. In no case does the handler send
    anything to the platform or acknowledge an interaction. *)
Theorem X17_inbound_side_effects
        (cfg : Discord.Config) (self : Discord.DiscordChannel)
        (groups : gmap jsstring RegisteredGroup) (w : Discord.World)
        (message : Discord.Message) :
  let tr := Discord.onMessageCreate cfg self groups w message in
  let jid := Discord.jidOf (Discord.channelId message) in
  (Discord.author_bot message = true → tr = [])
  ∧ (groups !! jid = None →
     Discord.fetched tr = [] ∧ Discord.written tr = []
     ∧ Discord.madeDirs tr = [])
  ∧ (∀ g, Discord.author_bot message = false → groups !! jid = Some g →
          Discord.madeDirs tr
          = match Discord.msg_attachments message with
            | [] => []
            | _ :: _ => [inboxOf cfg g]
            end)
  ∧ length (Discord.written tr) ≤ length (Discord.fetched tr)
  ∧ Discord.sends tr = []
  ∧ Discord.acknowledged tr = [].
Proof.
  cbv zeta.
  destruct (Discord.author_bot message) eqn:Hbot.
  { unfold Discord.onMessageCreate, Discord.messageCreate. rewrite Hbot.
    by repeat split. }
  split; [done|].
  assert (Hreply : ∀ c,
             Discord.fetched (fst (Discord.replyContext w message c)) = []
             ∧ Discord.written (fst (Discord.replyContext w message c)) = []
             ∧ Discord.madeDirs (fst (Discord.replyContext w message c)) = []
             ∧ Discord.sends (fst (Discord.replyContext w message c)) = []
             ∧ Discord.acknowledged (fst (Discord.replyContext w message c)) = []).
  { intros c. unfold Discord.replyContext.
    destruct (Discord.reference message) as [mid|]; [|done].
    destruct (truthy mid); [|done].
    by destruct (Discord.fetchReply w mid) as [[? ?]|]. }
  destruct (groups !! Discord.jidOf (Discord.channelId message)) as [g|] eqn:Hg.
  - destruct (decide (inboxReady cfg w g message)) as [Hready | Hnot].
    2: { destruct (onMessageCreate_unready cfg self groups w message g Hbot Hg
                     Hnot) as [-> Hatts].
         destruct (Hreply (Discord.translateMention cfg self message))
           as (Hf & Hw & Hm & Hs & Ha).
         unfold Discord.written, Discord.fetched, Discord.sends,
           Discord.madeDirs, Discord.acknowledged in *.
         rewrite !omap_app, Hf, Hw, Hm, Hs, Ha.
         split; [done|]. split; [|by repeat split].
         intros g' _ [= <-].
         by destruct (Discord.msg_attachments message). }
    rewrite (onMessageCreate_registered cfg self groups w message g Hbot Hg
               Hready).
    destruct (Hreply (Discord.translateMention cfg self message))
      as (Hf & Hw & Hm & Hs & Ha).
    destruct (attachmentLoop_effects cfg w (inboxOf cfg g)
                (Discord.msg_attachments message) (Discord.mkLoop [] [] [] 0))
      as (extra & Ht & Hwe & Hse & Hme & Hae).
    fold (loopOf cfg w g message) in Ht. cbn [Discord.trace app] in Ht.
    rewrite Ht.
    unfold Discord.written, Discord.fetched, Discord.sends, Discord.madeDirs,
      Discord.acknowledged in *.
    rewrite !omap_app, Hf, Hw, Hm, Hs, Ha.
    split; [done|]. split; [|split; [|split]].
    + intros g' _ [= <-].
      destruct (Discord.msg_attachments message); [done|].
      cbn [omap list_omap app]. by rewrite Hme.
    + destruct (Discord.msg_attachments message); cbn [omap list_omap app];
        rewrite ?app_nil_r, ?length_app; simpl; lia.
    + destruct (Discord.msg_attachments message); cbn [omap list_omap app];
        [done | by rewrite Hse].
    + destruct (Discord.msg_attachments message); cbn [omap list_omap app];
        [done | by rewrite Hae].
  - unfold Discord.onMessageCreate, Discord.messageCreate. rewrite Hbot.
    cbv zeta.
    destruct (Hreply (Discord.translateMention cfg self message))
      as (Hf & Hw & Hm & Hs & Ha).
    destruct (Discord.replyContext w message _) as [replyEffects content].
    rewrite Hg. cbn [fst] in *.
    unfold Discord.written, Discord.fetched, Discord.sends, Discord.madeDirs,
      Discord.acknowledged in *.
    rewrite !omap_app, Hf, Hw, Hm, Hs, Ha. by repeat split.
Qed.

Lemma X17_inbound_witness :
  Discord.onMessageCreate Fixture.cfg Fixture.connected Fixture.groups
    Fixture.world
    (Discord.mkMsg true (lit "1234567890123456") (lit "I am a bot")
       (lit "2024-01-01T00:00:00.000Z") None Fixture.bob (lit "msg_002")
       None (lit "general") [] [Fixture.photo] None)
  = []
  ∧ Discord.fetched
      (Discord.onMessageCreate Fixture.cfg Fixture.connected Fixture.groups
         Fixture.world
         (Fixture.hello (lit "9999999999999999") [Fixture.photo]))
    = []
  ∧ Discord.madeDirs
      (Discord.onMessageCreate Fixture.cfg Fixture.connected Fixture.groups
         Fixture.world
         (Fixture.hello (lit "1234567890123456") [Fixture.photo]))
    = [lit "/groups/test-server/inbox"].
Proof.
  split; [|split].
  - destruct (X17_inbound_side_effects Fixture.cfg Fixture.connected
                Fixture.groups Fixture.world
                (Discord.mkMsg true (lit "1234567890123456") (lit "I am a bot")
                   (lit "2024-01-01T00:00:00.000Z") None Fixture.bob
                   (lit "msg_002") None (lit "general") [] [Fixture.photo] None))
      as (Hbot & _).
    apply Hbot. reflexivity.
  - destruct (X17_inbound_side_effects Fixture.cfg Fixture.connected
                Fixture.groups Fixture.world
                (Fixture.hello (lit "9999999999999999") [Fixture.photo]))
      as (_ & Hunreg & _).
    apply Hunreg. by vm_compute.
  - refine (let H := X17_inbound_side_effects Fixture.cfg Fixture.connected
                       Fixture.groups Fixture.world
                       (Fixture.hello (lit "1234567890123456") [Fixture.photo])
            in _).
    destruct H as (_ & _ & Hdir & _).
    rewrite (Hdir (mkGroup (lit "Test Server #general") (lit "test-server")
                           (lit "@Andy") (lit "2024-01-01T00:00:00.000Z")));
      [by vm_compute | reflexivity | by vm_compute].
Defined.

(** ** More on the context formatter and the sanitizer *)

Lemma split_at_first (q : N) (a a' b b' : jsstring) :
  q ∉ a → q ∉ a' → a ++ q :: b = a' ++ q :: b' → a = a' ∧ b = b'.
Proof.
  revert a'. induction a as [|x a IH]; intros [|x' a'] Ha Ha' H.
  - by injection H.
  - injection H as -> _. exfalso. apply Ha'. by left.
  - injection H as -> _. exfalso. apply Ha. by left.
  - injection H as -> H.
    apply not_elem_of_cons in Ha as [_ Ha], Ha' as [_ Ha'].
    destruct (IH a' Ha Ha' H) as [-> ->]. done.
Qed.

Lemma escapeXml_no_dquote (s : jsstring) : dquote ∉ escapeXml s.
Proof.
  intros H. by eapply wellEscaped_no_raw in H as (_ & _ & ?);
    [|apply wellEscaped_escapeXml].
Qed.

Lemma escapeXml_injective (a b : jsstring) : escapeXml a = escapeXml b → a = b.
Proof.
  assert (Hround : ∀ s, unescapeXml (escapeXml s) = s).
  { intros s. rewrite escapeXml_charwise.
    induction s as [|x s IH]; [done|].
    by rewrite bind_cons, unescapeXml_escapeChar, IH. }
  intros H. by rewrite <- (Hround a), <- (Hround b), H.
Qed.

(** X18. One element of the context envelope determines the message fields
    it was built from: two messages with the same element have the same
    sender name, whatever the sender names contain, and, when their
    timestamps are equal or free of double quotes, the same timestamp and
    the same body. No sender name or body can pass for another one or
    reach into another attribute. *)
Theorem X18_messageLine_determines_fields (m1 m2 : NewMessage) :
  messageLine m1 = messageLine m2 →
  sender_name m1 = sender_name m2
  ∧ (((timestamp m1 = timestamp m2)
      ∨ ((dquote ∉ timestamp m1) ∧ (dquote ∉ timestamp m2))) →
     timestamp m1 = timestamp m2 ∧ content m1 = content m2).
Proof.
  unfold messageLine.
  generalize (lit "<message sender=") (lit " time=") (lit ">")
             (lit "</message>").
  intros p1 p2 p3 p4 H.
  apply app_inv_head in H. cbn [app] in H. injection H as H.
  apply split_at_first in H as [Hname H]; [|apply escapeXml_no_dquote..].
  split; [by apply escapeXml_injective|].
  apply app_inv_head in H. cbn [app] in H. injection H as H.
  intros Hts.
  assert (Hboth : timestamp m1 = timestamp m2
                  ∧ p3 ++ escapeXml (content m1) ++ p4
                    = p3 ++ escapeXml (content m2) ++ p4).
  { destruct Hts as [E | [H1 H2]].
    - rewrite E in H. apply app_inv_head in H. by injection H.
    - by apply (split_at_first dquote). }
  destruct Hboth as [E Hbody]. split; [exact E|].
  apply app_inv_head, app_inv_tail in Hbody.
  by apply escapeXml_injective.
Qed.

Lemma X18_messageLine_witness :
  sender_name
    (mkMessage (lit "1") (lit "dc:7") (lit "u1") (lit "A<b>") (lit "x & y")
               (lit "2024-01-01T00:00:00.000Z") None None None)
  = lit "A<b>".
Proof.
  refine (proj1 (X18_messageLine_determines_fields
                   (mkMessage (lit "1") (lit "dc:7") (lit "u1") (lit "A<b>")
                      (lit "x & y") (lit "2024-01-01T00:00:00.000Z")
                      None None None)
                   (mkMessage (lit "2") (lit "dc:8") (lit "u2") (lit "A<b>")
                      (lit "x & y") (lit "2024-01-01T00:00:00.000Z")
                      (Some true) None None) eq_refl)).
Defined.

Lemma withSpans_kept_sublist (spans : list (jsstring * jsstring))
      (tail : jsstring) :
  (concat (fst <$> spans) ++ tail) `sublist_of` withSpans spans tail.
Proof.
  induction spans as [|[pre body] spans IH]; [done|].
  change (withSpans ((pre, body) :: spans) tail)
    with (pre ++ openTag ++ body ++ closeTag ++ withSpans spans tail).
  rewrite fmap_cons. cbn [concat fst]. rewrite <- app_assoc.
  apply sublist_app; [done|].
  do 3 apply sublist_inserts_l. exact IH.
Qed.

(** X19. The sanitizer only removes: the result of [stripInternalTags] is
    the text with code units left out, the others kept in order, so it is
    never longer than the text and contains nothing the text did not. The
    same holds for [formatOutbound]. *)
Theorem X19_stripInternalTags_only_removes (text : jsstring) :
  stripInternalTags text `sublist_of` text
  ∧ length (stripInternalTags text) ≤ length text
  ∧ (∀ c, c ∈ stripInternalTags text → c ∈ text)
  ∧ formatOutbound text `sublist_of` text.
Proof.
  assert (Hsub : stripInternalTags text `sublist_of` text).
  { unfold stripInternalTags.
    assert (Hremoved : replaceAll internalRe [] text `sublist_of` text).
    { destruct (spans_exist text) as (spans & tail & -> & Hok & Hno).
      rewrite remove_withSpans by done. apply withSpans_kept_sublist. }
    destruct (trim_spec (replaceAll internalRe [] text)) as (l & r & Hs & _).
    etrans; [|exact Hremoved].
    rewrite Hs at 2. by apply sublist_inserts_l, sublist_inserts_r. }
  split; [exact Hsub|]. split; [by apply sublist_length|].
  split.
  - intros c Hc. by eapply elem_of_sublist.
  - unfold formatOutbound. cbv zeta.
    destruct (stripInternalTags text); simpl; [apply sublist_nil_l|].
    exact Hsub.
Qed.

Lemma X19_stripInternalTags_witness :
  60%N ∈ lit "a <internal>b</internal> < c".
Proof.
  destruct (X19_stripInternalTags_only_removes
              (lit "a <internal>b</internal> < c")) as (_ & _ & Hin & _).
  apply Hin. vm_compute. do 3 apply list_elem_of_further.
  apply list_elem_of_here.
Defined.
